(** * RepoSearch frontend: the aggregation engine, embedded and verified

    A shallow embedding of the analytics logic of the repository page:
    the API client ([lib/api.ts]), the per-card components
    ([components/repository/*.tsx]), the page that owns the repository
    fetch ([app/repository/[id]/page.tsx]) and the single-component version
    of that page, which fetches everything itself.

    JavaScript values are modelled as follows.
    - integers carried in [number] fields (ids, counts, byte counts) are [Z];
      array lengths and the page counter are [nat];
    - a quotient of two numbers is the exact rational ([Q]); the rounding of
      IEEE doubles is outside the model;
    - strings are [string];
    - a [Map] is an association list in insertion order;
    - [null]/[undefined] is [None]. *)

From Stdlib Require Import List ZArith QArith Qround String Ascii Bool Lia.
From Stdlib Require Import Sorted Permutation.
From Stdlib Require OrderedTypeEx DecimalString.
Import ListNotations.

Local Open Scope string_scope.
Local Open Scope list_scope.
Local Open Scope Z_scope.

(* ================================================================= *)
(** ** Data model ([types/github.ts]) *)

(** The account object of [Commit.author] / [Commit.committer]. *)
Module User.
Record t := mk
  { login : string; id : Z; avatar_url : string; html_url : string }.
End User.

(** [commit.author] / [commit.committer]: the git metadata of a commit. *)
Module GitActor.
Record t := mk { name : string; email : string; date : string }.
End GitActor.

Module CommitDetail.
Record t := mk
  { message : string; author : GitActor.t; committer : GitActor.t }.
End CommitDetail.

Module Commit.
Record t := mk
  { sha : string;
    commit : CommitDetail.t;
    author : option User.t;
    committer : option User.t;
    html_url : string }.
End Commit.

Module Contributor.
Record t := mk
  { login : string; id : Z; avatar_url : string; html_url : string;
    contributions : Z }.
End Contributor.

Module Repository.
Record t := mk
  { id : Z; name : string; full_name : string; description : option string;
    html_url : string; stargazers_count : Z; forks_count : Z;
    language : option string; updated_at : string }.
End Repository.

Module RepositorySearchResponse.
Record t := mk { total_count : Z; items : list Repository.t }.
End RepositorySearchResponse.

Module RepositoryDetails.
Record t := mk
  { id : Z; name : string; full_name : string; description : option string;
    html_url : string; stargazers_count : Z; forks_count : Z;
    watchers_count : Z; language : option string; created_at : string;
    updated_at : string; pushed_at : string; default_branch : string;
    open_issues_count : Z }.
End RepositoryDetails.

Module Issue.
Record t := mk
  { id : Z; number : Z; title : string; body : option string;
    open : bool; html_url : string; created_at : string;
    updated_at : string; user_login : string; user_avatar_url : string;
    user_html_url : string }.
End Issue.

(* ================================================================= *)
(** ** JavaScript primitives used by the components *)

(** Keys of a [Map<string | number, _>].  [Map] compares keys with
    SameValueZero, so the number [42] and the string ["42"] differ. *)
Inductive Key :=
| KNum (n : Z)
| KStr (s : string).

Definition Key_eqb (a b : Key) : bool :=
  match a, b with
  | KNum x, KNum y => Z.eqb x y
  | KStr x, KStr y => String.eqb x y
  | _, _ => false
  end.

(** Truthiness of a [string | number | null]. *)
Definition truthy (k : option Key) : bool :=
  match k with
  | None => false
  | Some (KNum n) => negb (Z.eqb n 0)
  | Some (KStr s) => negb (String.eqb s "")
  end.

(** [a || b] on such values. *)
Definition js_or (a b : option Key) : option Key :=
  if truthy a then a else b.

Section JsMap.
Context {K V : Type} (eqb : K -> K -> bool).

(** [m.get(k)] *)
Fixpoint Map_get (m : list (K * V)) (k : K) : option V :=
  match m with
  | [] => None
  | (k', v) :: m' => if eqb k k' then Some v else Map_get m' k
  end.

(** [m.set(k, v)]: a present key keeps its position, a new key goes last. *)
Fixpoint Map_set (m : list (K * V)) (k : K) (v : V) : list (K * V) :=
  match m with
  | [] => [(k, v)]
  | (k', v') :: m' =>
      if eqb k k' then (k, v) :: m' else (k', v') :: Map_set m' k v
  end.
End JsMap.

Section JsSort.
Context {A : Type} (cmp : A -> A -> Z).

(** [Array.prototype.sort(cmp)] is stable (ES2019): elements that compare
    equal keep their relative order.  For a consistent comparator the
    result is the one computed by this insertion sort. *)
Fixpoint sort_insert (x : A) (l : list A) : list A :=
  match l with
  | [] => [x]
  | y :: l' => if cmp x y <=? 0 then x :: y :: l' else y :: sort_insert x l'
  end.

Fixpoint Array_sort (l : list A) : list A :=
  match l with
  | [] => []
  | x :: l' => sort_insert x (Array_sort l')
  end.
End JsSort.

(** [x.toFixed(1)], given as the number of tenths it prints: the integer [n]
    with [n / 10] nearest to [x], the one of larger magnitude on a tie. *)
Definition toFixed1 (x : Q) : Z :=
  if Qle_bool 0 x then Qfloor (x * inject_Z 10 + (1 # 2))
  else - Qfloor (- x * inject_Z 10 + (1 # 2)).

(** The integers [lo], [lo + 1], ... ([n] of them). *)
Fixpoint Zrange (lo : Z) (n : nat) : list Z :=
  match n with
  | O => []
  | S n' => lo :: Zrange (lo + 1) n'
  end.

(** Sum of a list of integers. *)
Definition sumZ (l : list Z) : Z := fold_right Z.add 0 l.

(** [before x y l]: some occurrence of [x] in [l] comes earlier than some
    occurrence of [y]. *)
Inductive before {A : Type} (x y : A) : list A -> Prop :=
| before_here l : In y l -> before x y (x :: l)
| before_later z l : before x y l -> before x y (z :: l).

(* ================================================================= *)
(** ** [components/repository/user-impact.tsx] *)

Module ContributorStats.
Record t := mk
  { login : string;
    name : string;
    avatar_url : option string;
    html_url : option string;
    commitCount : Z;
    percentage : Q;
    isAnonymous : bool }.
End ContributorStats.

Module UserImpact.

(** The value type of [authorCounts]. *)
Record Entry := mkEntry
  { count : Z;
    author : option User.t;
    commitAuthorEmail : string;
    commitAuthorName : string }.

(** The [key] computed in the [forEach] body:
    [author.id || author.login || null] for a commit with an account,
    the commit-metadata email otherwise. *)
Definition commitKey (c : Commit.t) : option Key :=
  match Commit.author c with
  | Some a =>
      js_or (js_or (Some (KNum (User.id a))) (Some (KStr (User.login a))))
            None
  | None => Some (KStr (GitActor.email (CommitDetail.author (Commit.commit c))))
  end.

(** The key under which a commit is counted: [key] when [if (key)] passes. *)
Definition resolve (c : Commit.t) : option Key :=
  if truthy (commitKey c) then commitKey c else None.

(** One iteration of [commits.forEach]. *)
Definition countCommit (authorCounts : list (Key * Entry)) (c : Commit.t)
  : list (Key * Entry) :=
  let author := Commit.author c in
  let commitAuthorEmail := GitActor.email (CommitDetail.author (Commit.commit c)) in
  let commitAuthorName := GitActor.name (CommitDetail.author (Commit.commit c)) in
  match resolve c with
  | Some key =>
      match Map_get Key_eqb authorCounts key with
      | Some existing =>
          Map_set Key_eqb authorCounts key
            (mkEntry (count existing + 1) (UserImpact.author existing)
               (UserImpact.commitAuthorEmail existing)
               (UserImpact.commitAuthorName existing))
      | None =>
          Map_set Key_eqb authorCounts key
            (mkEntry 1 author commitAuthorEmail commitAuthorName)
      end
  | None => authorCounts
  end.

Definition authorCounts (commits : list Commit.t) : list (Key * Entry) :=
  fold_left countCommit commits [].

(** [s || undefined] *)
Definition or_undefined (s : option string) : option string :=
  match s with
  | Some "" => None
  | other => other
  end.

(** [totalCommits > 0 ? (count / totalCommits) * 100 : 0] *)
Definition percent (count totalCommits : Z) : Q :=
  if 0 <? totalCommits
  then Qred ((inject_Z count / inject_Z totalCommits) * inject_Z 100)
  else 0%Q.

(** The callback of [.map(...)]. *)
Definition toStats (totalCommits : Z) (e : Entry) : ContributorStats.t :=
  let isAnonymous := match author e with None => true | Some _ => false end in
  ContributorStats.mk
    (if isAnonymous then commitAuthorEmail e
     else match author e with Some a => User.login a | None => "" end)
    (if isAnonymous then commitAuthorName e
     else match author e with Some a => User.login a | None => "" end)
    (or_undefined (option_map User.avatar_url (author e)))
    (or_undefined (option_map User.html_url (author e)))
    (count e)
    (percent (count e) totalCommits)
    isAnonymous.

(** The comparator [(a, b) => b.commitCount - a.commitCount]. *)
Definition byCommitCount (a b : ContributorStats.t) : Z :=
  ContributorStats.commitCount b - ContributorStats.commitCount a.

Definition contributorStats (commits : list Commit.t)
  : list ContributorStats.t :=
  match commits with
  | [] => []
  | _ =>
      let totalCommits := Z.of_nat (List.length commits) in
      Array_sort byCommitCount
        (map (toStats totalCommits) (map snd (authorCounts commits)))
  end.

(** The same ranking with each entry still paired with its [Map] key,
    which [Array.from(authorCounts.values())] drops. *)
Definition byCount (a b : Key * Entry) : Z := count (snd b) - count (snd a).

Definition ranked (commits : list Commit.t) : list (Key * Entry) :=
  Array_sort byCount (authorCounts commits).

(** Is commit [c] counted under key [k]? *)
Definition countedUnder (k : Key) (c : Commit.t) : bool :=
  match resolve c with
  | Some k' => Key_eqb k' k
  | None => false
  end.

(** Position of the first commit counted under [k]. *)
Fixpoint firstSeen (k : Key) (commits : list Commit.t) : option nat :=
  match commits with
  | [] => None
  | c :: cs =>
      if countedUnder k c then Some O else option_map S (firstSeen k cs)
  end.

(** Number of commits counted under [k]. *)
Definition commitsOf (k : Key) (commits : list Commit.t) : Z :=
  Z.of_nat (List.length (filter (countedUnder k) commits)).

(** Number of commits that the loop counts: those whose key passes
    [if (key)]. *)
Definition attributable (commits : list Commit.t) : Z :=
  Z.of_nat (List.length (filter (fun c => truthy (commitKey c)) commits)).

(** The entry created when [c] is the first commit seen under its key,
    after [n] commits have been counted under that key. *)
Definition entryOf (n : Z) (c : Commit.t) : Entry :=
  mkEntry n (Commit.author c)
    (GitActor.email (CommitDetail.author (Commit.commit c)))
    (GitActor.name (CommitDetail.author (Commit.commit c))).

(** What the counting loop maintains: after the commits [cs], the map [m]
    holds one entry per key seen, in order of first sighting, each with
    the number of commits counted under its key. *)
Record counted (cs : list Commit.t) (m : list (Key * Entry)) : Prop :=
  { cnt_nodup : NoDup (map fst m);
    cnt_absent : forall k,
      Map_get Key_eqb m k = None -> firstSeen k cs = None;
    cnt_count : forall k e,
      Map_get Key_eqb m k = Some e ->
      count e = commitsOf k cs /\ 1 <= count e /\
      exists i, firstSeen k cs = Some i;
    cnt_order : forall k1 k2,
      before k1 k2 (map fst m) ->
      exists i j,
        firstSeen k1 cs = Some i /\ firstSeen k2 cs = Some j /\ (i < j)%nat;
    cnt_sum :
      sumZ (map (fun kv => count (snd kv)) m) = attributable cs }.

End UserImpact.


(* ================================================================= *)
(** ** The host's [Date]: time values and [toISOString]

    A time value is a number of milliseconds since 1970-01-01T00:00:00Z.
    [toISOString] prints it in UTC; only its date part is used by the
    components. *)

Module JsDate.

Definition msPerDay : Z := 86400000.

(** [Day(t)]: the number of the UTC day that contains [t]. *)
Definition Day (t : Z) : Z := t / msPerDay.

(** The calendar runs in 400-year eras of 146097 days that start on a
    1 March; within an era, years are counted from March.  The day of the
    era on which year [yoe] of the era starts. *)
Definition yearStart (yoe : Z) : Z := 365 * yoe + yoe / 4 - yoe / 100.

(** The year of the era that contains day [doe] of the era. *)
Definition yoe_of_doe (doe : Z) : Z :=
  (doe - doe / 1460 + doe / 36524 - doe / 146096) / 365.

(** Month (1-12) and day of the month of day [doy] of a year that starts on
    1 March. *)
Definition month_day_of_doy (doy : Z) : Z * Z :=
  let mp := (5 * doy + 2) / 153 in
  let d := doy - (153 * mp + 2) / 5 + 1 in
  let m := if mp <? 10 then mp + 3 else mp - 9 in
  (m, d).

Definition doy_of_month_day (m d : Z) : Z :=
  (153 * (if 2 <? m then m - 3 else m + 9) + 2) / 5 + d - 1.

(** Year of the era, month and day of the month of day [doe] of the era. *)
Definition date_of_doe (doe : Z) : Z * Z * Z :=
  let yoe := yoe_of_doe doe in
  let '(m, d) := month_day_of_doy (doe - yearStart yoe) in
  (yoe, m, d).

(** The day of the era of such a date. *)
Definition doe_of_date (yoe m d : Z) : Z :=
  yearStart yoe + doy_of_month_day m d.

(** January and February belong to the next calendar year. *)
Definition newYear (m : Z) : Z := if m <=? 2 then 1 else 0.

(** Year, month and day of the month of a day number, in the proleptic
    Gregorian calendar; day 0 is 1970-01-01. *)
Definition civil_from_days (z : Z) : Z * Z * Z :=
  let z := z + 719468 in
  let era := z / 146097 in
  let '(yoe, m, d) := date_of_doe (z - era * 146097) in
  (yoe + era * 400 + newYear m, m, d).

(** The day number of a civil date. *)
Definition days_from_civil (y m d : Z) : Z :=
  let y := y - newYear m in
  let era := y / 400 in
  era * 146097 + doe_of_date (y - era * 400) m d - 719468.

(** What is checked, by evaluation, of each of the 400 years of an era: its
    first and its last day are placed in it. *)
Definition year_check (yoe : Z) : bool :=
  (yoe_of_doe (yearStart yoe) =? yoe)
  && (yoe_of_doe (yearStart (yoe + 1) - 1) =? yoe).

(** What is checked, by evaluation, of each of the 366 days of a year: its
    month and day are in range and give it back, and it falls in January or
    February exactly from day 306 on. *)
Definition doy_check (doy : Z) : bool :=
  let '(m, d) := month_day_of_doy doy in
  (1 <=? m) && (m <=? 12) && (1 <=? d) && (d <=? 31)
  && (doy_of_month_day m d =? doy)
  && Bool.eqb (306 <=? doy) (m <=? 2).

Definition digit (n : Z) : ascii := ascii_of_nat (48 + Z.to_nat n).

Definition pad2 (n : Z) : string :=
  String (digit (n / 10 mod 10)) (String (digit (n mod 10)) "").

Definition pad4 (n : Z) : string :=
  String (digit (n / 1000 mod 10)) (String (digit (n / 100 mod 10)) (pad2 n)).

Definition pad6 (n : Z) : string :=
  String (digit (n / 100000 mod 10))
    (String (digit (n / 10000 mod 10)) (pad4 n)).

(** Years 0 to 9999 print as four digits, the others as a sign and six. *)
Definition isoYear (y : Z) : string :=
  if (0 <=? y) && (y <=? 9999) then pad4 y
  else String.append (if y <? 0 then "-" else "+") (pad6 (Z.abs y)).

(** [new Date(t).toISOString().split("T")[0]] *)
Definition isoDate (t : Z) : string :=
  let '(y, m, d) := civil_from_days (Day t) in
  String.concat "-" [isoYear y; pad2 m; pad2 d].

(** The time values of valid dates: at most 100,000,000 days from the
    epoch, either way. *)
Definition validTime (t : Z) : Prop :=
  -8640000000000000 <= t <= 8640000000000000.

(** [TimeClip]: a time value out of range makes the date invalid. *)
Definition TimeClip (t : Z) : option Z :=
  if (-8640000000000000 <=? t) && (t <=? 8640000000000000) then Some t
  else None.

Definition digitVal (c : ascii) : option Z :=
  let n := Z.of_nat (nat_of_ascii c) in
  if (48 <=? n) && (n <=? 57) then Some (n - 48) else None.

(** The value of a string of decimal digits. *)
Fixpoint numeral (acc : Z) (s : string) : option Z :=
  match s with
  | EmptyString => Some acc
  | String c s' =>
      match digitVal c with
      | Some v => numeral (acc * 10 + v) s'
      | None => None
      end
  end.

(** [Date.parse] on the UTC date-time strings of the GitHub API,
    [YYYY-MM-DDTHH:mm:ssZ]; [None] stands for the NaN time value of an
    invalid date.  It serves as the host's parser in the examples; the
    components are modelled over an arbitrary parser. *)
Definition parseUtc (s : string) : option Z :=
  if negb (String.length s =? 20)%nat then None else
  if negb (String.eqb (substring 4 1 s) "-" && String.eqb (substring 7 1 s) "-"
           && String.eqb (substring 10 1 s) "T"
           && String.eqb (substring 13 1 s) ":"
           && String.eqb (substring 16 1 s) ":"
           && String.eqb (substring 19 1 s) "Z") then None else
  match numeral 0 (substring 0 4 s), numeral 0 (substring 5 2 s),
        numeral 0 (substring 8 2 s), numeral 0 (substring 11 2 s),
        numeral 0 (substring 14 2 s), numeral 0 (substring 17 2 s) with
  | Some y, Some m, Some d, Some hh, Some mm, Some ss =>
      let day := days_from_civil y m d in
      if (1 <=? m) && (m <=? 12) && (1 <=? d) && (hh <=? 23) && (mm <=? 59)
         && (ss <=? 59)
         && (let '(y', m', d') := civil_from_days day in
             (y' =? y) && (m' =? m) && (d' =? d))
      then Some (day * msPerDay + hh * 3600000 + mm * 60000 + ss * 1000)
      else None
  | _, _, _, _, _, _ => None
  end.

(** Reading a date key back: the day number printed as [YYYY-MM-DD] or,
    with a sign, as [+YYYYYY-MM-DD] or [-YYYYYY-MM-DD]. *)
Definition dayOfDigits (sign : Z) (width : nat) (s : string) : option Z :=
  match numeral 0 (substring 0 width s),
        numeral 0 (substring (width + 1) 2 s),
        numeral 0 (substring (width + 4) 2 s) with
  | Some y, Some m, Some d => Some (days_from_civil (sign * y) m d)
  | _, _, _ => None
  end.

Definition dayOfKey (s : string) : option Z :=
  match s with
  | EmptyString => None
  | String c rest =>
      if Ascii.eqb c "+" then dayOfDigits 1 6 rest
      else if Ascii.eqb c "-" then dayOfDigits (-1) 6 rest
      else dayOfDigits 1 4 s
  end.

End JsDate.

(* ================================================================= *)
(** ** [components/repository/commit-timeline.tsx] *)

Module TimelineData.
Record t := mk { date : string; commits : Z; formattedDate : string }.
End TimelineData.

Module CommitTimeline.

(** [commit.commit.committer.date] *)
Definition committerDate (c : Commit.t) : string :=
  GitActor.date (CommitDetail.committer (Commit.commit c)).

(** Number of occurrences of [k] in [ks]. *)
Definition occurrences (k : string) (ks : list string) : Z :=
  Z.of_nat (List.length (filter (String.eqb k) ks)).

(** What the loop over the commits maintains: after the date keys [ks],
    [dateMap] holds each key once, with its number of occurrences. *)
Record tallied (ks : list string) (dateMap : list (string * Z)) : Prop :=
  { tal_nodup : NoDup (map fst dateMap);
    tal_count : forall k n,
      Map_get String.eqb dateMap k = Some n -> n = occurrences k ks /\ 1 <= n;
    tal_absent : forall k,
      Map_get String.eqb dateMap k = None -> occurrences k ks = 0;
    tal_sum : sumZ (map snd dateMap) = Z.of_nat (List.length ks) }.

Section WithHost.

(** The host's date parser: the time value that [Date.parse] reads in a
    string, [None] when it reads none. *)
Variable Date_parse : string -> option Z.

(** The host's [new Date(date).toLocaleDateString('en-US', ...)] label. *)
Variable toLocaleDateString : string -> string.

(** The committer timestamp of a commit: the time value of
    [new Date(commit.commit.committer.date)], [None] when the date is
    invalid. *)
Definition committedAt (c : Commit.t) : option Z :=
  match Date_parse (committerDate c) with
  | Some t => JsDate.TimeClip t
  | None => None
  end.

(** [dateKey]; [toISOString] throws a RangeError on an invalid date. *)
Definition dateKey (c : Commit.t) : option string :=
  option_map JsDate.isoDate (committedAt c).

(** [(dateMap.get(dateKey) || 0) + 1] *)
Definition bump (dateMap : list (string * Z)) (key : string) : Z :=
  (match Map_get String.eqb dateMap key with
   | Some n => if n =? 0 then 0 else n
   | None => 0
   end) + 1.

(** [commits.forEach(...)]; [None] when an iteration throws. *)
Fixpoint countDays (commits : list Commit.t) (dateMap : list (string * Z))
  : option (list (string * Z)) :=
  match commits with
  | [] => Some dateMap
  | c :: cs =>
      match dateKey c with
      | Some key =>
          countDays cs (Map_set String.eqb dateMap key (bump dateMap key))
      | None => None
      end
  end.

(** [a.localeCompare(b)] on the date keys of the years 0 to 9999: texts of
    ten digits and hyphens, which collation orders as their code units are
    ordered.  (The key of another year starts with a sign, and collation
    does not order the signs as the code units do: such keys are outside
    what this definition stands for.) *)
Definition localeCompare (a b : string) : Z :=
  match String.compare a b with
  | Lt => -1
  | Eq => 0
  | Gt => 1
  end.

Definition byDate (a b : TimelineData.t) : Z :=
  localeCompare (TimelineData.date a) (TimelineData.date b).

Definition toPoint (entry : string * Z) : TimelineData.t :=
  TimelineData.mk (fst entry) (snd entry) (toLocaleDateString (fst entry)).

Definition timelineData (commits : list Commit.t)
  : option (list TimelineData.t) :=
  match commits with
  | [] => Some []
  | _ =>
      option_map (fun dateMap => Array_sort byDate (map toPoint dateMap))
                 (countDays commits [])
  end.

(** The date keys of the commits, in order. *)
Definition dateKeys (commits : list Commit.t) : list string :=
  flat_map (fun c => match dateKey c with Some k => [k] | None => [] end)
           commits.

(** Number of commits of the window committed on UTC day [day]. *)
Definition commitsOnDay (day : Z) (commits : list Commit.t) : Z :=
  Z.of_nat (List.length (filter
    (fun c => match committedAt c with
              | Some t => JsDate.Day t =? day
              | None => false
              end) commits)).

End WithHost.
End CommitTimeline.

(* ================================================================= *)
(** ** Numbers that divisions produce, and [toFixed] *)

(** The value of [a / b] may fail to be a finite number. *)
Inductive JsNumber :=
| Finite (q : Q)
| NaN
| Infinity (negative : bool).

(** [a / b] for integers [a] and [b]: [0 / 0] is NaN, [a / 0] is infinite. *)
Definition js_div (a b : Z) : JsNumber :=
  if b =? 0 then (if a =? 0 then NaN else Infinity (a <? 0))
  else Finite (Qred (inject_Z a / inject_Z b)).

(** [x * k] for a positive integer [k]. *)
Definition js_times (x : JsNumber) (k : Z) : JsNumber :=
  match x with
  | Finite q => Finite (Qred (q * inject_Z k))
  | other => other
  end.

(** Decimal digits of a natural number. *)
Definition decimal (n : Z) : string :=
  DecimalString.NilZero.string_of_uint (N.to_uint (Z.to_N n)).

(** The digits [toFixed(1)] prints for a finite [x >= 0]. *)
Definition fixed1 (x : Q) : string :=
  let n := toFixed1 x in
  String.append (decimal (n / 10)) (String.append "." (decimal (n mod 10))).

(** [x.toFixed(1)] (for magnitudes below 1e21, beyond which JavaScript
    switches to exponent notation). *)
Definition toFixed1_string (x : JsNumber) : string :=
  match x with
  | NaN => "NaN"
  | Infinity false => "Infinity"
  | Infinity true => "-Infinity"
  | Finite q =>
      if Qle_bool 0 q then fixed1 q else String.append "-" (fixed1 (- q))
  end.

(* ================================================================= *)
(** ** [components/repository/language-distribution.tsx] *)

Module LanguageData.
Record t := mk { name : string; value : Z; percentage : string }.
End LanguageData.

Module LanguageDistribution.

(** [RepositoryLanguages]: the properties of the object, in the order in
    which [Object.keys], [Object.values] and [Object.entries] list them. *)
Definition RepositoryLanguages := list (string * Z).

Definition Object_keys (languages : RepositoryLanguages) : list string :=
  map fst languages.

Definition Object_values (languages : RepositoryLanguages) : list Z :=
  map snd languages.

(** [Object.values(languages).reduce((sum, bytes) => sum + bytes, 0)] *)
Definition totalBytes (languages : RepositoryLanguages) : Z :=
  fold_left (fun sum bytes => sum + bytes) (Object_values languages) 0.

(** The comparator [(a, b) => b.value - a.value]. *)
Definition byValue (a b : LanguageData.t) : Z :=
  LanguageData.value b - LanguageData.value a.

Definition languageData (languages : RepositoryLanguages)
  : list LanguageData.t :=
  if (List.length (Object_keys languages) =? 0)%nat then []
  else
    let totalBytes := totalBytes languages in
    Array_sort byValue
      (map (fun entry =>
              let '(language, bytes) := entry in
              LanguageData.mk language bytes
                (toFixed1_string (js_times (js_div bytes totalBytes) 100)))
           languages).

End LanguageDistribution.

(* ================================================================= *)
(** ** [lib/api.ts] *)

(** [String.prototype.trim] on strings of code units below 256: the white
    space and line terminators in that range are TAB, LF, VT, FF, CR, SP
    and NBSP. *)
Definition is_whitespace (c : ascii) : bool :=
  let n := nat_of_ascii c in
  ((9 <=? n) && (n <=? 13) || (n =? 32) || (n =? 160))%nat.

Fixpoint trimStart (s : string) : string :=
  match s with
  | EmptyString => EmptyString
  | String c s' => if is_whitespace c then trimStart s' else s
  end.

Fixpoint trimEnd (s : string) : string :=
  match s with
  | EmptyString => EmptyString
  | String c s' =>
      match trimEnd s' with
      | EmptyString => if is_whitespace c then EmptyString
                       else String c EmptyString
      | rest => String c rest
      end
  end.

Definition trim (s : string) : string := trimEnd (trimStart s).

(** [!s] for a string. *)
Definition falsy_string (s : string) : bool := String.eqb s "".

(** [!x] for a number: zero and NaN. *)
Definition falsy_number (x : JsNumber) : bool :=
  match x with
  | Finite q => Qeq_bool q 0
  | NaN => true
  | Infinity _ => false
  end.

(** A string made of white space only. *)
Fixpoint whitespace_only (s : string) : Prop :=
  match s with
  | EmptyString => True
  | String c s' => is_whitespace c = true /\ whitespace_only s'
  end.

Module Api.

(** [class ApiError]: the message and the HTTP status (the response
    payload [data] is not read by any caller and is left out). *)
Record ApiError := mkApiError { message : string; status : Z }.

(** What a rejected call throws: an [ApiError], or the [TypeError] of
    calling [trim] on [undefined]. *)
Inductive Thrown :=
| IsApiError (e : ApiError)
| TypeError.

(** How a promise settles. *)
Inductive Result (T : Type) :=
| Resolved (value : T)
| Rejected (error : Thrown).
Arguments Resolved {T} value.
Arguments Rejected {T} error.

(** What [fetch] followed by [response.json()] can do for a URL. *)
Inductive HttpOutcome (T : Type) :=
| HttpOk (data : T)
| HttpNotOk (status : Z) (error : option string)
| HttpFailure (message : option string).
Arguments HttpOk {T} data.
Arguments HttpNotOk {T} status error.
Arguments HttpFailure {T} message.

(** The backend, one typed view per endpoint, each a function of the
    requested URL. *)
Record Backend := mkBackend
  { search : string -> HttpOutcome RepositorySearchResponse.t;
    repository : string -> HttpOutcome RepositoryDetails.t;
    contributors : string -> HttpOutcome (list Contributor.t);
    issues : string -> HttpOutcome (list Issue.t);
    commits : string -> HttpOutcome (list Commit.t) }.

(** An API call: the URLs it requested, and how it settled. *)
Definition Call (T : Type) : Type := list string * Result T.

Section WithHost.

(** [process.env.NEXT_PUBLIC_API_URL || 'http://localhost:5000'] *)
Variable API_BASE_URL : string.
Variable encodeURIComponent : string -> string.
(** The text of a number inside a template literal. *)
Variable Number_toString : JsNumber -> string.
Variable backend : Backend.

Definition showZ (n : Z) : string := Number_toString (Finite (inject_Z n)).

(** [fetchApi]: exactly one request; any failure becomes an [ApiError]. *)
Definition fetchApi {T : Type} (fetch : string -> HttpOutcome T)
           (endpoint : string) : Call T :=
  let url := String.append API_BASE_URL endpoint in
  ([url],
   match fetch url with
   | HttpOk data => Resolved data
   | HttpNotOk status error =>
       Rejected (IsApiError
         (mkApiError
            (match error with
             | Some e => if falsy_string e
                         then String.append "API request failed with status "
                                            (showZ status)
                         else e
             | None => String.append "API request failed with status "
                                     (showZ status)
             end)
            status))
   | HttpFailure message =>
       Rejected (IsApiError
         (mkApiError
            (match message with
             | Some m => m
             | None => "Network error occurred"
             end)
            0))
   end).

(** [throw new ApiError(message, 400)] before any request. *)
Definition reject {T : Type} (message : string) : Call T :=
  ([], Rejected (IsApiError (mkApiError message 400))).

Definition searchRepositories (query : string)
  : Call RepositorySearchResponse.t :=
  if falsy_string (trim query) then reject "Query parameter is required"
  else fetchApi (search backend)
         (String.append "/github/search?query=" (encodeURIComponent query)).

(** The query string [owner=...&repo=...] shared by four endpoints. *)
Definition ownerRepo (owner repo : string) : string :=
  String.concat ""
    ["owner="; encodeURIComponent owner; "&repo="; encodeURIComponent repo].

Definition getRepositoryDetails (owner repo : string)
  : Call RepositoryDetails.t :=
  if falsy_string (trim owner) || falsy_string (trim repo)
  then reject "Owner and repo parameters are required"
  else fetchApi (repository backend)
         (String.append "/github/get_repository_details?"
                        (ownerRepo owner repo)).

Definition getRepositoryById (id : JsNumber) : Call RepositoryDetails.t :=
  if falsy_number id then reject "Repository ID is required"
  else fetchApi (repository backend)
         (String.append "/github/get_repository_by_id?id="
                        (Number_toString id)).

Definition getRepositoryContributors (owner repo : string)
           (perPage page : Z) : Call (list Contributor.t) :=
  if falsy_string (trim owner) || falsy_string (trim repo)
  then reject "Owner and repo parameters are required"
  else fetchApi (contributors backend)
         (String.concat ""
            ["/github/get_repository_contributors?"; ownerRepo owner repo;
             "&per_page="; showZ perPage; "&page="; showZ page]).

Definition getRepositoryIssues (owner repo : string) : Call (list Issue.t) :=
  if falsy_string (trim owner) || falsy_string (trim repo)
  then reject "Owner and repo parameters are required"
  else fetchApi (issues backend)
         (String.append "/github/get_repository_issues?"
                        (ownerRepo owner repo)).

Definition getRepositoryCommits (owner repo : string) (perPage : Z)
  : Call (list Commit.t) :=
  if falsy_string (trim owner) || falsy_string (trim repo)
  then reject "Owner and repo parameters are required"
  else fetchApi (commits backend)
         (String.concat ""
            ["/github/get_repository_commits?"; ownerRepo owner repo;
             "&per_page="; showZ perPage]).

End WithHost.
End Api.

(* ================================================================= *)
(** ** What the pages share *)

(** [s.split(sep)] for a one-character separator. *)
Fixpoint split (sep : ascii) (s : string) : list string :=
  match s with
  | EmptyString => [EmptyString]
  | String c s' =>
      if Ascii.eqb c sep then EmptyString :: split sep s'
      else match split sep s' with
           | [] => [String c EmptyString]
           | segment :: rest => String c segment :: rest
           end
  end.

(** [const [owner, repo] = full_name.split("/")]: the second name is
    [undefined] when [full_name] has no slash. *)
Definition ownerAndRepo (full_name : string) : string * option string :=
  let parts := split "/"%char full_name in
  (hd EmptyString parts, nth_error parts 1).

(** A call with an owner and a repository name taken from [full_name]: on an
    [undefined] name, [repo.trim()] throws unless the owner is blank, in
    which case the check has already thrown its [ApiError]. *)
Definition withRepo {T : Type} (call : string -> string -> Api.Call T)
           (owner : string) (repo : option string) : Api.Call T :=
  match repo with
  | Some r => call owner r
  | None =>
      if falsy_string (trim owner)
      then ([], Api.Rejected (Api.IsApiError
              (Api.mkApiError "Owner and repo parameters are required" 400)))
      else ([], Api.Rejected Api.TypeError)
  end.

(** The identity key of a contributor record: the key expression of the
    impact aggregator, [id || login || null], on the record's own fields. *)
Definition contributorKey (c : Contributor.t) : option Key :=
  js_or (js_or (Some (KNum (Contributor.id c))) (Some (KStr (Contributor.login c))))
        None.

(** How a fetch cycle ends. *)
Inductive Outcome :=
| Published
| Failed (err : Api.Thrown)
| InvalidId.

(** What an [async] function does when it is run up to its next [await]. *)
Inductive Next (Await : Type) :=
| Suspend (a : Await)
| Return (o : Outcome).
Arguments Suspend {Await} a.
Arguments Return {Await} o.

(** A page component under an arbitrary order of arrival of the responses:
    the component's state is shared by all the fetch cycles it has started. *)
Section Scheduler.
Context {Page Await : Type}.

(** The effect run for a repository id, up to the first [await]. *)
Variable effect : option Z -> Page -> Page * list string * Next Await.
(** The continuation of a suspended cycle once its promise has settled. *)
Variable resume : Await -> Page -> Page * list string * Next Await.

Record World := mkWorld
  { page : Page;
    cycles : list (option Await);
    requests : list string }.

Inductive Event :=
| Navigate (repoId : option Z)
| Settle (cycle : nat).

Definition suspended (n : Next Await) : option Await :=
  match n with
  | Suspend a => Some a
  | Return _ => None
  end.

Fixpoint replace_nth {A : Type} (k : nat) (x : A) (l : list A) : list A :=
  match l, k with
  | [], _ => []
  | _ :: l', O => x :: l'
  | y :: l', S k' => y :: replace_nth k' x l'
  end.

Definition step (w : World) (e : Event) : World :=
  match e with
  | Navigate repoId =>
      let '(p, log, next) := effect repoId (page w) in
      mkWorld p (cycles w ++ [suspended next]) (requests w ++ log)
  | Settle k =>
      match nth_error (cycles w) k with
      | Some (Some a) =>
          let '(p, log, next) := resume a (page w) in
          mkWorld p (replace_nth k (suspended next) (cycles w))
                  (requests w ++ log)
      | _ => w
      end
  end.

Definition run (w : World) (events : list Event) : World :=
  fold_left step events w.

(** One cycle run on its own until it returns; [None] when out of fuel. *)
Fixpoint runCycle (fuel : nat) (a : Await) (p : Page)
  : option (Page * list string * Outcome) :=
  match fuel with
  | O => None
  | S fuel' =>
      let '(p', log, next) := resume a p in
      match next with
      | Return o => Some (p', log, o)
      | Suspend a' =>
          match runCycle fuel' a' p' with
          | Some (p'', log', o) => Some (p'', log ++ log', o)
          | None => None
          end
      end
  end.

End Scheduler.

(* ================================================================= *)
(** ** The single-component repository page

    The version of [RepositoryDetailPage] that fetches the repository, the
    commit window and every contributor page itself, in one [fetchData]. *)

Module SinglePage.
Import Api.

Record Page := mkPage
  { repository : option RepositoryDetails.t;
    commits : list Commit.t;
    contributors : list Contributor.t;
    isLoading : bool;
    isNotFound : bool;
    (** messages passed to [toast.error], oldest first *)
    toasts : list string;
    (** targets passed to [router.push], oldest first *)
    pushes : list string }.

(** The state of the freshly mounted component. *)
Definition initial : Page := mkPage None [] [] true false [] [].

Definition setRepository (r : RepositoryDetails.t) (p : Page) : Page :=
  mkPage (Some r) (commits p) (contributors p) (isLoading p) (isNotFound p)
         (toasts p) (pushes p).
Definition setCommits (c : list Commit.t) (p : Page) : Page :=
  mkPage (repository p) c (contributors p) (isLoading p) (isNotFound p)
         (toasts p) (pushes p).
Definition setContributors (c : list Contributor.t) (p : Page) : Page :=
  mkPage (repository p) (commits p) c (isLoading p) (isNotFound p)
         (toasts p) (pushes p).
Definition setIsLoading (b : bool) (p : Page) : Page :=
  mkPage (repository p) (commits p) (contributors p) b (isNotFound p)
         (toasts p) (pushes p).
Definition setIsNotFound (b : bool) (p : Page) : Page :=
  mkPage (repository p) (commits p) (contributors p) (isLoading p) b
         (toasts p) (pushes p).
Definition toast_error (m : string) (p : Page) : Page :=
  mkPage (repository p) (commits p) (contributors p) (isLoading p)
         (isNotFound p) (toasts p ++ [m]) (pushes p).
Definition router_push (target : string) (p : Page) : Page :=
  mkPage (repository p) (commits p) (contributors p) (isLoading p)
         (isNotFound p) (toasts p) (pushes p ++ [target]).

Definition perPage : nat := 100.

(** How an iteration of [while (hasMore)] ends. *)
Inductive Loop :=
| Continue (allContributors : list Contributor.t) (page : nat)
| Break (allContributors : list Contributor.t).

(** The body of the loop, after the page has arrived. *)
Definition afterPage (allContributors : list Contributor.t) (page : nat)
           (contributorsPage : list Contributor.t) : Loop :=
  if (List.length contributorsPage =? 0)%nat then Break allContributors
  else
    let allContributors := allContributors ++ contributorsPage in
    if (List.length contributorsPage <? perPage)%nat then Break allContributors
    else
      let page := S page in
      if (10 <? page)%nat then Break allContributors
      else Continue allContributors page.

(** The loop against a source of pages: the page numbers requested, in
    order, and how the loop ends; [None] when out of fuel. *)
Fixpoint contributorLoop (fuel : nat)
         (getPage : nat -> Result (list Contributor.t))
         (allContributors : list Contributor.t) (page : nat)
  : option (list nat * Result (list Contributor.t)) :=
  match fuel with
  | O => None
  | S fuel' =>
      match getPage page with
      | Rejected err => Some ([page], Rejected err)
      | Resolved contributorsPage =>
          match afterPage allContributors page contributorsPage with
          | Break all => Some ([page], Resolved all)
          | Continue all page' =>
              match contributorLoop fuel' getPage all page' with
              | Some (asked, r) => Some (page :: asked, r)
              | None => None
              end
          end
      end
  end.

(** The loop as [fetchData] starts it: no contributor yet, page 1. *)
Definition mergeContributors (getPage : nat -> Result (list Contributor.t))
  : option (list nat * Result (list Contributor.t)) :=
  contributorLoop 10 getPage [] 1.

(** A source of pages in which every request succeeds. *)
Definition served (pages : nat -> list Contributor.t)
  : nat -> Result (list Contributor.t) :=
  fun page => Resolved (pages page).

(** Where [fetchData] can be suspended, with the promise it awaits. *)
Inductive Await :=
| AwaitRepository (r : Result RepositoryDetails.t)
| AwaitCommits (repoDetails : RepositoryDetails.t)
               (owner : string) (repo : option string)
               (r : Result (list Commit.t))
| AwaitContributors (repoDetails : RepositoryDetails.t)
                    (owner : string) (repo : option string)
                    (allContributors : list Contributor.t) (page : nat)
                    (r : Result (list Contributor.t)).

(** The freshly mounted page: no cycle started, no request made. *)
Definition mounted : @World Page Await := mkWorld initial [] [].

(** The [catch] block. *)
Definition catch (err : Thrown) (p : Page) : Page :=
  match err with
  | IsApiError e =>
      if status e =? 404 then setIsNotFound true p
      else router_push "/" (toast_error (message e) p)
  | TypeError => router_push "/" (toast_error "Failed to load repository data" p)
  end.

(** [catch] then [finally]. *)
Definition failed (err : Thrown) (p : Page) : Page * list string * Next Await :=
  (setIsLoading false (catch err p), [], Return (Failed err)).

Section WithHost.
Variable API_BASE_URL : string.
Variable encodeURIComponent : string -> string.
Variable Number_toString : JsNumber -> string.
Variable backend : Backend.

Definition requestCommits (owner : string) (repo : option string)
  : Call (list Commit.t) :=
  withRepo (fun o r => getRepositoryCommits API_BASE_URL encodeURIComponent
                         Number_toString backend o r 100) owner repo.

Definition requestContributors (owner : string) (repo : option string)
           (page : nat) : Call (list Contributor.t) :=
  withRepo (fun o r => getRepositoryContributors API_BASE_URL encodeURIComponent
                         Number_toString backend o r (Z.of_nat perPage)
                         (Z.of_nat page)) owner repo.

(** The source of pages that [fetchData] reads for an owner and a
    repository: how each request to the contributors endpoint settles. *)
Definition pageSource (owner : string) (repo : option string)
  : nat -> Result (list Contributor.t) :=
  fun page => snd (requestContributors owner repo page).

(** The effect of the page, up to the first [await] of [fetchData]. *)
Definition effect (repoId : option Z) (p : Page)
  : Page * list string * Next Await :=
  match repoId with
  | Some id =>
      if id =? 0
      then (router_push "/" (toast_error "Invalid repository ID" p), [],
            Return InvalidId)
      else
        let p := setIsLoading true p in
        let '(log, r) := getRepositoryById API_BASE_URL Number_toString backend
                           (Finite (inject_Z id)) in
        (p, log, Suspend (AwaitRepository r))
  | None =>
      (router_push "/" (toast_error "Invalid repository ID" p), [],
       Return InvalidId)
  end.

(** [fetchData] from one [await] to the next. *)
Definition resume (a : Await) (p : Page) : Page * list string * Next Await :=
  match a with
  | AwaitRepository (Rejected err) => failed err p
  | AwaitRepository (Resolved repoDetails) =>
      let '(owner, repo) := ownerAndRepo (RepositoryDetails.full_name repoDetails) in
      let '(log, r) := requestCommits owner repo in
      (p, log, Suspend (AwaitCommits repoDetails owner repo r))
  | AwaitCommits _ _ _ (Rejected err) => failed err p
  | AwaitCommits repoDetails owner repo (Resolved commitsData) =>
      let p := setCommits commitsData p in
      let '(log, r) := requestContributors owner repo 1 in
      (p, log, Suspend (AwaitContributors repoDetails owner repo [] 1 r))
  | AwaitContributors _ _ _ _ _ (Rejected err) => failed err p
  | AwaitContributors repoDetails owner repo all page (Resolved contributorsPage) =>
      match afterPage all page contributorsPage with
      | Continue all' page' =>
          let '(log, r) := requestContributors owner repo page' in
          (p, log, Suspend (AwaitContributors repoDetails owner repo all' page' r))
      | Break all' =>
          (setIsLoading false (setContributors all' (setRepository repoDetails p)),
           [], Return Published)
      end
  end.

End WithHost.
End SinglePage.

(* ================================================================= *)
(** ** [app/repository/[id]/page.tsx] and the cards it mounts *)

Module RepositoryPage.
Import Api.

Record Page := mkPage
  { repository : option RepositoryDetails.t;
    isLoading : bool;
    isNotFound : bool;
    toasts : list string;
    pushes : list string }.

Definition initial : Page := mkPage None true false [] [].

Definition setRepository (r : RepositoryDetails.t) (p : Page) : Page :=
  mkPage (Some r) (isLoading p) (isNotFound p) (toasts p) (pushes p).
Definition setIsLoading (b : bool) (p : Page) : Page :=
  mkPage (repository p) b (isNotFound p) (toasts p) (pushes p).
Definition setIsNotFound (b : bool) (p : Page) : Page :=
  mkPage (repository p) (isLoading p) b (toasts p) (pushes p).
Definition toast_error (m : string) (p : Page) : Page :=
  mkPage (repository p) (isLoading p) (isNotFound p) (toasts p ++ [m]) (pushes p).
Definition router_push (target : string) (p : Page) : Page :=
  mkPage (repository p) (isLoading p) (isNotFound p) (toasts p)
         (pushes p ++ [target]).

(** [fetchRepositoryData] has one [await]. *)
Inductive Await :=
| AwaitRepository (r : Result RepositoryDetails.t).

(** The freshly mounted page: no cycle started, no request made. *)
Definition mounted : @World Page Await := mkWorld initial [] [].

Definition catch (err : Thrown) (p : Page) : Page :=
  match err with
  | IsApiError e =>
      if status e =? 404 then setIsNotFound true p
      else router_push "/" (toast_error (message e) p)
  | TypeError => router_push "/" (toast_error "Failed to load repository data" p)
  end.

Section WithHost.
Variable API_BASE_URL : string.
Variable Number_toString : JsNumber -> string.
Variable backend : Backend.

Definition effect (repoId : option Z) (p : Page)
  : Page * list string * Next Await :=
  match repoId with
  | Some id =>
      if id =? 0
      then (router_push "/" (toast_error "Invalid repository ID" p), [],
            Return InvalidId)
      else
        let p := setIsLoading true p in
        let '(log, r) := getRepositoryById API_BASE_URL Number_toString backend
                           (Finite (inject_Z id)) in
        (p, log, Suspend (AwaitRepository r))
  | None =>
      (router_push "/" (toast_error "Invalid repository ID" p), [],
       Return InvalidId)
  end.

Definition resume (a : Await) (p : Page) : Page * list string * Next Await :=
  match a with
  | AwaitRepository (Resolved repoDetails) =>
      (setIsLoading false (setRepository repoDetails p), [], Return Published)
  | AwaitRepository (Rejected err) =>
      (setIsLoading false (catch err p), [], Return (Failed err))
  end.

End WithHost.
End RepositoryPage.

(** The cards of the page: each one holds its own data, loading flag and
    error, and fetches when it is mounted with an owner and a repository. *)
Module Card.
Import Api.

Record State (T : Type) := mkState
  { data : T; isLoading : bool; error : option string }.
Arguments mkState {T} data isLoading error.
Arguments data {T} s.
Arguments isLoading {T} s.
Arguments error {T} s.

(** The common shape of [fetchContributors] and [fetchCommits], run until
    it returns: [setIsLoading(true); setError(null)], then the data on
    success, the message on failure, and [setIsLoading(false)]. *)
Definition fetch {T : Type} (call : Call T) (fallback : string)
           (s : State T) : list string * State T :=
  let '(log, r) := call in
  (log,
   match r with
   | Resolved value => mkState value false None
   | Rejected (IsApiError e) => mkState (data s) false (Some (message e))
   | Rejected TypeError => mkState (data s) false (Some fallback)
   end).

Section WithHost.
Variable API_BASE_URL : string.
Variable encodeURIComponent : string -> string.
Variable Number_toString : JsNumber -> string.
Variable backend : Backend.

(** [ContributorsList]: one request, for the first page of 100. *)
Definition fetchContributors (owner : string) (repo : option string)
  : State (list Contributor.t) -> list string * State (list Contributor.t) :=
  fetch (withRepo
           (fun o r => getRepositoryContributors API_BASE_URL encodeURIComponent
                         Number_toString backend o r 100 1) owner repo)
        "Failed to load contributors".

(** [CommitTimeline] and [UserImpact]: the window of 100 commits. *)
Definition fetchCommits (owner : string) (repo : option string)
  : State (list Commit.t) -> list string * State (list Commit.t) :=
  fetch (withRepo
           (fun o r => getRepositoryCommits API_BASE_URL encodeURIComponent
                         Number_toString backend o r 100) owner repo)
        "Failed to load commits".

(** The cards after the page has mounted them for a repository and their
    fetches have returned. *)
Record Cards := mkCards
  { contributorsList : State (list Contributor.t);
    commitTimeline : State (list Commit.t);
    userImpact : State (list Commit.t) }.

Definition mounted (full_name : string) : Cards :=
  let '(owner, repo) := ownerAndRepo full_name in
  mkCards (snd (fetchContributors owner repo (mkState [] true None)))
          (snd (fetchCommits owner repo (mkState [] true None)))
          (snd (fetchCommits owner repo (mkState [] true None))).

End WithHost.
End Card.

From Stdlib Require DecimalN.

(* ================================================================= *)
(** ** [components/repository/contributors-list.tsx]: the pages of the list *)

(** [Math.ceil(a / b)] for integers [a] and [b]. *)
Definition Math_ceil_quotient (a b : Z) : Z :=
  Qceiling (inject_Z a / inject_Z b).

(** The index that [slice] derives from an argument: a negative one counts
    from the end, and both ends are clamped to the array. *)
Definition relativeIndex (len i : Z) : Z :=
  if i <? 0 then Z.max (len + i) 0 else Z.min i len.

(** [l.slice(start, end)] *)
Definition Array_slice {A : Type} (l : list A) (start end_ : Z) : list A :=
  let len := Z.of_nat (List.length l) in
  let k := relativeIndex len start in
  let final := relativeIndex len end_ in
  firstn (Z.to_nat (final - k)) (skipn (Z.to_nat k) l).

Module ContributorsList.

Definition ITEMS_PER_PAGE : Z := 100.

Section Pagination.
Variable contributors : list Contributor.t.

Definition totalPages : Z :=
  Math_ceil_quotient (Z.of_nat (List.length contributors)) ITEMS_PER_PAGE.

Definition startIndex (currentPage : Z) : Z :=
  (currentPage - 1) * ITEMS_PER_PAGE.

Definition endIndex (currentPage : Z) : Z :=
  startIndex currentPage + ITEMS_PER_PAGE.

Definition paginatedContributors (currentPage : Z) : list Contributor.t :=
  Array_slice contributors (startIndex currentPage) (endIndex currentPage).

(** [setCurrentPage((prev) => Math.max(1, prev - 1))] *)
Definition handlePrevious (prev : Z) : Z := Z.max 1 (prev - 1).

(** [setCurrentPage((prev) => Math.min(totalPages, prev + 1))] *)
Definition handleNext (prev : Z) : Z := Z.min totalPages (prev + 1).

(** The two buttons of the pagination controls. *)
Inductive Button := Previous | Next.

(** The controls are rendered when
    [contributors.length > ITEMS_PER_PAGE]. *)
Definition controlsRendered : bool :=
  ITEMS_PER_PAGE <? Z.of_nat (List.length contributors).

(** The [disabled] attribute of a button. *)
Definition disabled (b : Button) (currentPage : Z) : bool :=
  match b with
  | Previous => currentPage =? 1
  | Next => currentPage =? totalPages
  end.

(** A click: the handler runs when the button is rendered and enabled. *)
Definition click (currentPage : Z) (b : Button) : Z :=
  if controlsRendered && negb (disabled b currentPage)
  then match b with
       | Previous => handlePrevious currentPage
       | Next => handleNext currentPage
       end
  else currentPage.

(** The page shown after a series of clicks, from [useState(1)]. *)
Definition pageAfter (clicks : list Button) : Z := fold_left click clicks 1.

End Pagination.
End ContributorsList.

(* ================================================================= *)
(** ** The single-component page: impact by contributor id *)

Module SinglePageStats.

(** [ContributorStats] as the single-component page builds it. *)
Record Stats := mkStats
  { login : string;
    name : string;
    avatar_url : string;
    html_url : string;
    commitCount : Z;
    percentage : Q }.

(** [counts.get(id) || 0] *)
Definition get_or_0 (counts : list (Z * Z)) (id : Z) : Z :=
  match Map_get Z.eqb counts id with
  | Some n => if n =? 0 then 0 else n
  | None => 0
  end.

(** One iteration of [commits.forEach]: the commit is counted under
    [author.id] when [if (author?.id)] passes. *)
Definition countAuthor (counts : list (Z * Z)) (commit : Commit.t)
  : list (Z * Z) :=
  match Commit.author commit with
  | Some author =>
      if negb (User.id author =? 0)
      then Map_set Z.eqb counts (User.id author)
             (get_or_0 counts (User.id author) + 1)
      else counts
  | None => counts
  end.

Definition commitCountsFromLast100 (commits : list Commit.t)
  : list (Z * Z) :=
  fold_left countAuthor commits [].

(** [commits.length || 1] *)
Definition totalCommits (commits : list Commit.t) : Z :=
  if (List.length commits =? 0)%nat then 1
  else Z.of_nat (List.length commits).

(** The callback of [.map(...)]. *)
Definition toStats (commits : list Commit.t) (contributor : Contributor.t)
  : Stats :=
  let commitCount :=
    get_or_0 (commitCountsFromLast100 commits) (Contributor.id contributor) in
  mkStats (Contributor.login contributor) (Contributor.login contributor)
    (Contributor.avatar_url contributor) (Contributor.html_url contributor)
    commitCount
    (if 0 <? totalCommits commits
     then Qred ((inject_Z commitCount / inject_Z (totalCommits commits))
                * inject_Z 100)
     else 0%Q).

(** The comparator [(a, b) => b.percentage - a.percentage], by its sign. *)
Definition byPercentage (a b : Stats) : Z :=
  match (percentage b ?= percentage a)%Q with
  | Lt => -1
  | Eq => 0
  | Gt => 1
  end.

Definition contributorStats (contributors : list Contributor.t)
           (commits : list Commit.t) : list Stats :=
  if (List.length contributors =? 0)%nat then []
  else
    Array_sort byPercentage
      (filter (fun contributor => 0 <? commitCount contributor)
         (map (toStats commits) contributors)).

(** Number of commits of the window whose account has the id [id]. *)
Definition authoredBy (id : Z) (commits : list Commit.t) : Z :=
  Z.of_nat
    (List.length
       (filter (fun c => match Commit.author c with
                         | Some author => User.id author =? id
                         | None => false
                         end) commits)).

(** Does the commit carry the account of one of the contributors? *)
Definition byContributor (contributors : list Contributor.t)
           (c : Commit.t) : bool :=
  match Commit.author c with
  | Some author =>
      negb (User.id author =? 0)
      && existsb (fun contributor => Contributor.id contributor =? User.id author)
                 contributors
  | None => false
  end.

End SinglePageStats.

(* ================================================================= *)
(** ** The route parameter: from the link of a search result to [repoId] *)

(** [Number.isSafeInteger(n)]: the integers that a number holds exactly,
    from -(2^53 - 1) to 2^53 - 1. *)
Definition safeInteger (n : Z) : Prop :=
  - 9007199254740991 <= n <= 9007199254740991.

(** The text of a safe integer inside a template literal: its decimal
    digits.  (Beyond the safe integers a number is no longer every integer,
    and from 1e21 on its text is in exponent notation.) *)
Definition showInteger (n : Z) : string :=
  if n <? 0 then String.append "-" (decimal (- n)) else decimal n.

(** [`/repository/${repo.id}`], the [href] of a search result. *)
Definition repositoryHref (repo : Repository.t) : string :=
  String.append "/repository/" (showInteger (Repository.id repo)).

(** The longest prefix of decimal digits. *)
Fixpoint digitsPrefix (s : string) : string :=
  match s with
  | EmptyString => EmptyString
  | String c s' =>
      match JsDate.digitVal c with
      | Some _ => String c (digitsPrefix s')
      | None => EmptyString
      end
  end.

(** [parseInt(s, 10)]: leading white space is skipped, then an optional
    sign, then the longest run of digits stands for the number, whatever
    follows; [None] is NaN.  The result is the integer that the digits
    stand for, which is the number [parseInt] returns when that integer is
    a safe one; beyond, [parseInt] rounds. *)
Definition parseInt (s : string) : option Z :=
  let '(sign, rest) :=
    match trimStart s with
    | String "-"%char rest => (-1, rest)
    | String "+"%char rest => (1, rest)
    | rest => (1, rest)
    end in
  match digitsPrefix rest with
  | EmptyString => None
  | digits => option_map (Z.mul sign) (JsDate.numeral 0 digits)
  end.

(** [const id = parseInt(repositoryId, 10); return isNaN(id) ? null : id] *)
Definition repoId (repositoryId : string) : option Z := parseInt repositoryId.

(* ================================================================= *)
(** ** The search page *)

(** The list without its [k]-th element. *)
Fixpoint remove_nth {A : Type} (k : nat) (l : list A) : list A :=
  match l, k with
  | [], _ => []
  | _ :: l', O => l'
  | x :: l', S k' => x :: remove_nth k' l'
  end.

(** A call to [sonner]'s [toast]. *)
Inductive Toast :=
| ToastError (m : string)
| ToastSuccess (m : string)
| ToastInfo (m : string).

(** The search page that calls [api.searchRepositories(searchQuery)]. *)
Module HomeSearch.
Import Api.

Record Page := mkPage
  { searchQuery : string;
    repositories : list Repository.t;
    isLoading : bool;
    (** calls to [toast], oldest first *)
    toasts : list Toast }.

Definition initial : Page := mkPage "" [] false [].

Definition setSearchQuery (s : string) (p : Page) : Page :=
  mkPage s (repositories p) (isLoading p) (toasts p).
Definition setRepositories (r : list Repository.t) (p : Page) : Page :=
  mkPage (searchQuery p) r (isLoading p) (toasts p).
Definition setIsLoading (b : bool) (p : Page) : Page :=
  mkPage (searchQuery p) (repositories p) b (toasts p).
Definition toast (t : Toast) (p : Page) : Page :=
  mkPage (searchQuery p) (repositories p) (isLoading p) (toasts p ++ [t]).

(** Where [handleSearch] is suspended. *)
Inductive Await :=
| AwaitSearch (r : Result RepositorySearchResponse.t).

Section WithHost.
Variable API_BASE_URL : string.
Variable encodeURIComponent : string -> string.
Variable Number_toString : JsNumber -> string.
Variable backend : Backend.

(** [handleSearch] up to its [await]; [None] when it returns before. *)
Definition handleSearch (p : Page) : Page * list string * option Await :=
  if falsy_string (trim (searchQuery p))
  then (toast (ToastError "Please enter a search query") p, [], None)
  else
    let p := setIsLoading true p in
    let '(log, r) := searchRepositories API_BASE_URL encodeURIComponent
                       Number_toString backend (searchQuery p) in
    (p, log, Some (AwaitSearch r)).

(** The text of [toast.success]. *)
Definition found (items : list Repository.t) : string :=
  String.concat ""
    ["Found "; showZ Number_toString (Z.of_nat (List.length items));
     " repositor"; if (List.length items =? 1)%nat then "y" else "ies"].

(** [handleSearch] from its [await] on. *)
Definition resume (a : Await) (p : Page) : Page :=
  match a with
  | AwaitSearch (Resolved response) =>
      let items := RepositorySearchResponse.items response in
      let p := setRepositories items p in
      let p := if (0 <? List.length items)%nat
               then toast (ToastSuccess (found items)) p
               else toast (ToastInfo "No repositories found") p in
      setIsLoading false p
  | AwaitSearch (Rejected err) =>
      let p := match err with
               | IsApiError e => toast (ToastError (message e)) p
               | TypeError => toast (ToastError "An unexpected error occurred") p
               end in
      setIsLoading false (setRepositories [] p)
  end.

(** [handleSearch] run until it returns, with the requests it made. *)
Definition search (p : Page) : Page * list string :=
  match handleSearch p with
  | (p', log, Some a) => (resume a p', log)
  | (p', log, None) => (p', log)
  end.

End WithHost.
End HomeSearch.

(** [app/page.tsx]: the search page with numbered result pages.  The
    three-argument [api.searchRepositories(query, perPage, page)] it calls
    is a parameter of the model. *)
Module Home.
Import Api.

Record Page := mkPage
  { searchQuery : string;
    repositories : list Repository.t;
    isLoading : bool;
    currentPage : Z;
    totalCount : Z;
    toasts : list Toast }.

Definition initial : Page := mkPage "" [] false 1 0 [].

Definition perPage : Z := 10.

Definition setSearchQuery (s : string) (p : Page) : Page :=
  mkPage s (repositories p) (isLoading p) (currentPage p) (totalCount p)
         (toasts p).
Definition setRepositories (r : list Repository.t) (p : Page) : Page :=
  mkPage (searchQuery p) r (isLoading p) (currentPage p) (totalCount p)
         (toasts p).
Definition setIsLoading (b : bool) (p : Page) : Page :=
  mkPage (searchQuery p) (repositories p) b (currentPage p) (totalCount p)
         (toasts p).
Definition setCurrentPage (n : Z) (p : Page) : Page :=
  mkPage (searchQuery p) (repositories p) (isLoading p) n (totalCount p)
         (toasts p).
Definition setTotalCount (n : Z) (p : Page) : Page :=
  mkPage (searchQuery p) (repositories p) (isLoading p) (currentPage p) n
         (toasts p).
Definition toast (t : Toast) (p : Page) : Page :=
  mkPage (searchQuery p) (repositories p) (isLoading p) (currentPage p)
         (totalCount p) (toasts p ++ [t]).

(** A suspended [handleSearch(page)] with the promise it awaits. *)
Inductive Await :=
| AwaitSearch (page : Z) (r : Result RepositorySearchResponse.t).

(** [Math.ceil(totalCount / perPage)] *)
Definition lastPage (p : Page) : Z :=
  Math_ceil_quotient (totalCount p) perPage.

(** The two numbers of [Showing a-b of n]. *)
Definition showingFrom (p : Page) : Z := (currentPage p - 1) * perPage + 1.
Definition showingTo (p : Page) : Z :=
  Z.min (currentPage p * perPage) (totalCount p).

(** The results block is rendered when
    [!isLoading && repositories.length > 0], the pagination controls inside
    it when [totalCount > perPage]. *)
Definition resultsRendered (p : Page) : bool :=
  negb (isLoading p) && (0 <? List.length (repositories p))%nat.
Definition controlsRendered (p : Page) : bool :=
  resultsRendered p && (perPage <? totalCount p).

(** What the user can do. *)
Inductive Event :=
| Input (text : string)
| PressEnter
| ClickSearch
| ClickClear
| ClickPrevious
| ClickNext
| Settle (k : nat).

Record World := mkWorld
  { page : Page;
    (** the calls of [handleSearch] that have not returned *)
    pending : list Await;
    (** the result pages requested, oldest first *)
    asked : list Z }.

Definition mounted : World := mkWorld initial [] [].

(** What every state of the page satisfies: the page is loading exactly
    while one call of [handleSearch] has not returned, and there is never
    a second one; the current page and the pages asked for are at least 1. *)
Definition invariant (w : World) : Prop :=
  ((isLoading (page w) = true /\ exists a, pending w = [a])
   \/ (isLoading (page w) = false /\ pending w = []))
  /\ 1 <= currentPage (page w)
  /\ Forall (fun n => 1 <= n) (asked w).

Section WithHost.
(** [api.searchRepositories(query, perPage, page)] *)
Variable searchRepositories :
  string -> Z -> Z -> Call RepositorySearchResponse.t.
(** [n.toLocaleString()] *)
Variable toLocaleString : Z -> string.

(** [handleSearch(page)] up to its [await]: the blank check, then
    [setIsLoading(true); setCurrentPage(page)] and the request. *)
Definition handleSearch (n : Z) (w : World) : World :=
  let p := page w in
  if falsy_string (trim (searchQuery p))
  then mkWorld (toast (ToastError "Please enter a search query") p)
               (pending w) (asked w)
  else
    let p := setCurrentPage n (setIsLoading true p) in
    let '(_, r) := searchRepositories (searchQuery p) perPage n in
    mkWorld p (pending w ++ [AwaitSearch n r]) (asked w ++ [n]).

(** The text of [toast.success]. *)
Definition found (total_count : Z) : string :=
  String.concat ""
    ["Found "; toLocaleString total_count;
     " repositor"; if total_count =? 1 then "y" else "ies"].

(** [handleSearch(page)] from its [await] on. *)
Definition resume (a : Await) (p : Page) : Page :=
  match a with
  | AwaitSearch n (Resolved response) =>
      let items := RepositorySearchResponse.items response in
      let total_count := RepositorySearchResponse.total_count response in
      let p := setTotalCount total_count (setRepositories items p) in
      let p := if (0 <? List.length items)%nat
               then (if n =? 1 then toast (ToastSuccess (found total_count)) p
                     else p)
               else toast (ToastInfo "No repositories found") p in
      setIsLoading false p
  | AwaitSearch _ (Rejected err) =>
      let p := match err with
               | IsApiError e => toast (ToastError (message e)) p
               | TypeError => toast (ToastError "An unexpected error occurred") p
               end in
      setIsLoading false (setTotalCount 0 (setRepositories [] p))
  end.

(** One event.  The input and the [Search] button are disabled while
    [isLoading]; the clear button is rendered for a non-empty query when
    not loading; [Previous] and [Next] are rendered with the controls and
    carry their own [disabled] conditions. *)
Definition step (w : World) (e : Event) : World :=
  let p := page w in
  match e with
  | Input text =>
      if isLoading p then w
      else mkWorld (setSearchQuery text p) (pending w) (asked w)
  | PressEnter => if isLoading p then w else handleSearch 1 w
  | ClickSearch => if isLoading p then w else handleSearch 1 w
  | ClickClear =>
      if isLoading p || falsy_string (searchQuery p) then w
      else mkWorld (setTotalCount 0
                      (setCurrentPage 1
                         (setRepositories [] (setSearchQuery "" p))))
                   (pending w) (asked w)
  | ClickPrevious =>
      if controlsRendered p && negb ((currentPage p =? 1) || isLoading p)
      then handleSearch (currentPage p - 1) w
      else w
  | ClickNext =>
      if controlsRendered p
         && negb ((lastPage p <=? currentPage p) || isLoading p)
      then handleSearch (currentPage p + 1) w
      else w
  | Settle k =>
      match nth_error (pending w) k with
      | Some a => mkWorld (resume a p) (remove_nth k (pending w)) (asked w)
      | None => w
      end
  end.

Definition run (w : World) (events : list Event) : World :=
  fold_left step events w.

End WithHost.
End Home.

(* ================================================================= *)
(** ** A fetch cycle on its own *)

(** The effect for [repoId] followed by the cycle it starts, run until it
    returns with no other cycle in between; [None] when out of fuel. *)
Definition fetchCycle {Page Await : Type}
           (effect : option Z -> Page -> Page * list string * Next Await)
           (resume : Await -> Page -> Page * list string * Next Await)
           (fuel : nat) (repoId : option Z) (p : Page)
  : option (Page * list string * Outcome) :=
  let '(p1, log1, next) := effect repoId p in
  match next with
  | Return o => Some (p1, log1, o)
  | Suspend a =>
      match runCycle resume fuel a p1 with
      | Some (p2, log2, o) => Some (p2, log1 ++ log2, o)
      | None => None
      end
  end.

(** The message of the [ApiError] that [fetchApi] throws for a response
    that is not ok: [data.error || `API request failed with status ${n}`]. *)
Definition notOkMessage (Number_toString : JsNumber -> string)
           (status : Z) (error : option string) : string :=
  match error with
  | Some e =>
      if falsy_string e
      then String.append "API request failed with status "
                         (Api.showZ Number_toString status)
      else e
  | None => String.append "API request failed with status "
                          (Api.showZ Number_toString status)
  end.

(** The message for a request that did not get a response:
    [error instanceof Error ? error.message : 'Network error occurred']. *)
Definition failureMessage (message : option string) : string :=
  match message with
  | Some m => m
  | None => "Network error occurred"
  end.

(** What a page of contributors brings: its records, or nothing when the
    request is rejected. *)
Definition received (getPage : nat -> Api.Result (list Contributor.t))
           (page : nat) : list Contributor.t :=
  match getPage page with
  | Api.Resolved contributorsPage => contributorsPage
  | Api.Rejected _ => []
  end.

(** How the single-component page reports the end of a cycle that started
    in state [p] and ended in state [p']. *)
Definition cycleReport (p p' : SinglePage.Page) (o : Outcome) : Prop :=
  match o with
  | InvalidId =>
      p' = SinglePage.router_push "/"
             (SinglePage.toast_error "Invalid repository ID" p)
  | Published =>
      SinglePage.isLoading p' = false
      /\ SinglePage.repository p' <> None
      /\ SinglePage.isNotFound p' = SinglePage.isNotFound p
      /\ SinglePage.toasts p' = SinglePage.toasts p
      /\ SinglePage.pushes p' = SinglePage.pushes p
  | Failed err =>
      SinglePage.isLoading p' = false
      /\ SinglePage.repository p' = SinglePage.repository p
      /\ SinglePage.contributors p' = SinglePage.contributors p
      /\ match err with
         | Api.IsApiError e =>
             if Api.status e =? 404
             then SinglePage.isNotFound p' = true
                  /\ SinglePage.toasts p' = SinglePage.toasts p
                  /\ SinglePage.pushes p' = SinglePage.pushes p
             else SinglePage.isNotFound p' = SinglePage.isNotFound p
                  /\ SinglePage.toasts p'
                     = SinglePage.toasts p ++ [Api.message e]
                  /\ SinglePage.pushes p' = SinglePage.pushes p ++ ["/"]
         | Api.TypeError =>
             SinglePage.isNotFound p' = SinglePage.isNotFound p
             /\ SinglePage.toasts p'
                = SinglePage.toasts p ++ ["Failed to load repository data"]
             /\ SinglePage.pushes p' = SinglePage.pushes p ++ ["/"]
         end
  end.

(* ================================================================= *)
(** ** Names with and without a slash *)

(** [s.includes(c)] for a character [c]. *)
Fixpoint includes (c : ascii) (s : string) : bool :=
  match s with
  | EmptyString => false
  | String c' s' => Ascii.eqb c' c || includes c s'
  end.

(** [parts.join(sep)] *)
Fixpoint join (sep : string) (parts : list string) : string :=
  match parts with
  | [] => EmptyString
  | [part] => part
  | part :: rest => String.append part (String.append sep (join sep rest))
  end.

(* ================================================================= *)
(** ** Date keys in order *)

(** The year, counted from March, that contains day [z], and the day of
    that year: the intermediate results of [civil_from_days]. *)
Definition marchYear (z : Z) : Z :=
  let z := z + 719468 in
  let era := z / 146097 in
  JsDate.yoe_of_doe (z - era * 146097) + era * 400.

Definition dayOfMarchYear (z : Z) : Z :=
  let z := z + 719468 in
  let era := z / 146097 in
  let doe := z - era * 146097 in
  doe - JsDate.yearStart (JsDate.yoe_of_doe doe).

(** A civil date read as one number, [yyyymmdd]. *)
Definition dateNumber (date : Z * Z * Z) : Z :=
  let '(y, m, d) := date in y * 10000 + m * 100 + d.

(** Month and day of day [doy] of a year that starts in March, as the
    number [mmdd], plus 10000 for the January and February that close it. *)
Definition monthDayNumber (doy : Z) : Z :=
  let '(m, d) := JsDate.month_day_of_doy doy in
  JsDate.newYear m * 10000 + m * 100 + d.

(** What is checked, by evaluation, of each day of a year but the last: the
    next day has a larger number, and the numbers range from 1 March to
    29 February. *)
Definition order_check (doy : Z) : bool :=
  (monthDayNumber doy <? monthDayNumber (doy + 1))
  && (301 <=? monthDayNumber doy) && (monthDayNumber (doy + 1) <=? 10229).

(** The date key of a civil date with a four-digit year. *)
Definition dateKeyOf (date : Z * Z * Z) : string :=
  let '(y, m, d) := date in
  String.concat "-" [JsDate.pad4 y; JsDate.pad2 m; JsDate.pad2 d].

(** The time values of the years 0 to 9999, which [toISOString] prints
    with four digits. *)
Definition fourDigitYear (t : Z) : Prop :=
  -62167219200000 <= t <= 253402300799999.

(* ================================================================= *)
(** ** [language-distribution.tsx]: the size of a language *)

(** [x.toFixed(2)], given as the number of hundredths it prints: the
    integer [n] with [n / 100] nearest to [x], the one of larger magnitude
    on a tie. *)
Definition toFixed2 (x : Q) : Z :=
  if Qle_bool 0 x then Qfloor (x * inject_Z 100 + (1 # 2))
  else - Qfloor (- x * inject_Z 100 + (1 # 2)).

(** The digits [toFixed(2)] prints for a number of hundredths [n >= 0]. *)
Definition fixed2 (n : Z) : string :=
  String.append (decimal (n / 100)) (String.append "." (JsDate.pad2 n)).

Module LanguageSize.

Inductive Unit := KB | MB.

(** [const mb = (bytes / (1024 * 1024)).toFixed(2)] *)
Definition mb (bytes : Z) : Z :=
  toFixed2 (inject_Z bytes / inject_Z (1024 * 1024)).

(** [const kb = (bytes / 1024).toFixed(2)] *)
Definition kb (bytes : Z) : Z := toFixed2 (inject_Z bytes / inject_Z 1024).

(** [bytes >= 1024 * 1024 ? `${mb} MB` : `${kb} KB`], as the number of
    hundredths shown and the unit. *)
Definition size (bytes : Z) : Z * Unit :=
  if 1024 * 1024 <=? bytes then (mb bytes, MB) else (kb bytes, KB).

(** The text of the size: [toFixed(2)] prints a negative number as a minus
    sign before the digits of its magnitude, also when these are 0.00. *)
Definition sizeText (bytes : Z) : string :=
  let '(n, unit) := size bytes in
  String.append (if bytes <? 0 then "-" else "")
    (String.append (fixed2 (Z.abs n))
                   (match unit with KB => " KB" | MB => " MB" end)).

End LanguageSize.

(* ================================================================= *)
(** ** Which response sets what *)

Section Quiet.
Context {Page Await : Type}.
Variable effect : option Z -> Page -> Page * list string * Next Await.
Variable resume : Await -> Page -> Page * list string * Next Await.
(** The events that are singled out, given the world they happen in. *)
Variable sets : @World Page Await -> Event -> bool.

(** None of [events], run from [w], is singled out. *)
Fixpoint quiet (w : World) (events : list Event) : bool :=
  match events with
  | [] => true
  | e :: events' => negb (sets w e) && quiet (step effect resume w e) events'
  end.

End Quiet.

Module Arrival.
Import Api.

(** On the single-component page: the event is the arrival of the
    contributor page on which the loop of a cycle ends, after which
    [fetchData] calls [setRepository] and [setContributors]. *)
Definition endsLoop (w : @World SinglePage.Page SinglePage.Await)
           (e : Event) : bool :=
  match e with
  | Settle k =>
      match nth_error (cycles w) k with
      | Some (Some (SinglePage.AwaitContributors _ _ _ all page
                      (Resolved contributorsPage))) =>
          match SinglePage.afterPage all page contributorsPage with
          | SinglePage.Break _ => true
          | SinglePage.Continue _ _ => false
          end
      | _ => false
      end
  | Navigate _ => false
  end.

(** On the single-component page: the event is the arrival of a commit
    window, after which [fetchData] calls [setCommits]. *)
Definition bringsCommits (w : @World SinglePage.Page SinglePage.Await)
           (e : Event) : bool :=
  match e with
  | Settle k =>
      match nth_error (cycles w) k with
      | Some (Some (SinglePage.AwaitCommits _ _ _ (Resolved _))) => true
      | _ => false
      end
  | Navigate _ => false
  end.

(** On [page.tsx]: the event is the arrival of a repository, after which
    [fetchRepositoryData] calls [setRepository]. *)
Definition bringsRepository
           (w : @World RepositoryPage.Page RepositoryPage.Await)
           (e : Event) : bool :=
  match e with
  | Settle k =>
      match nth_error (cycles w) k with
      | Some (Some (RepositoryPage.AwaitRepository (Resolved _))) => true
      | _ => false
      end
  | Navigate _ => false
  end.

End Arrival.

(* ================================================================= *)
(** ** The identity of a commit, in the words of the specification *)

(** A commit has a resolvable identity when it has a registered author id
    or login, or a non-empty commit-author email. *)
Definition resolvableAsSpecified (c : Commit.t) : bool :=
  match Commit.author c with
  | Some a => negb (User.id a =? 0) || negb (String.eqb (User.login a) "")
  | None => false
  end
  || negb (String.eqb (GitActor.email (CommitDetail.author (Commit.commit c)))
                      "").

(* ================================================================= *)
(** ** Sample data *)

Module Sample.

(** A commit with the given account, author name and email, and author and
    committer dates. *)
Definition commit (account : option User.t) (name email : string)
           (authored committed : string) : Commit.t :=
  Commit.mk "0000000"
    (CommitDetail.mk "message" (GitActor.mk name email authored)
       (GitActor.mk name email committed))
    account account "https://github.com/o/r/commit/0000000".

Definition alice : User.t :=
  User.mk "alice" 42 "https://avatars/alice" "https://github.com/alice".

Definition byAlice : Commit.t :=
  commit (Some alice) "Alice" "alice@x.com"
         "2024-01-01T10:00:00Z" "2024-01-02T23:59:59Z".

Definition byBob : Commit.t :=
  commit None "Bob" "bob@x.com"
         "2024-01-01T11:00:00Z" "2024-01-03T00:00:01Z".

(** A commit with neither an account nor an email. *)
Definition byNobody : Commit.t :=
  commit None "" "" "2024-01-01T12:00:00Z" "2024-01-03T08:00:00Z".

(** A commit whose account object has neither an id nor a login, with the
    name and the email of its author in the commit itself. *)
Definition byGhost : Commit.t :=
  commit (Some (User.mk "" 0 "" "")) "Carol" "carol@x.com"
         "2024-01-01T13:00:00Z" "2024-01-03T09:00:00Z".

(** The contributor record of the account with the given id. *)
Definition contributor (id : Z) : Contributor.t :=
  Contributor.mk (String.append "user" (decimal id)) id
    "https://avatars/user" "https://github.com/user" 1.

(** A page of [n] contributors with consecutive ids from [from] on. *)
Definition contributorPage (from : Z) (n : nat) : list Contributor.t :=
  map contributor (Zrange from n).

(** Three pages of 100, 100 and 37 contributors. *)
Definition threePages (page : nat) : list Contributor.t :=
  match page with
  | 1%nat => contributorPage 1 100
  | 2%nat => contributorPage 101 100
  | 3%nat => contributorPage 201 37
  | _ => []
  end.

(** A full first page, and a second page that repeats its first record. *)
Definition repeatingPages (page : nat) : list Contributor.t :=
  match page with
  | 1%nat => contributorPage 1 100
  | 2%nat => [contributor 1]
  | _ => []
  end.

(** A host for the examples. *)
Definition base : string := "http://localhost:5000".

Definition showNumber (x : JsNumber) : string :=
  match x with
  | Finite q => decimal (Qfloor q)
  | NaN => "NaN"
  | Infinity _ => "Infinity"
  end.

Definition noEncoding (s : string) : string := s.

Definition repositoryDetails (id : Z) (name : string) : RepositoryDetails.t :=
  RepositoryDetails.mk id name (String.append "o/" name) None
    "https://github.com/o" 0 0 0 None "2024-01-01T00:00:00Z"
    "2024-01-01T00:00:00Z" "2024-01-01T00:00:00Z" "main" 0.

Definition two : RepositoryDetails.t := repositoryDetails 2 "two".
Definition five : RepositoryDetails.t := repositoryDetails 5 "five".

(** A backend that knows the repositories 2 and 5, with one contributor and
    one commit each. *)
Definition backend : Api.Backend :=
  Api.mkBackend
    (fun _ => Api.HttpOk (RepositorySearchResponse.mk 0 []))
    (fun url =>
       if String.eqb url "http://localhost:5000/github/get_repository_by_id?id=2"
       then Api.HttpOk two
       else if String.eqb url
                 "http://localhost:5000/github/get_repository_by_id?id=5"
       then Api.HttpOk five
       else Api.HttpNotOk 404 (Some "Repository not found"))
    (fun url =>
       if String.eqb url
            "http://localhost:5000/github/get_repository_contributors?owner=o&repo=two&per_page=100&page=1"
       then Api.HttpOk [contributor 2]
       else if String.eqb url
                 "http://localhost:5000/github/get_repository_contributors?owner=o&repo=five&per_page=100&page=1"
       then Api.HttpOk [contributor 5]
       else Api.HttpOk [])
    (fun _ => Api.HttpOk [])
    (fun url =>
       if String.eqb url
            "http://localhost:5000/github/get_repository_commits?owner=o&repo=two&per_page=100"
       then Api.HttpOk [byAlice]
       else if String.eqb url
                 "http://localhost:5000/github/get_repository_commits?owner=o&repo=five&per_page=100"
       then Api.HttpOk [byBob]
       else Api.HttpOk []).

(** The same backend with the commits endpoint failing. *)
Definition commitsDown : Api.Backend :=
  Api.mkBackend (Api.search backend) (Api.repository backend)
    (Api.contributors backend) (Api.issues backend)
    (fun _ => Api.HttpNotOk 500 (Some "Failed to fetch commits")).

(** The same backend with the contributors endpoint failing. *)
Definition contributorsDown : Api.Backend :=
  Api.mkBackend (Api.search backend) (Api.repository backend)
    (fun _ => Api.HttpNotOk 500 (Some "Failed to fetch contributors"))
    (Api.issues backend) (Api.commits backend).

(** Repository 2 is opened, then repository 5; the three responses of the
    cycle for 5 arrive first, those of the cycle for 2 last. *)
Definition staleLast : list Event :=
  [Navigate (Some 2); Navigate (Some 5);
   Settle 1; Settle 1; Settle 1; Settle 0; Settle 0; Settle 0].

(** Repository 2 is opened, then repository 5; the three responses of the
    cycle for 2 arrive first, those of the cycle for 5 last. *)
Definition freshLast : list Event :=
  [Navigate (Some 2); Navigate (Some 5);
   Settle 0; Settle 0; Settle 0; Settle 1; Settle 1; Settle 1].

(** Repository 2 is opened, then repository 5; the commit window of 2
    arrives after that of 5, and the last contributor page of 5 after that
    of 2. *)
Definition crossed : list Event :=
  [Navigate (Some 2); Navigate (Some 5);
   Settle 0; Settle 1; Settle 1; Settle 0; Settle 0; Settle 1].

(** The same for [page.tsx], whose cycles await one response each. *)
Definition staleLastOne : list Event :=
  [Navigate (Some 2); Navigate (Some 5); Settle 1; Settle 0].

(** What the single-component page shows on the sample backend once the
    events have happened: the repository, the contributors and the
    commits. *)
Definition shown (events : list Event)
  : option RepositoryDetails.t * list Contributor.t * list Commit.t :=
  let final :=
    page (run (SinglePage.effect base showNumber backend)
              (SinglePage.resume base noEncoding showNumber backend)
              SinglePage.mounted events) in
  (SinglePage.repository final, SinglePage.contributors final,
   SinglePage.commits final).

End Sample.
(* ================================================================= *)
(** * Properties *)

(** ** Lists: [before] *)

Section BeforeFacts.
Context {A : Type}.
Implicit Types (x y : A) (l : list A).

Lemma before_In x y l : before x y l -> In x l /\ In y l.
Proof.
  induction 1 as [l Hy | z l _ [IHx IHy]]; simpl; auto.
Qed.

Lemma before_cons_inv x y z l :
  before x y (z :: l) -> (x = z /\ In y l) \/ before x y l.
Proof. inversion 1; subst; auto. Qed.

Lemma before_app x y l1 l2 :
  before x y (l1 ++ l2) <->
  before x y l1 \/ before x y l2 \/ (In x l1 /\ In y l2).
Proof.
  induction l1 as [| z l1 IH]; simpl.
  - split; [auto | intros [H | [H | [[] _]]]; [inversion H | exact H]].
  - split.
    + intros H. apply before_cons_inv in H as [[-> Hy] | H].
      * apply in_app_or in Hy as [Hy | Hy].
        -- left. now constructor.
        -- right. right. auto.
      * apply IH in H as [H | [H | [Hx Hy]]].
        -- left. now apply before_later.
        -- auto.
        -- right. right. auto.
    + intros [H | [H | [[-> | Hx] Hy]]].
      * apply before_cons_inv in H as [[-> Hy] | H].
        -- apply before_here, in_or_app. auto.
        -- apply before_later, IH. auto.
      * apply before_later, IH. auto.
      * apply before_here, in_or_app. auto.
      * apply before_later, IH. auto.
Qed.

Lemma before_map {B : Type} (f : A -> B) x y l :
  before x y l -> before (f x) (f y) (map f l).
Proof.
  induction 1 as [l Hy | z l _ IH]; simpl.
  - apply before_here. now apply in_map.
  - now apply before_later.
Qed.

(** The positional reading of [before]. *)
Lemma before_nth_error x y l :
  before x y l <->
  exists i j, (i < j)%nat /\ nth_error l i = Some x /\ nth_error l j = Some y.
Proof.
  split.
  - induction 1 as [l Hy | z l _ (i & j & Hij & Hi & Hj)].
    + apply In_nth_error in Hy as [j Hj].
      exists O, (S j). repeat split; auto. lia.
    + exists (S i), (S j). repeat split; auto. lia.
  - revert l. intros l (i & j & Hij & Hi & Hj). revert l j Hij Hi Hj.
    induction i as [| i IH]; intros [| z l] j Hij Hi Hj;
      try discriminate; destruct j as [| j]; try lia; simpl in *.
    + injection Hi as ->. apply before_here. eapply nth_error_In; eauto.
    + apply before_later. apply (IH l j); auto. lia.
Qed.
End BeforeFacts.

(** ** [Map] as an association list *)

Lemma Key_eqb_eq a b : Key_eqb a b = true <-> a = b.
Proof.
  destruct a as [x | x], b as [y | y]; simpl;
    try (split; intros; discriminate).
  - rewrite Z.eqb_eq. split; congruence.
  - rewrite String.eqb_eq. split; congruence.
Qed.

Lemma Key_eqb_refl a : Key_eqb a a = true.
Proof. now apply Key_eqb_eq. Qed.

Section JsMapFacts.
Context {K V : Type} (eqb : K -> K -> bool).
Hypothesis eqb_eq : forall a b, eqb a b = true <-> a = b.

Lemma Map_get_Some_In (m : list (K * V)) k v :
  Map_get eqb m k = Some v -> In (k, v) m.
Proof.
  induction m as [| [k' v'] m IH]; simpl; [discriminate |].
  destruct (eqb k k') eqn:E.
  - apply eqb_eq in E as ->. intros [= ->]. auto.
  - auto.
Qed.

Lemma Map_get_None_iff (m : list (K * V)) k :
  Map_get eqb m k = None <-> ~ In k (map fst m).
Proof.
  induction m as [| [k' v'] m IH]; simpl.
  - tauto.
  - destruct (eqb k k') eqn:E.
    + apply eqb_eq in E as ->. split; [discriminate | tauto].
    + rewrite IH. split; [| tauto].
      intros H [-> | H']; [| tauto].
      assert (eqb k k = true) by now apply eqb_eq. congruence.
Qed.

Lemma Map_get_In (m : list (K * V)) k v :
  NoDup (map fst m) -> In (k, v) m -> Map_get eqb m k = Some v.
Proof.
  induction m as [| [k' v'] m IH]; simpl; [tauto |].
  intros Hnd [[= -> ->] | Hin].
  - assert (eqb k k = true) as -> by now apply eqb_eq. reflexivity.
  - inversion Hnd as [| ? ? Hnotin Hnd']; subst.
    destruct (eqb k k') eqn:E.
    + apply eqb_eq in E as ->. exfalso. apply Hnotin.
      now apply (in_map fst) in Hin.
    + auto.
Qed.

Lemma Map_get_set (m : list (K * V)) k v k' :
  Map_get eqb (Map_set eqb m k v) k' =
  if eqb k' k then Some v else Map_get eqb m k'.
Proof.
  induction m as [| [k0 v0] m IH]; simpl.
  - reflexivity.
  - destruct (eqb k k0) eqn:E; simpl.
    + apply eqb_eq in E as <-. now destruct (eqb k' k).
    + rewrite IH. destruct (eqb k' k0) eqn:E0; [| reflexivity].
      apply eqb_eq in E0 as ->.
      destruct (eqb k0 k) eqn:E1; [| reflexivity].
      apply eqb_eq in E1 as ->.
      assert (eqb k k = true) by now apply eqb_eq. congruence.
Qed.

(** Overwriting a present key leaves the key order unchanged. *)
Lemma Map_set_present_keys (m : list (K * V)) k v e :
  Map_get eqb m k = Some e ->
  map fst (Map_set eqb m k v) = map fst m.
Proof.
  induction m as [| [k0 v0] m IH]; simpl; [discriminate |].
  destruct (eqb k k0) eqn:E; simpl.
  - apply eqb_eq in E as ->. reflexivity.
  - intros H. now rewrite IH.
Qed.

(** Setting an absent key appends the entry. *)
Lemma Map_set_absent (m : list (K * V)) k v :
  Map_get eqb m k = None -> Map_set eqb m k v = m ++ [(k, v)].
Proof.
  induction m as [| [k0 v0] m IH]; simpl; [reflexivity |].
  destruct (eqb k k0); [discriminate |].
  intros H. now rewrite IH.
Qed.

(** The effect of an overwrite on a sum taken over the values. *)
Lemma Map_set_present_sum (f : V -> Z) (m : list (K * V)) k v e :
  Map_get eqb m k = Some e ->
  sumZ (map (fun kv => f (snd kv)) (Map_set eqb m k v)) =
  sumZ (map (fun kv => f (snd kv)) m) - f e + f v.
Proof.
  induction m as [| [k0 v0] m IH]; simpl; [discriminate |].
  destruct (eqb k k0); simpl.
  - intros [= ->]. lia.
  - intros H. rewrite IH by assumption. lia.
Qed.
End JsMapFacts.

Lemma sumZ_app l1 l2 : sumZ (l1 ++ l2) = sumZ l1 + sumZ l2.
Proof. induction l1 as [| x l1 IH]; simpl; lia. Qed.

Lemma sumZ_perm l1 l2 : Permutation l1 l2 -> sumZ l1 = sumZ l2.
Proof. induction 1; simpl; lia. Qed.

(** ** [Array.prototype.sort] *)

Section JsSortFacts.
Context {A : Type} (cmp : A -> A -> Z).

(** Where [sort_insert] puts its element: after exactly the elements that
    must precede it. *)
Lemma sort_insert_split x l :
  exists l1 l2,
    l = l1 ++ l2 /\ sort_insert cmp x l = l1 ++ x :: l2 /\
    Forall (fun z => cmp x z > 0) l1 /\
    match l2 with [] => True | y :: _ => cmp x y <= 0 end.
Proof.
  induction l as [| y l (l1 & l2 & -> & E & Hall & Hhd)]; simpl.
  - exists [], []. repeat split; auto.
  - destruct (cmp x y <=? 0) eqn:C.
    + exists [], (y :: l1 ++ l2). repeat split; auto. lia.
    + exists (y :: l1), l2. rewrite E. repeat split; auto.
      constructor; [lia | assumption].
Qed.

Lemma sort_insert_perm x l : Permutation (sort_insert cmp x l) (x :: l).
Proof.
  destruct (sort_insert_split x l) as (l1 & l2 & -> & -> & _).
  symmetry. apply Permutation_middle.
Qed.

Lemma Array_sort_perm l : Permutation (Array_sort cmp l) l.
Proof.
  induction l as [| x l IH]; simpl; [constructor |].
  rewrite sort_insert_perm. now constructor.
Qed.

Lemma Array_sort_In x l : In x (Array_sort cmp l) <-> In x l.
Proof.
  split; apply Permutation_in;
    [apply Array_sort_perm | symmetry; apply Array_sort_perm].
Qed.

(** Stability: two elements that do not compare strictly the other way
    round keep the order they had in the input. *)
Lemma Array_sort_stable x y l :
  before x y (Array_sort cmp l) -> cmp y x <= 0 -> before x y l.
Proof.
  revert x y. induction l as [| a l IH]; simpl; intros x y Hb Hc.
  - inversion Hb.
  - destruct (sort_insert_split a (Array_sort cmp l))
      as (l1 & l2 & El & Es & Hall & _).
    rewrite Es in Hb. apply before_app in Hb.
    assert (Hsub : forall z, In z l1 \/ In z l2 -> In z l).
    { intros z Hz. apply Array_sort_In. rewrite El. now apply in_or_app. }
    assert (Hold : before x y (l1 ++ l2) -> before x y (a :: l)).
    { intros H. apply before_later, IH; [now rewrite El | assumption]. }
    destruct Hb as [Hb | [Hb | [Hx Hy]]].
    + apply Hold, before_app. auto.
    + apply before_cons_inv in Hb as [[-> Hy] | Hb].
      * apply before_here. auto.
      * apply Hold, before_app. auto.
    + destruct Hy as [<- | Hy].
      * rewrite Forall_forall in Hall. specialize (Hall x Hx). lia.
      * apply Hold, before_app. auto.
Qed.

Section Order.
Hypothesis cmp_trans :
  forall x y z, cmp x y <= 0 -> cmp y z <= 0 -> cmp x z <= 0.
Hypothesis cmp_total : forall x y, cmp x y > 0 -> cmp y x <= 0.

Lemma sort_insert_sorted x l :
  StronglySorted (fun a b => cmp a b <= 0) l ->
  StronglySorted (fun a b => cmp a b <= 0) (sort_insert cmp x l).
Proof.
  induction 1 as [| y l Hs IH Hall]; simpl.
  - repeat constructor.
  - destruct (cmp x y <=? 0) eqn:C.
    + constructor; [now constructor |].
      constructor; [lia |].
      eapply Forall_impl; [| exact Hall].
      intros z Hz. apply (cmp_trans x y z); [lia | exact Hz].
    + constructor; [exact IH |].
      apply Forall_forall. intros z Hz.
      apply (Permutation_in _ (sort_insert_perm x l)) in Hz.
      destruct Hz as [<- | Hz].
      * apply cmp_total. lia.
      * rewrite Forall_forall in Hall. auto.
Qed.

Lemma Array_sort_sorted l :
  StronglySorted (fun a b => cmp a b <= 0) (Array_sort cmp l).
Proof.
  induction l as [| x l IH]; simpl; [constructor |].
  now apply sort_insert_sorted.
Qed.
End Order.
End JsSortFacts.

(** Sorting commutes with a projection through which the comparator factors. *)
Lemma Array_sort_map {A B : Type} (f : A -> B) (cmp : B -> B -> Z) l :
  Array_sort cmp (map f l) =
  map f (Array_sort (fun a b => cmp (f a) (f b)) l).
Proof.
  induction l as [| x l IH]; simpl; [reflexivity |].
  rewrite IH. generalize (Array_sort (fun a b => cmp (f a) (f b)) l).
  intros s. induction s as [| y s IHs]; simpl; [reflexivity |].
  destruct (cmp (f x) (f y) <=? 0); simpl; [reflexivity |].
  now rewrite IHs.
Qed.

(** ** The impact aggregator ([user-impact.tsx]) *)

Import UserImpact.

Lemma authorCounts_snoc cs c :
  authorCounts (cs ++ [c]) = countCommit (authorCounts cs) c.
Proof. unfold authorCounts. now rewrite fold_left_app. Qed.

Lemma resolve_truthy c : truthy (commitKey c) = true <-> resolve c <> None.
Proof.
  unfold resolve. destruct (truthy (commitKey c)) eqn:E.
  - split; [| reflexivity]. intros _ H. rewrite H in E. discriminate.
  - split; [discriminate | congruence].
Qed.

Lemma countedUnder_resolve k c : countedUnder k c = true <-> resolve c = Some k.
Proof.
  unfold countedUnder. destruct (resolve c) as [k' |].
  - rewrite Key_eqb_eq. split; congruence.
  - split; discriminate.
Qed.

Lemma firstSeen_lt k cs i : firstSeen k cs = Some i -> (i < List.length cs)%nat.
Proof.
  revert i. induction cs as [| c cs IH]; simpl; intros i; [discriminate |].
  destruct (countedUnder k c).
  - intros [= <-]. lia.
  - destruct (firstSeen k cs) as [i' |]; simpl; [| discriminate].
    intros [= <-]. specialize (IH i' eq_refl). lia.
Qed.

Lemma firstSeen_snoc k cs c :
  firstSeen k (cs ++ [c]) =
  match firstSeen k cs with
  | Some i => Some i
  | None => if countedUnder k c then Some (List.length cs) else None
  end.
Proof.
  induction cs as [| c0 cs IH]; simpl.
  - now destruct (countedUnder k c).
  - destruct (countedUnder k c0); [reflexivity |].
    rewrite IH. destruct (firstSeen k cs); simpl; [reflexivity |].
    now destruct (countedUnder k c).
Qed.

Lemma commitsOf_snoc k cs c :
  commitsOf k (cs ++ [c]) =
  commitsOf k cs + (if countedUnder k c then 1 else 0).
Proof.
  unfold commitsOf. rewrite filter_app, length_app. simpl.
  destruct (countedUnder k c); simpl; lia.
Qed.

Lemma attributable_snoc cs c :
  attributable (cs ++ [c]) =
  attributable cs + (if truthy (commitKey c) then 1 else 0).
Proof.
  unfold attributable. rewrite filter_app, length_app. simpl.
  destruct (truthy (commitKey c)); simpl; lia.
Qed.

Lemma commitsOf_firstSeen_None k cs : firstSeen k cs = None -> commitsOf k cs = 0.
Proof.
  unfold commitsOf. induction cs as [| c cs IH]; simpl; [reflexivity |].
  destruct (countedUnder k c); [discriminate |].
  destruct (firstSeen k cs); [discriminate |]. auto.
Qed.

Lemma counted_nil : counted [] [].
Proof.
  constructor; simpl; try reflexivity; try discriminate.
  - constructor.
  - intros k1 k2 H. inversion H.
Qed.

Lemma counted_step cs m c :
  counted cs m -> counted (cs ++ [c]) (countCommit m c).
Proof.
  intros [Hnd Habs Hcnt Hord Hsum]. unfold countCommit.
  assert (Hkeep : forall k i, firstSeen k cs = Some i ->
                              firstSeen k (cs ++ [c]) = Some i).
  { intros k i H. now rewrite firstSeen_snoc, H. }
  assert (Hord' : forall k1 k2, before k1 k2 (map fst m) ->
            exists i j, firstSeen k1 (cs ++ [c]) = Some i /\
                        firstSeen k2 (cs ++ [c]) = Some j /\ (i < j)%nat).
  { intros k1 k2 H. destruct (Hord k1 k2 H) as (i & j & Hi & Hj & Hij).
    exists i, j. auto. }
  destruct (resolve c) as [key |] eqn:R.
  - (* the commit is counted under [key] *)
    assert (T : truthy (commitKey c) = true).
    { apply resolve_truthy. congruence. }
    assert (Hother : forall k, Key_eqb k key = false -> countedUnder k c = false).
    { intros k E. unfold countedUnder. rewrite R.
      destruct (Key_eqb key k) eqn:E'; [| reflexivity].
      apply Key_eqb_eq in E' as ->. now rewrite Key_eqb_refl in E. }
    assert (Hself : countedUnder key c = true) by now apply countedUnder_resolve.
    destruct (Map_get Key_eqb m key) as [existing |] eqn:G.
    + (* a key seen before: the entry is bumped in place *)
      constructor.
      * now rewrite (Map_set_present_keys Key_eqb Key_eqb_eq m key _ existing).
      * intros k. rewrite (Map_get_set Key_eqb Key_eqb_eq).
        destruct (Key_eqb k key) eqn:E; [discriminate |].
        intros H. rewrite firstSeen_snoc, (Habs k H), (Hother k E). reflexivity.
      * intros k e. rewrite (Map_get_set Key_eqb Key_eqb_eq).
        destruct (Key_eqb k key) eqn:E.
        -- apply Key_eqb_eq in E as ->. intros [= <-]. simpl.
           destruct (Hcnt key existing G) as (Hc & Hpos & i & Hi).
           rewrite commitsOf_snoc, Hself. repeat split; try lia. eauto.
        -- intros H. destruct (Hcnt k e H) as (Hc & Hpos & i & Hi).
           rewrite commitsOf_snoc, (Hother k E). repeat split; try lia. eauto.
      * rewrite (Map_set_present_keys Key_eqb Key_eqb_eq m key _ existing G).
        exact Hord'.
      * rewrite (Map_set_present_sum Key_eqb count m key _ existing G).
        rewrite attributable_snoc, T. simpl. lia.
    + (* a new key: its entry is appended *)
      rewrite (Map_set_absent Key_eqb m key _ G).
      assert (Hfresh : ~ In key (map fst m)).
      { now apply (Map_get_None_iff Key_eqb Key_eqb_eq). }
      assert (Hget : forall k v,
                 Map_get Key_eqb (m ++ [(key, v)]) k =
                 if Key_eqb k key then Some v else Map_get Key_eqb m k).
      { intros k v. rewrite <- (Map_set_absent Key_eqb m key v G).
        apply (Map_get_set Key_eqb Key_eqb_eq). }
      constructor.
      * rewrite map_app. simpl. apply NoDup_app; auto.
        -- repeat constructor. simpl. tauto.
        -- intros k Hk [<- | []]. tauto.
      * intros k. rewrite Hget.
        destruct (Key_eqb k key) eqn:E; [discriminate |].
        intros H. rewrite firstSeen_snoc, (Habs k H), (Hother k E). reflexivity.
      * intros k e. rewrite Hget.
        destruct (Key_eqb k key) eqn:E.
        -- apply Key_eqb_eq in E as ->. intros [= <-]. simpl.
           rewrite commitsOf_snoc, Hself, firstSeen_snoc, (Habs key G), Hself.
           rewrite (commitsOf_firstSeen_None key cs (Habs key G)).
           repeat split; try lia. eauto.
        -- intros H. destruct (Hcnt k e H) as (Hc & Hpos & i & Hi).
           rewrite commitsOf_snoc, (Hother k E). repeat split; try lia. eauto.
      * intros k1 k2. rewrite map_app. simpl. intros H.
        apply before_app in H as [H | [H | [H1 [<- | []]]]].
        -- auto.
        -- apply before_cons_inv in H as [[_ []] | H]. inversion H.
        -- assert (exists e, Map_get Key_eqb m k1 = Some e) as [e He].
           { destruct (Map_get Key_eqb m k1) as [e |] eqn:G1; [eauto |].
             apply (Map_get_None_iff Key_eqb Key_eqb_eq) in G1. tauto. }
           destruct (Hcnt k1 e He) as (_ & _ & i & Hi).
           exists i, (List.length cs). repeat split.
           ++ auto.
           ++ now rewrite firstSeen_snoc, (Habs key G), Hself.
           ++ now apply (firstSeen_lt k1).
      * rewrite map_app, sumZ_app. simpl.
        rewrite attributable_snoc, T, Hsum. lia.
  - (* an unattributable commit leaves the map alone *)
    assert (T : truthy (commitKey c) = false).
    { destruct (truthy (commitKey c)) eqn:E; [| reflexivity].
      apply resolve_truthy in E. congruence. }
    assert (Hnone : forall k, countedUnder k c = false).
    { intros k. unfold countedUnder. now rewrite R. }
    constructor; auto.
    + intros k H. now rewrite firstSeen_snoc, (Habs k H), Hnone.
    + intros k e H. destruct (Hcnt k e H) as (Hc & Hpos & i & Hi).
      rewrite commitsOf_snoc, Hnone. repeat split; try lia. eauto.
    + rewrite attributable_snoc, T. lia.
Qed.

Lemma authorCounts_counted cs : counted cs (authorCounts cs).
Proof.
  induction cs as [| c cs IH] using rev_ind.
  - exact counted_nil.
  - rewrite authorCounts_snoc. now apply counted_step.
Qed.

Lemma contributorStats_ranked commits :
  contributorStats commits =
  map (fun kv => toStats (Z.of_nat (List.length commits)) (snd kv))
      (ranked commits).
Proof.
  destruct commits as [| c cs]; [reflexivity |].
  unfold contributorStats, ranked. rewrite map_map.
  now rewrite Array_sort_map.
Qed.

Lemma ranked_In kv commits : In kv (ranked commits) <-> In kv (authorCounts commits).
Proof. apply Array_sort_In. Qed.

Lemma ranked_get commits k e :
  In (k, e) (ranked commits) -> Map_get Key_eqb (authorCounts commits) k = Some e.
Proof.
  intros H. apply ranked_In in H.
  apply (Map_get_In Key_eqb Key_eqb_eq); [| exact H].
  apply (cnt_nodup _ _ (authorCounts_counted commits)).
Qed.

Lemma firstSeen_commit k cs i :
  firstSeen k cs = Some i -> exists c, nth_error cs i = Some c /\ resolve c = Some k.
Proof.
  revert i. induction cs as [| c cs IH]; simpl; intros i; [discriminate |].
  destruct (countedUnder k c) eqn:E.
  - intros [= <-]. exists c. split; [reflexivity |].
    now apply countedUnder_resolve.
  - destruct (firstSeen k cs) as [i' |]; simpl; [| discriminate].
    intros [= <-]. exact (IH i' eq_refl).
Qed.

Lemma percent_spec n total :
  0 < total ->
  (percent n total == inject_Z n / inject_Z total * inject_Z 100)%Q.
Proof.
  intros H. unfold percent.
  assert ((0 <? total) = true) as -> by now apply Z.ltb_lt.
  apply Qred_correct.
Qed.

(** Which commits have a key that passes [if (key)]. *)
Lemma truthy_commitKey c :
  truthy (commitKey c) = true <->
  (exists a, Commit.author c = Some a /\ (User.id a <> 0 \/ User.login a <> ""))
  \/ (Commit.author c = None /\
      GitActor.email (CommitDetail.author (Commit.commit c)) <> "").
Proof.
  unfold commitKey, js_or. destruct (Commit.author c) as [a |]; simpl.
  - destruct (User.id a =? 0) eqn:E1; simpl;
      destruct (String.eqb (User.login a) "") eqn:E2; simpl;
      rewrite ?E1, ?E2; simpl; rewrite ?E1, ?E2; simpl.
    + apply Z.eqb_eq in E1. apply String.eqb_eq in E2.
      split; [discriminate |].
      intros [(a' & [= <-] & [H | H]) | [H _]]; congruence.
    + apply String.eqb_neq in E2.
      split; [| reflexivity]. intros _. left. eauto.
    + apply Z.eqb_neq in E1.
      split; [| reflexivity]. intros _. left. eauto.
    + apply Z.eqb_neq in E1.
      split; [| reflexivity]. intros _. left. eauto.
  - destruct (String.eqb
                (GitActor.email (CommitDetail.author (Commit.commit c))) "")
      eqn:E; simpl.
    + apply String.eqb_eq in E.
      split; [discriminate |].
      intros [(a & H & _) | [_ H]]; congruence.
    + apply String.eqb_neq in E.
      split; [| reflexivity]. intros _. right. auto.
Qed.

(** C6, refuted as stated: of two commits that both carry a non-empty
    commit-author email, the one whose account object has neither an id nor
    a login gets no entry; the counts add up to 1, and 2 commits have a
    resolvable identity in the words of the claim. *)
Lemma impact_account_without_id_dropped :
  map (fun c => GitActor.email (CommitDetail.author (Commit.commit c)))
      [Sample.byGhost; Sample.byBob]
  = ["carol@x.com"; "bob@x.com"]
  /\ map resolvableAsSpecified [Sample.byGhost; Sample.byBob] = [true; true]
  /\ commitKey Sample.byGhost = None
  /\ map ContributorStats.login (contributorStats [Sample.byGhost; Sample.byBob])
     = ["bob@x.com"]
  /\ sumZ (map ContributorStats.commitCount
              (contributorStats [Sample.byGhost; Sample.byBob])) = 1
  /\ Z.of_nat (List.length
                 (filter resolvableAsSpecified [Sample.byGhost; Sample.byBob]))
     = 2.
Proof. repeat split. Qed.

(** C6, as amended: the commit counts of the impact entries add up to the
    number of commits to which the loop gives a key: a commit with an
    account object whose id is not 0 or whose login is not empty, or a
    commit without an account object whose commit-author email is not
    empty.  A commit with an account object that has neither an id nor a
    login gets no key, whatever its commit-author email.  Every entry's
    percentage is its commit count over the length of the whole window,
    the commits without a key included, times 100. *)
Theorem impact_counts_sum_and_share (commits : list Commit.t) :
  sumZ (map ContributorStats.commitCount (contributorStats commits))
  = attributable commits
  /\ (forall c,
       truthy (commitKey c) = true <->
       (exists a, Commit.author c = Some a /\
                  (User.id a <> 0 \/ User.login a <> ""))
       \/ (Commit.author c = None /\
           GitActor.email (CommitDetail.author (Commit.commit c)) <> ""))
  /\ (forall c a,
       Commit.author c = Some a -> User.id a = 0 -> User.login a = "" ->
       truthy (commitKey c) = false)
  /\ Forall
       (fun s =>
          (ContributorStats.percentage s ==
           inject_Z (ContributorStats.commitCount s)
           / inject_Z (Z.of_nat (List.length commits)) * inject_Z 100)%Q)
       (contributorStats commits).
Proof.
  split; [| split; [| split]].
  - rewrite contributorStats_ranked, map_map. simpl.
    rewrite <- (cnt_sum _ _ (authorCounts_counted commits)).
    apply sumZ_perm, Permutation_map. apply Array_sort_perm.
  - exact truthy_commitKey.
  - intros c a Ha Hid Hlogin. unfold commitKey. rewrite Ha, Hid, Hlogin.
    reflexivity.
  - destruct commits as [| c cs]; [constructor |].
    rewrite contributorStats_ranked. apply Forall_forall.
    intros s Hs. apply in_map_iff in Hs as ([k e] & <- & _). simpl.
    apply percent_spec. simpl List.length. lia.
Qed.

Lemma byCount_trans (x y z : Key * Entry) :
  byCount x y <= 0 -> byCount y z <= 0 -> byCount x z <= 0.
Proof. unfold byCount. lia. Qed.

Lemma byCount_total (x y : Key * Entry) : byCount x y > 0 -> byCount y x <= 0.
Proof. unfold byCount. lia. Qed.

Lemma ranked_example cA cB cC kA kB kC :
  resolve cA = Some kA -> resolve cB = Some kB -> resolve cC = Some kC ->
  kA <> kB -> kA <> kC -> kB <> kC ->
  ranked [cA; cB; cA; cC; cB; cA] =
  [(kA, entryOf 3 cA); (kB, entryOf 2 cB); (kC, entryOf 1 cC)].
Proof.
  intros RA RB RC AB AC BC.
  assert (F : forall a b, a <> b -> Key_eqb a b = false).
  { intros a b H. destruct (Key_eqb a b) eqn:E; [| reflexivity].
    now apply Key_eqb_eq in E. }
  pose proof (F kA kB AB) as Fab. pose proof (F kA kC AC) as Fac.
  pose proof (F kB kC BC) as Fbc.
  pose proof (F kB kA (not_eq_sym AB)) as Fba.
  pose proof (F kC kA (not_eq_sym AC)) as Fca.
  pose proof (F kC kB (not_eq_sym BC)) as Fcb.
  unfold ranked, authorCounts, countCommit, entryOf.
  cbn [fold_left]. rewrite RA, RB, RC.
  repeat (cbn [Map_get Map_set count author commitAuthorEmail commitAuthorName];
          rewrite ?Key_eqb_refl, ?Fab, ?Fac, ?Fbc, ?Fba, ?Fca, ?Fcb).
  reflexivity.
Qed.

(** C7: the impact entries come in descending order of commit count, and
    two entries with the same count come in the order in which their
    identities are first seen in the window; for commits of three identities
    in the order A, B, A, C, B, A the ranking is A with 3 commits (50.0%),
    B with 2 (33.3%), C with 1 (16.7%). *)
Theorem impact_ranking_stable (commits : list Commit.t) :
  contributorStats commits =
    map (fun kv => toStats (Z.of_nat (List.length commits)) (snd kv))
        (ranked commits)
  /\ StronglySorted
       (fun a b => ContributorStats.commitCount a >= ContributorStats.commitCount b)
       (contributorStats commits)
  /\ (forall k1 e1 k2 e2,
        before (k1, e1) (k2, e2) (ranked commits) ->
        count e1 = count e2 ->
        exists i j, firstSeen k1 commits = Some i /\
                    firstSeen k2 commits = Some j /\ (i < j)%nat)
  /\ (forall cA cB cC kA kB kC,
        resolve cA = Some kA -> resolve cB = Some kB -> resolve cC = Some kC ->
        kA <> kB -> kA <> kC -> kB <> kC ->
        contributorStats [cA; cB; cA; cC; cB; cA] =
          [toStats 6 (entryOf 3 cA); toStats 6 (entryOf 2 cB);
           toStats 6 (entryOf 1 cC)]
        /\ map (fun s => (ContributorStats.commitCount s,
                          ContributorStats.percentage s,
                          toFixed1 (ContributorStats.percentage s)))
               (contributorStats [cA; cB; cA; cC; cB; cA])
           = [(3, 50 # 1, 500); (2, 100 # 3, 333); (1, 50 # 3, 167)]).
Proof.
  split; [apply contributorStats_ranked |]. split; [| split].
  - rewrite contributorStats_ranked.
    assert (H := Array_sort_sorted byCount byCount_trans byCount_total
                   (authorCounts commits)).
    fold (ranked commits) in H.
    induction H as [| kv l _ IH Hall]; simpl; constructor; [exact IH |].
    apply Forall_forall. intros s Hs.
    apply in_map_iff in Hs as (kv' & <- & Hin).
    rewrite Forall_forall in Hall. specialize (Hall kv' Hin).
    unfold byCount in Hall. simpl. lia.
  - intros k1 e1 k2 e2 Hb Heq.
    apply Array_sort_stable in Hb; [| unfold byCount; simpl; lia].
    apply (before_map fst) in Hb. simpl in Hb.
    exact (cnt_order _ _ (authorCounts_counted commits) k1 k2 Hb).
  - intros cA cB cC kA kB kC RA RB RC AB AC BC.
    rewrite contributorStats_ranked.
    rewrite (ranked_example cA cB cC kA kB kC) by assumption.
    split; reflexivity.
Qed.

(** C9: every impact entry has a commit count of at least one: an entry
    stands for a key under which some commit of the window is counted, and
    its count is the number of those commits. *)
Theorem impact_entries_have_commits (commits : list Commit.t) :
  Forall (fun s => 1 <= ContributorStats.commitCount s)
         (contributorStats commits)
  /\ contributorStats commits =
       map (fun kv => toStats (Z.of_nat (List.length commits)) (snd kv))
           (ranked commits)
  /\ (forall k e,
        In (k, e) (ranked commits) ->
        ContributorStats.commitCount
          (toStats (Z.of_nat (List.length commits)) e) = commitsOf k commits
        /\ 1 <= commitsOf k commits
        /\ exists c, In c commits /\ resolve c = Some k).
Proof.
  assert (H : forall k e,
             In (k, e) (ranked commits) ->
             count e = commitsOf k commits /\ 1 <= commitsOf k commits /\
             exists c, In c commits /\ resolve c = Some k).
  { intros k e Hin. apply ranked_get in Hin.
    destruct (cnt_count _ _ (authorCounts_counted commits) k e Hin)
      as (Hc & Hpos & i & Hi).
    repeat split; [exact Hc | lia |].
    destruct (firstSeen_commit k commits i Hi) as (c & Hn & Hr).
    exists c. split; [eapply nth_error_In; eauto | exact Hr]. }
  split; [| split].
  - rewrite contributorStats_ranked. apply Forall_forall.
    intros s Hs. apply in_map_iff in Hs as ([k e] & <- & Hin). simpl.
    destruct (H k e Hin) as (-> & Hpos & _). exact Hpos.
  - apply contributorStats_ranked.
  - intros k e Hin. simpl. exact (H k e Hin).
Qed.

(** ** The calendar behind [toISOString] *)

Section Calendar.
Import JsDate.

Lemma Zrange_In lo n z : lo <= z < lo + Z.of_nat n -> In z (Zrange lo n).
Proof.
  revert lo. induction n as [| n IH]; intros lo H; simpl; [lia |].
  destruct (Z.eq_dec lo z) as [-> | Hne]; [now left | right].
  apply IH. lia.
Qed.

Lemma year_check_all : forallb year_check (Zrange 0 (Z.to_nat 400)) = true.
Proof. vm_compute. reflexivity. Qed.

Lemma doy_check_all : forallb doy_check (Zrange 0 (Z.to_nat 366)) = true.
Proof. vm_compute. reflexivity. Qed.

Lemma year_checked yoe :
  0 <= yoe <= 399 ->
  yoe_of_doe (yearStart yoe) = yoe /\ yoe_of_doe (yearStart (yoe + 1) - 1) = yoe.
Proof.
  intros H. pose proof year_check_all as A.
  rewrite forallb_forall in A.
  assert (I : In yoe (Zrange 0 (Z.to_nat 400))) by (apply Zrange_In; lia).
  specialize (A yoe I). unfold year_check in A.
  apply andb_prop in A as [A1 A2]. lia.
Qed.

Lemma doy_checked doy : 0 <= doy <= 365 -> doy_check doy = true.
Proof.
  intros H. pose proof doy_check_all as A.
  rewrite forallb_forall in A. apply A, Zrange_In. lia.
Qed.

(** Later days lie in later years. *)
Lemma yoe_of_doe_mono a b : 0 <= a <= b -> yoe_of_doe a <= yoe_of_doe b.
Proof.
  intros H. unfold yoe_of_doe. apply Z.div_le_mono; [lia |].
  replace (a / 146096) with (a / 36524 / 4) by (rewrite Z.div_div; first [lia | reflexivity]).
  replace (b / 146096) with (b / 36524 / 4) by (rewrite Z.div_div; first [lia | reflexivity]).
  assert (a / 1460 <= b / 1460) by (apply Z.div_le_mono; lia).
  assert (a / 36524 <= b / 36524) by (apply Z.div_le_mono; lia).
  Z.div_mod_to_equations. lia.
Qed.

Lemma yearStart_step y : 0 <= y -> 365 <= yearStart (y + 1) - yearStart y <= 366.
Proof. intros H. unfold yearStart. Z.div_mod_to_equations. lia. Qed.

Lemma yearStart_mono a b : 0 <= a <= b -> yearStart a <= yearStart b.
Proof. intros H. unfold yearStart. Z.div_mod_to_equations. lia. Qed.

(** The year that the formula assigns to a day of the era contains it. *)
Lemma yoe_of_doe_spec doe :
  0 <= doe < 146097 ->
  0 <= yoe_of_doe doe <= 399 /\
  0 <= doe - yearStart (yoe_of_doe doe) <= 365 /\
  (yoe_of_doe doe <= 398 -> doe < yearStart (yoe_of_doe doe + 1)).
Proof.
  intros H.
  assert (B : 0 <= yoe_of_doe doe <= 399).
  { pose proof (yoe_of_doe_mono 0 doe ltac:(lia)) as L.
    pose proof (yoe_of_doe_mono doe 146096 ltac:(lia)) as U.
    change (yoe_of_doe 0) with 0 in L.
    replace (yoe_of_doe 146096) with 399 in U by (vm_compute; reflexivity).
    lia. }
  split; [exact B |]. set (y := yoe_of_doe doe) in *.
  assert (Lo : yearStart y <= doe).
  { destruct (Z_le_gt_dec (yearStart y) doe) as [L | G]; [exact L | exfalso].
    assert (1 <= y).
    { destruct (Z.eq_dec y 0) as [E | E]; [| lia].
      rewrite E in G. change (yearStart 0) with 0 in G. lia. }
    destruct (year_checked (y - 1) ltac:(lia)) as [_ Last].
    replace (y - 1 + 1) with y in Last by lia.
    pose proof (yearStart_mono 1 y ltac:(lia)) as P.
    replace (yearStart 1) with 365 in P by (vm_compute; reflexivity).
    pose proof (yoe_of_doe_mono doe (yearStart y - 1) ltac:(lia)) as M.
    fold y in M. lia. }
  assert (Hi : y <= 398 -> doe < yearStart (y + 1)).
  { intros Hy.
    destruct (Z_lt_ge_dec doe (yearStart (y + 1))) as [L | G];
      [exact L | exfalso].
    destruct (year_checked (y + 1) ltac:(lia)) as [First _].
    pose proof (yearStart_mono 0 (y + 1) ltac:(lia)) as P.
    change (yearStart 0) with 0 in P.
    pose proof (yoe_of_doe_mono (yearStart (y + 1)) doe ltac:(lia)) as M.
    fold y in M. lia. }
  split; [| exact Hi]. split; [lia |].
  destruct (Z.eq_dec y 399) as [E | E].
  - rewrite E.
    replace (yearStart 399) with 145731 by (vm_compute; reflexivity). lia.
  - pose proof (yearStart_step y ltac:(lia)). specialize (Hi ltac:(lia)). lia.
Qed.

(** The date of a day of the era, with the facts the date key relies on. *)
Lemma date_of_doe_spec doe :
  0 <= doe < 146097 ->
  exists yoe m d,
    date_of_doe doe = (yoe, m, d) /\ 0 <= yoe <= 399 /\ 1 <= m <= 12 /\
    1 <= d <= 31 /\ doe_of_date yoe m d = doe /\
    (doe <= 146036 <-> yoe + newYear m <= 399).
Proof.
  intros H. destruct (yoe_of_doe_spec doe H) as (By & Bd & Hi).
  unfold date_of_doe, doe_of_date. set (y := yoe_of_doe doe) in *.
  pose proof (doy_checked (doe - yearStart y) Bd) as C.
  unfold doy_check in C.
  destruct (month_day_of_doy (doe - yearStart y)) as [m d].
  repeat (apply andb_prop in C as [C ?]).
  exists y, m, d. split; [reflexivity |].
  split; [lia |]. split; [lia |]. split; [lia |]. split; [lia |].
  unfold newYear.
  destruct (Z.eq_dec y 399) as [E | E].
  - rewrite E in *.
    replace (yearStart 399) with 145731 in * by (vm_compute; reflexivity).
    destruct (306 <=? doe - 145731) eqn:D; destruct (m <=? 2) eqn:M;
      try discriminate; lia.
  - pose proof (yearStart_mono (y + 1) 399 ltac:(lia)) as P.
    replace (yearStart 399) with 145731 in P by (vm_compute; reflexivity).
    specialize (Hi ltac:(lia)). destruct (m <=? 2); lia.
Qed.

Lemma digitVal_digit k : 0 <= k <= 9 -> digitVal (digit k) = Some k.
Proof.
  intros H.
  assert (I : In k (Zrange 0 (Z.to_nat 10))) by (apply Zrange_In; lia).
  simpl in I. repeat (destruct I as [<- | I]; [reflexivity |]). destruct I.
Qed.

Lemma digit_range n : 0 <= n mod 10 <= 9.
Proof. pose proof (Z.mod_pos_bound n 10 ltac:(lia)). lia. Qed.

Lemma numeral_pad2 n : 0 <= n <= 99 -> numeral 0 (pad2 n) = Some n.
Proof.
  intros H. unfold pad2. cbn [numeral].
  rewrite !digitVal_digit by apply digit_range.
  f_equal. Z.div_mod_to_equations. lia.
Qed.

Lemma numeral_pad4 n : 0 <= n <= 9999 -> numeral 0 (pad4 n) = Some n.
Proof.
  intros H. unfold pad4, pad2. cbn [numeral].
  rewrite !digitVal_digit by apply digit_range.
  f_equal. Z.div_mod_to_equations. lia.
Qed.

(** The civil date of a day, with the facts the date key relies on. *)
Lemma civil_from_days_spec z :
  exists y m d,
    civil_from_days z = (y, m, d) /\ 1 <= m <= 12 /\ 1 <= d <= 31 /\
    days_from_civil y m d = z /\
    (-100000000 <= z <= 100000000 -> -999999 <= y <= 999999).
Proof.
  unfold civil_from_days, days_from_civil.
  set (z' := z + 719468). set (era := z' / 146097).
  set (doe := z' - era * 146097).
  assert (Hdoe : 0 <= doe < 146097).
  { subst doe era. pose proof (Z.mod_pos_bound z' 146097 ltac:(lia)) as B.
    rewrite Z.mod_eq in B by lia. lia. }
  destruct (date_of_doe_spec doe Hdoe)
    as (yoe & m & d & -> & By & Bm & Bd & Back & Edge).
  exists (yoe + era * 400 + newYear m), m, d.
  assert (Ey : (yoe + era * 400 + newYear m - newYear m) / 400 = era).
  { symmetry. apply (Z.div_unique _ 400 era yoe); lia. }
  split; [reflexivity |]. split; [lia |]. split; [lia |]. split.
  - rewrite Ey.
    replace (yoe + era * 400 + newYear m - newYear m - era * 400)
      with yoe by lia.
    rewrite Back. subst doe z'. lia.
  - intros Hz.
    assert (-680 <= era < 690).
    { subst era. split.
      - apply Z.div_le_lower_bound; lia.
      - apply Z.div_lt_upper_bound; lia. }
    assert (0 <= newYear m <= 1) by (unfold newYear; destruct (m <=? 2); lia).
    lia.
Qed.

Lemma validTime_Day t : validTime t -> -100000000 <= Day t <= 100000000.
Proof.
  unfold validTime, Day, msPerDay. intros H. split.
  - apply Z.div_le_lower_bound; lia.
  - apply Z.div_le_upper_bound; lia.
Qed.

Lemma TimeClip_valid t t' : TimeClip t = Some t' -> t' = t /\ validTime t'.
Proof.
  unfold TimeClip, validTime.
  destruct ((-8640000000000000 <=? t) && (t <=? 8640000000000000)) eqn:E;
    [| discriminate].
  intros [= <-]. apply andb_prop in E as [L U]. lia.
Qed.

Lemma digit_not_sign k :
  0 <= k <= 9 ->
  Ascii.eqb (digit k) "+" = false /\ Ascii.eqb (digit k) "-" = false.
Proof.
  intros H.
  assert (I : In k (Zrange 0 (Z.to_nat 10))) by (apply Zrange_In; lia).
  simpl in I. repeat (destruct I as [<- | I]; [split; reflexivity |]).
  destruct I.
Qed.

Lemma numeral_pad6 n : 0 <= n <= 999999 -> numeral 0 (pad6 n) = Some n.
Proof.
  intros H. unfold pad6, pad4, pad2. cbn [numeral].
  rewrite !digitVal_digit by apply digit_range.
  f_equal. Z.div_mod_to_equations. lia.
Qed.

(** The date key of a valid date reads back as its UTC day. *)
Lemma dayOfKey_isoDate t : validTime t -> dayOfKey (isoDate t) = Some (Day t).
Proof.
  intros H. apply validTime_Day in H. unfold isoDate.
  destruct (civil_from_days_spec (Day t)) as (y & m & d & -> & Hm & Hd & Hback & Hy).
  specialize (Hy H). unfold isoYear.
  pose proof (numeral_pad2 m ltac:(lia)) as Nm.
  pose proof (numeral_pad2 d ltac:(lia)) as Nd.
  destruct ((0 <=? y) && (y <=? 9999)) eqn:Four.
  - (* four digits *)
    apply andb_prop in Four as [L U].
    pose proof (numeral_pad4 y ltac:(lia)) as N4.
    destruct (digit_not_sign (y / 1000 mod 10) (digit_range _)) as [P M].
    unfold dayOfKey, dayOfDigits.
    cbv [String.concat String.append pad4 pad2 substring Nat.add] in *.
    rewrite P, M, N4, Nm, Nd. now rewrite Z.mul_1_l, Hback.
  - destruct (y <? 0) eqn:Neg.
    + (* a negative year *)
      pose proof (numeral_pad6 (Z.abs y) ltac:(lia)) as N6.
      unfold dayOfKey, dayOfDigits.
      cbv [String.concat String.append pad6 pad4 pad2 substring Nat.add] in *.
      change (Ascii.eqb "-" "+") with false. change (Ascii.eqb "-" "-") with true.
      cbv iota. rewrite N6, Nm, Nd.
      replace (-1 * Z.abs y) with y by lia. now rewrite Hback.
    + (* a year beyond 9999 *)
      pose proof (numeral_pad6 (Z.abs y) ltac:(lia)) as N6.
      unfold dayOfKey, dayOfDigits.
      cbv [String.concat String.append pad6 pad4 pad2 substring Nat.add] in *.
      change (Ascii.eqb "+" "+") with true. cbv iota.
      rewrite N6, Nm, Nd.
      replace (1 * Z.abs y) with y by lia. now rewrite Hback.
Qed.

(** Two time values have the same date key exactly when they fall on the
    same UTC day. *)
Lemma isoDate_same_day t1 t2 :
  validTime t1 -> validTime t2 ->
  (isoDate t1 = isoDate t2 <-> Day t1 = Day t2).
Proof.
  intros H1 H2. split.
  - intros E. apply dayOfKey_isoDate in H1, H2. congruence.
  - intros E. unfold isoDate. now rewrite E.
Qed.
End Calendar.

(** ** The timeline bucketizer ([commit-timeline.tsx]) *)

Lemma NoDup_map_through {A B C : Type} (f : A -> B) (g : A -> C) l :
  NoDup (map g l) ->
  (forall x y, In x l -> In y l -> f x = f y -> g x = g y) ->
  NoDup (map f l).
Proof.
  induction l as [| a l IH]; simpl; intros Hnd Hinj; [constructor |].
  inversion Hnd as [| ? ? Hnotin Hnd']; subst. constructor.
  - intros Hin. apply in_map_iff in Hin as (x & Hx & Hxin).
    apply Hnotin. rewrite <- (Hinj x a); auto. now apply in_map.
  - apply IH; auto.
Qed.

Section TallyFacts.
Import JsDate CommitTimeline.

Lemma bump_eq dateMap key :
  bump dateMap key =
  match Map_get String.eqb dateMap key with Some n => n | None => 0 end + 1.
Proof.
  unfold bump. destruct (Map_get String.eqb dateMap key) as [n |]; auto.
  destruct (Z.eqb_spec n 0); lia.
Qed.

Lemma occurrences_snoc k ks k' :
  occurrences k (ks ++ [k']) =
  occurrences k ks + (if String.eqb k k' then 1 else 0).
Proof.
  unfold occurrences. rewrite filter_app, length_app. simpl.
  destruct (String.eqb k k'); simpl; lia.
Qed.

Lemma occurrences_In k ks : 1 <= occurrences k ks -> In k ks.
Proof.
  unfold occurrences. induction ks as [| k' ks IH]; simpl; [lia |].
  destruct (String.eqb_spec k k') as [-> | Hne]; [auto |].
  intros H. right. auto.
Qed.

Lemma In_occurrences k ks : In k ks -> 1 <= occurrences k ks.
Proof.
  unfold occurrences. induction ks as [| k' ks IH]; simpl; [tauto |].
  destruct (String.eqb_spec k k') as [-> | Hne]; simpl; [lia |].
  intros [E | H]; [congruence | auto].
Qed.

Lemma tallied_nil : tallied [] [].
Proof. constructor; simpl; try reflexivity; try discriminate. constructor. Qed.

Lemma tallied_step ks m k :
  tallied ks m -> tallied (ks ++ [k]) (Map_set String.eqb m k (bump m k)).
Proof.
  intros [Hnd Hcnt Habs Hsum]. rewrite bump_eq.
  assert (Hsame : forall k', String.eqb k' k = true -> k' = k)
    by (intros k'; apply String.eqb_eq).
  destruct (Map_get String.eqb m k) as [n |] eqn:G.
  - destruct (Hcnt k n G) as [Hn Hpos]. constructor.
    + now rewrite (Map_set_present_keys String.eqb String.eqb_eq m k _ n).
    + intros k' n'. rewrite (Map_get_set String.eqb String.eqb_eq).
      rewrite occurrences_snoc. destruct (String.eqb k' k) eqn:E.
      * apply String.eqb_eq in E as ->. intros [= <-]. lia.
      * intros H. destruct (Hcnt k' n' H). lia.
    + intros k'. rewrite (Map_get_set String.eqb String.eqb_eq).
      rewrite occurrences_snoc. destruct (String.eqb k' k) eqn:E.
      * discriminate.
      * intros H. rewrite (Habs k' H). lia.
    + assert (S : sumZ (map snd (Map_set String.eqb m k (n + 1))) =
                  sumZ (map snd m) - n + (n + 1))
        by exact (Map_set_present_sum String.eqb (fun x => x) m k (n + 1) n G).
      rewrite S, Hsum, length_app. simpl. lia.
  - rewrite (Map_set_absent String.eqb m k _ G).
    assert (Hget : forall k' v,
               Map_get String.eqb (m ++ [(k, v)]) k' =
               if String.eqb k' k then Some v else Map_get String.eqb m k').
    { intros k' v. rewrite <- (Map_set_absent String.eqb m k v G).
      apply (Map_get_set String.eqb String.eqb_eq). }
    pose proof (Habs k G) as Hzero. constructor.
    + rewrite map_app. simpl. apply NoDup_app; auto.
      * repeat constructor. simpl. tauto.
      * intros k' Hk' [<- | []].
        now apply (Map_get_None_iff String.eqb String.eqb_eq) in G.
    + intros k' n'. rewrite Hget, occurrences_snoc.
      destruct (String.eqb k' k) eqn:E.
      * apply String.eqb_eq in E as ->. intros [= <-]. lia.
      * intros H. destruct (Hcnt k' n' H). lia.
    + intros k'. rewrite Hget, occurrences_snoc.
      destruct (String.eqb k' k) eqn:E; [discriminate |].
      intros H. rewrite (Habs k' H). lia.
    + rewrite map_app, sumZ_app, Hsum, length_app. simpl. lia.
Qed.


Lemma localeCompare_trans x y z :
  localeCompare x y <= 0 -> localeCompare y z <= 0 -> localeCompare x z <= 0.
Proof.
  unfold localeCompare.
  destruct (String.compare x y) eqn:A; try lia;
    destruct (String.compare y z) eqn:B; try lia; intros _ _.
  - apply String.compare_eq_iff in A, B. subst.
    assert (String.compare z z = Eq) as -> by now apply OrderedTypeEx.String_as_OT.cmp_eq.
    lia.
  - apply String.compare_eq_iff in A. subst. rewrite B. lia.
  - apply String.compare_eq_iff in B. subst. rewrite A. lia.
  - apply OrderedTypeEx.String_as_OT.cmp_lt in A, B.
    pose proof (OrderedTypeEx.String_as_OT.lt_trans _ _ _ A B) as C.
    apply OrderedTypeEx.String_as_OT.cmp_lt in C. unfold OrderedTypeEx.String_as_OT.cmp in C.
    rewrite C. lia.
Qed.

Lemma localeCompare_total x y : localeCompare x y > 0 -> localeCompare y x <= 0.
Proof.
  unfold localeCompare. rewrite (String.compare_antisym x y).
  destruct (String.compare y x); simpl; lia.
Qed.
End TallyFacts.

Section TimelineFacts.
Import JsDate CommitTimeline.
Variable Date_parse : string -> option Z.

(** The loop returns, and its result tallies the date keys. *)
Lemma countDays_tallied commits :
  forall ks m,
    (forall c, In c commits -> dateKey Date_parse c <> None) ->
    tallied ks m ->
    exists m', countDays Date_parse commits m = Some m' /\
               tallied (ks ++ dateKeys Date_parse commits) m'.
Proof.
  induction commits as [| c cs IH]; intros ks m Hall Ht.
  - exists m. simpl. rewrite app_nil_r. auto.
  - cbn [countDays]. destruct (dateKey Date_parse c) as [k |] eqn:K.
    + destruct (IH (ks ++ [k]) (Map_set String.eqb m k (bump m k)))
        as (m' & Hm' & Ht').
      * intros c' Hc'. apply Hall. now right.
      * now apply tallied_step.
      * exists m'. split; [exact Hm' |].
        unfold dateKeys in *. cbn [flat_map]. rewrite K.
        now rewrite <- app_assoc in Ht'.
    + exfalso. exact (Hall c (or_introl eq_refl) K).
Qed.

(** Commits with the same committer dates go through the loop alike. *)
Lemma countDays_ext cs cs' m :
  map committerDate cs' = map committerDate cs ->
  countDays Date_parse cs' m = countDays Date_parse cs m.
Proof.
  revert cs' m. induction cs as [| c cs IH]; intros [| c' cs'] m; simpl;
    try discriminate; [reflexivity |].
  intros [= E1 E2]. unfold dateKey, committedAt.
  rewrite E1.
  destruct (match Date_parse (committerDate c) with
            | Some t => TimeClip t
            | None => None
            end) as [t |]; simpl; [| reflexivity].
  now apply IH.
Qed.

Lemma dateKeys_In k commits :
  In k (dateKeys Date_parse commits) <-> exists c, In c commits /\ dateKey Date_parse c = Some k.
Proof.
  unfold dateKeys. rewrite in_flat_map. split.
  - intros (c & Hc & Hk). exists c. split; [exact Hc |].
    destruct (dateKey Date_parse c); simpl in Hk; [| tauto].
    destruct Hk as [-> | []]. reflexivity.
  - intros (c & Hc & Hk). exists c. split; [exact Hc |].
    rewrite Hk. now left.
Qed.

(** Under a date key are counted the commits of its UTC day. *)
Lemma occurrences_commitsOnDay commits t0 :
  (forall c, In c commits ->
             exists t, committedAt Date_parse c = Some t /\ validTime t) ->
  validTime t0 ->
  occurrences (isoDate t0) (dateKeys Date_parse commits) = commitsOnDay Date_parse (Day t0) commits.
Proof.
  intros Hall H0. unfold occurrences, commitsOnDay.
  f_equal. induction commits as [| c cs IH]; [reflexivity |].
  destruct (Hall c (or_introl eq_refl)) as (t & Ht & Hr).
  unfold dateKeys, dateKey in *. simpl. rewrite Ht. simpl.
  assert (E : String.eqb (isoDate t0) (isoDate t) = (Day t =? Day t0)).
  { destruct (Z.eqb_spec (Day t) (Day t0)) as [D | D].
    - apply String.eqb_eq. now apply isoDate_same_day.
    - apply String.eqb_neq. intros K. apply D. symmetry.
      now apply isoDate_same_day. }
  rewrite E. destruct (Day t =? Day t0); simpl; rewrite IH; auto.
  all: intros c' Hc'; apply Hall; now right.
Qed.

End TimelineFacts.

Import JsDate CommitTimeline.

Lemma byDate_trans x y z :
  byDate x y <= 0 -> byDate y z <= 0 -> byDate x z <= 0.
Proof. apply localeCompare_trans. Qed.

Lemma byDate_total x y : byDate x y > 0 -> byDate y x <= 0.
Proof. apply localeCompare_total. Qed.

Lemma sorted_strict (l : list TimelineData.t) :
  StronglySorted (fun a b => byDate a b <= 0) l ->
  NoDup (map TimelineData.date l) ->
  StronglySorted
    (fun a b => String.compare (TimelineData.date a) (TimelineData.date b) = Lt)
    l.
Proof.
  induction 1 as [| a l _ IH Hall]; simpl; intros Hnd; constructor;
    inversion Hnd as [| ? ? Hnotin Hnd']; subst; auto.
  apply Forall_forall. intros b Hb.
  rewrite Forall_forall in Hall. specialize (Hall b Hb).
  unfold byDate, localeCompare in Hall.
  destruct (String.compare (TimelineData.date a) (TimelineData.date b)) eqn:C;
    [| reflexivity | lia].
  apply String.compare_eq_iff in C. exfalso. apply Hnotin.
  rewrite C. now apply in_map.
Qed.

Section TimelineClaim.
Variable Date_parse : string -> option Z.
Variable toLocaleDateString : string -> string.

Lemma committedAt_valid c t : committedAt Date_parse c = Some t -> validTime t.
Proof.
  unfold committedAt. destruct (Date_parse (committerDate c)) as [t0 |];
    [| discriminate].
  intros H. now apply TimeClip_valid in H.
Qed.

Lemma dateKeys_length commits :
  (forall c, In c commits -> dateKey Date_parse c <> None) ->
  List.length (dateKeys Date_parse commits) = List.length commits.
Proof.
  induction commits as [| c cs IH]; intros Hall; [reflexivity |].
  unfold dateKeys in *. cbn [flat_map].
  destruct (dateKey Date_parse c) eqn:K.
  - simpl. f_equal. apply IH. intros c' Hc'. apply Hall. now right.
  - exfalso. exact (Hall c (or_introl eq_refl) K).
Qed.

(** What the sorted buckets are, given the tallied map they come from. *)
Lemma buckets_of_tally commits m :
  (forall c, In c commits ->
     exists t, committedAt Date_parse c = Some t /\ validTime t) ->
  tallied (dateKeys Date_parse commits) m ->
  let buckets := Array_sort byDate (map (toPoint toLocaleDateString) m) in
  NoDup (map TimelineData.date buckets)
  /\ (forall b, In b buckets ->
        exists c t, In c commits /\ committedAt Date_parse c = Some t /\
          validTime t /\ TimelineData.date b = isoDate t /\
          TimelineData.commits b = commitsOnDay Date_parse (Day t) commits)
  /\ (forall c t, In c commits -> committedAt Date_parse c = Some t ->
        exists b, In b buckets /\ TimelineData.date b = isoDate t)
  /\ sumZ (map TimelineData.commits buckets) = Z.of_nat (List.length commits).
Proof.
  intros Hall [Hnd Hcnt Habs Hsum] buckets.
  assert (Hperm : Permutation buckets (map (toPoint toLocaleDateString) m))
    by apply Array_sort_perm.
  assert (Hkeys : forall c, In c commits -> dateKey Date_parse c <> None).
  { intros c Hc. destruct (Hall c Hc) as (t & Ht & _).
    unfold dateKey. rewrite Ht. discriminate. }
  split; [| split; [| split]].
  - apply (Permutation_NoDup (l := map fst m)); [| exact Hnd].
    symmetry. rewrite (Permutation_map TimelineData.date Hperm).
    rewrite map_map. simpl. apply Permutation_refl.
  - intros b Hb. apply (Permutation_in _ Hperm) in Hb.
    apply in_map_iff in Hb as ([k n] & <- & Hin). simpl.
    apply (Map_get_In String.eqb String.eqb_eq m k n Hnd) in Hin.
    destruct (Hcnt k n Hin) as [Hn Hpos].
    assert (Hk : In k (dateKeys Date_parse commits))
      by (apply occurrences_In; lia).
    apply dateKeys_In in Hk as (c & Hc & Hk).
    destruct (Hall c Hc) as (t & Ht & Hr).
    unfold dateKey in Hk. rewrite Ht in Hk. injection Hk as <-.
    exists c, t. repeat split; try assumption; try apply Hr.
    rewrite Hn. now apply occurrences_commitsOnDay.
  - intros c t Hc Ht.
    assert (Hk : In (isoDate t) (dateKeys Date_parse commits)).
    { apply dateKeys_In. exists c. split; [exact Hc |].
      unfold dateKey. now rewrite Ht. }
    apply In_occurrences in Hk.
    destruct (Map_get String.eqb m (isoDate t)) as [n |] eqn:G.
    + exists (toPoint toLocaleDateString (isoDate t, n)). split; [| reflexivity].
      apply (Permutation_in _ (Permutation_sym Hperm)), in_map.
      now apply (Map_get_Some_In String.eqb String.eqb_eq).
    + rewrite (Habs _ G) in Hk. lia.
  - rewrite (sumZ_perm _ _ (Permutation_map TimelineData.commits Hperm)).
    rewrite map_map. simpl.
    change (map (fun x : string * Z => snd x) m) with (map snd m).
    now rewrite Hsum, dateKeys_length.
Qed.

(** C8: when the committer dates of the window are valid dates of the years
    0 to 9999, the timeline has exactly one bucket for each UTC calendar day
    on which a commit of the window was committed, counting the commits of
    that day; the buckets are in strictly ascending order of their date key,
    their counts add up to the length of the window, and nothing but the
    committer date of a commit is looked at.  The empty window gives the
    empty timeline. *)
Theorem timeline_one_bucket_per_day (commits : list Commit.t) :
  (forall c, In c commits ->
     exists t, committedAt Date_parse c = Some t /\ fourDigitYear t) ->
  exists buckets,
    timelineData Date_parse toLocaleDateString commits = Some buckets
    /\ NoDup (map (fun b => dayOfKey (TimelineData.date b)) buckets)
    /\ (forall b, In b buckets ->
          exists c t, In c commits /\ committedAt Date_parse c = Some t /\
            TimelineData.date b = isoDate t /\
            dayOfKey (TimelineData.date b) = Some (Day t) /\
            TimelineData.commits b = commitsOnDay Date_parse (Day t) commits)
    /\ (forall c t, In c commits -> committedAt Date_parse c = Some t ->
          exists b, In b buckets /\
                    dayOfKey (TimelineData.date b) = Some (Day t))
    /\ StronglySorted
         (fun a b =>
            String.compare (TimelineData.date a) (TimelineData.date b) = Lt)
         buckets
    /\ sumZ (map TimelineData.commits buckets) = Z.of_nat (List.length commits)
    /\ (forall commits',
          map committerDate commits' = map committerDate commits ->
          timelineData Date_parse toLocaleDateString commits' = Some buckets)
    /\ timelineData Date_parse toLocaleDateString [] = Some [].
Proof.
  intros Hvalid.
  assert (Hall : forall c, In c commits ->
            exists t, committedAt Date_parse c = Some t /\ validTime t).
  { intros c Hc. destruct (Hvalid c Hc) as (t & E & _).
    exists t. split; [exact E | now apply (committedAt_valid c)]. }
  assert (Hkeys : forall c, In c commits -> dateKey Date_parse c <> None).
  { intros c Hc. destruct (Hall c Hc) as (t & Ht & _).
    unfold dateKey. rewrite Ht. discriminate. }
  destruct (countDays_tallied Date_parse commits [] [] Hkeys tallied_nil)
    as (m & Hm & Ht).
  simpl in Ht.
  destruct (buckets_of_tally commits m Hall Ht) as (Hnd & Hb & Hc & Hsum).
  set (buckets := Array_sort byDate (map (toPoint toLocaleDateString) m)) in *.
  assert (Hrun : forall cs,
             map committerDate cs = map committerDate commits ->
             timelineData Date_parse toLocaleDateString cs = Some buckets).
  { intros cs E. unfold timelineData.
    rewrite (countDays_ext Date_parse commits cs [] E), Hm.
    destruct cs as [| c cs]; [| reflexivity].
    destruct commits; [| discriminate].
    simpl in Hm. injection Hm as <-. reflexivity. }
  exists buckets. split; [now apply Hrun |].
  split; [| split; [| split; [| split; [| split; [| split]]]]].
  - apply (NoDup_map_through _ TimelineData.date); [exact Hnd |].
    intros x y Hx Hy E.
    destruct (Hb x Hx) as (cx & tx & _ & _ & Rx & Dx & _).
    destruct (Hb y Hy) as (cy & ty & _ & _ & Ry & Dy & _).
    rewrite Dx, Dy in *.
    rewrite (dayOfKey_isoDate tx Rx), (dayOfKey_isoDate ty Ry) in E.
    injection E as E. now apply isoDate_same_day.
  - intros b Hin.
    destruct (Hb b Hin) as (c & t & Hcin & Hct & Hr & Hd & Hn).
    exists c, t. repeat split; try assumption.
    rewrite Hd. now apply dayOfKey_isoDate.
  - intros c t Hcin Hct.
    destruct (Hc c t Hcin Hct) as (b & Hbin & Hd).
    exists b. split; [exact Hbin |]. rewrite Hd.
    destruct (Hall c Hcin) as (t' & Ht' & Hr).
    apply dayOfKey_isoDate. congruence.
  - apply sorted_strict; [| exact Hnd].
    apply (Array_sort_sorted byDate byDate_trans byDate_total).
  - exact Hsum.
  - exact Hrun.
  - reflexivity.
Qed.
End TimelineClaim.

Lemma timeline_one_bucket_per_day_witness :
  exists buckets,
    timelineData parseUtc (fun s => s) [Sample.byBob; Sample.byAlice; Sample.byNobody]
      = Some buckets
    /\ map (fun b => (TimelineData.date b, TimelineData.commits b)) buckets
       = [("2024-01-02", 1); ("2024-01-03", 2)].
Proof.
  destruct (timeline_one_bucket_per_day parseUtc (fun s => s)
              [Sample.byBob; Sample.byAlice; Sample.byNobody])
    as (buckets & Hrun & _).
  - intros c [<- | [<- | [<- | []]]]; eexists;
      (split; [vm_compute; reflexivity | unfold fourDigitYear; lia]).
  - exists buckets. split; [exact Hrun |].
    vm_compute in Hrun. injection Hrun as <-. reflexivity.
Defined.

(** ** The language normalizer ([language-distribution.tsx]) *)

Import LanguageDistribution.

Lemma totalBytes_sumZ languages : totalBytes languages = sumZ (map snd languages).
Proof.
  unfold totalBytes, Object_values. generalize (map snd languages). intros l.
  assert (G : forall acc, fold_left (fun sum bytes => sum + bytes) l acc
                          = acc + sumZ l).
  { induction l as [| x l IH]; intros acc; simpl; [lia |]. rewrite IH. lia. }
  now rewrite G.
Qed.

(** A non-empty mapping is never normalized to the empty sequence. *)
Lemma languageData_length languages :
  List.length (languageData languages) = List.length languages.
Proof.
  unfold languageData, Object_keys. rewrite length_map.
  destruct languages as [| e l]; [reflexivity |]. cbn [List.length Nat.eqb].
  rewrite (Permutation_length (Array_sort_perm _ _)). now rewrite length_map.
Qed.

(** When every language has 0 bytes, every entry carries the text [NaN]. *)
Lemma languageData_all_zero languages :
  Forall (fun e => snd e = 0) languages ->
  Forall (fun d => LanguageData.percentage d = "NaN") (languageData languages).
Proof.
  intros Hz. unfold languageData, Object_keys. rewrite length_map.
  destruct languages as [| e l]; [constructor |]. cbn [List.length Nat.eqb].
  assert (T : totalBytes (e :: l) = 0).
  { rewrite totalBytes_sumZ. induction Hz as [| x xs Hx _ IH]; simpl; lia. }
  rewrite T. apply Forall_forall. intros d Hd.
  apply Array_sort_In, in_map_iff in Hd as ([language bytes] & <- & Hin).
  rewrite Forall_forall in Hz. specialize (Hz _ Hin). simpl in Hz. subst bytes.
  reflexivity.
Qed.

(** C3: a mapping with a single language of 0 bytes has total 0, yet it is
    normalized to one entry whose percentage reads [NaN]; only the mapping
    without any language is normalized to the empty sequence. *)
Theorem language_zero_total_not_empty :
  totalBytes [("HTML", 0)] = 0
  /\ languageData [("HTML", 0)] = [LanguageData.mk "HTML" 0 "NaN"]
  /\ languageData [] = [].
Proof. repeat split. Qed.

(** ** The API client ([lib/api.ts]) *)

Lemma trimStart_blank s : whitespace_only s -> trimStart s = "".
Proof.
  induction s as [| c s IH]; simpl; [reflexivity |].
  intros [Hc Hs]. rewrite Hc. auto.
Qed.

Lemma trimEnd_not_blank c s : is_whitespace c = false -> trimEnd (String c s) <> "".
Proof.
  intros Hc. simpl. destruct (trimEnd s); [rewrite Hc |]; discriminate.
Qed.

(** [!s.trim()] holds of the strings made of white space only. *)
Lemma trim_blank_iff s : falsy_string (trim s) = true <-> whitespace_only s.
Proof.
  unfold falsy_string, trim. rewrite String.eqb_eq. split.
  - induction s as [| c s IH]; simpl; [tauto |].
    destruct (is_whitespace c) eqn:Hc.
    + intros H. split; [reflexivity | now apply IH].
    + intros H. exfalso. revert H. fold (trimEnd (String c s)).
      now apply trimEnd_not_blank.
  - intros H. now rewrite trimStart_blank.
Qed.

Section ApiFacts.
Import Api.
Variable API_BASE_URL : string.
Variable encodeURIComponent : string -> string.
Variable Number_toString : JsNumber -> string.
Variable backend : Backend.

Lemma blank_owner_or_repo owner repo :
  whitespace_only owner \/ whitespace_only repo ->
  falsy_string (trim owner) || falsy_string (trim repo) = true.
Proof.
  intros [H | H]; apply trim_blank_iff in H; rewrite H;
    [reflexivity | apply orb_true_r].
Qed.

(** A call that passes the local check issues exactly one request. *)
Lemma api_one_request_otherwise owner repo perPage :
  ~ whitespace_only owner -> ~ whitespace_only repo ->
  exists url,
  fst (getRepositoryCommits API_BASE_URL encodeURIComponent Number_toString
         backend owner repo perPage) = [url].
Proof.
  intros Ho Hr. unfold Api.getRepositoryCommits.
  destruct (falsy_string (trim owner)) eqn:E1;
    [apply trim_blank_iff in E1; tauto |].
  destruct (falsy_string (trim repo)) eqn:E2;
    [apply trim_blank_iff in E2; tauto |].
  simpl. eauto.
Qed.

(** C10: the client rejects blank input on its own, with an [ApiError] of
    status 400 and no HTTP request: a query made of white space only, an
    owner or a repository name made of white space only (details,
    contributors, issues, commits), and a falsy repository id, 0 and NaN
    included. *)
Theorem api_rejects_blank_input :
  (forall query,
      whitespace_only query ->
      searchRepositories API_BASE_URL encodeURIComponent Number_toString backend query =
      ([], Rejected (IsApiError (mkApiError "Query parameter is required" 400))))
  /\ (forall owner repo perPage page,
        whitespace_only owner \/ whitespace_only repo ->
        let rejected {T} : Call T :=
          ([], Rejected (IsApiError
                 (mkApiError "Owner and repo parameters are required" 400))) in
        getRepositoryDetails API_BASE_URL encodeURIComponent Number_toString backend
    owner repo = rejected
        /\ getRepositoryContributors API_BASE_URL encodeURIComponent Number_toString backend
       owner repo perPage page = rejected
        /\ getRepositoryIssues API_BASE_URL encodeURIComponent Number_toString backend
       owner repo = rejected
        /\ getRepositoryCommits API_BASE_URL encodeURIComponent Number_toString backend
       owner repo perPage = rejected)
  /\ (forall id,
        falsy_number id = true ->
        getRepositoryById API_BASE_URL Number_toString backend id =
        ([], Rejected (IsApiError (mkApiError "Repository ID is required" 400))))
  /\ falsy_number (Finite (inject_Z 0)) = true
  /\ falsy_number NaN = true.
Proof.
  split; [| split; [| split; [| split]]].
  - intros query H. unfold Api.searchRepositories.
    apply trim_blank_iff in H. now rewrite H.
  - intros owner repo perPage page H. apply blank_owner_or_repo in H.
    unfold Api.getRepositoryDetails, Api.getRepositoryContributors,
      Api.getRepositoryIssues, Api.getRepositoryCommits.
    rewrite H. repeat split.
  - intros id H. unfold Api.getRepositoryById. now rewrite H.
  - reflexivity.
  - reflexivity.
Qed.
End ApiFacts.

(** ** The contributor loop of the single-component page *)

Section MergerFacts.
Import Api SinglePage.
Variable pages : nat -> list Contributor.t.

(** From page [page] on, with the fuel that reaches the ceiling, the loop
    asks for the pages up to the first that is not full, or up to page 10,
    and returns everything it was given. *)
Lemma contributorLoop_spec fuel :
  forall all page,
    (page + fuel = 11)%nat -> (1 <= fuel)%nat ->
    exists k,
      (1 <= k <= fuel)%nat /\
      contributorLoop fuel (served pages) all page =
        Some (seq page k, Resolved (all ++ List.concat (map pages (seq page k)))) /\
      (forall q, (page <= q < page + k - 1)%nat ->
                 (perPage <= List.length (pages q))%nat) /\
      ((page + k - 1 = 10)%nat \/
       (List.length (pages (page + k - 1)) < perPage)%nat).
Proof.
  induction fuel as [| fuel IH]; intros all page Hsum Hfuel; [lia |].
  cbn [contributorLoop]. unfold served at 1. unfold afterPage.
  destruct (Nat.eqb_spec (List.length (pages page)) 0) as [Z | NZ].
  - (* an empty page *)
    exists 1%nat. cbn [seq map List.concat].
    apply length_zero_iff_nil in Z as E. rewrite E, !app_nil_r.
    replace (page + 1 - 1)%nat with page by lia.
    split; [lia |]. split; [reflexivity |]. split; [intros q Hq; lia |].
    right. rewrite E. cbn. unfold perPage. lia.
  - destruct (Nat.ltb_spec (List.length (pages page)) perPage) as [Short | Full].
    + (* a short page *)
      exists 1%nat. cbn [seq map List.concat]. rewrite app_nil_r.
      replace (page + 1 - 1)%nat with page by lia.
      split; [lia |]. split; [reflexivity |]. split; [intros q Hq; lia |].
      right. exact Short.
    + destruct (Nat.ltb_spec 10 (S page)) as [Ceil | More].
      * (* the ceiling *)
        exists 1%nat. cbn [seq map List.concat]. rewrite app_nil_r.
        replace (page + 1 - 1)%nat with page by lia.
        split; [lia |]. split; [reflexivity |]. split; [intros q Hq; lia |].
        left. lia.
      * destruct (IH (all ++ pages page) (S page)) as (k & Hk & Hrun & Hfull & Hstop);
          try lia.
        rewrite Hrun. exists (S k). cbn [seq map List.concat].
        rewrite <- app_assoc.
        replace (page + S k - 1)%nat with (S page + k - 1)%nat by lia.
        split; [lia |]. split; [reflexivity |]. split; [| exact Hstop].
        intros q Hq. destruct (Nat.eq_dec q page) as [-> | Hne]; [exact Full |].
        apply Hfull. lia.
Qed.

Lemma mergeContributors_spec :
  exists n,
    (1 <= n <= 10)%nat /\
    mergeContributors (served pages) =
      Some (seq 1 n, Resolved (List.concat (map pages (seq 1 n)))) /\
    (forall q, (1 <= q < n)%nat -> (100 <= List.length (pages q))%nat) /\
    (n = 10%nat \/ (List.length (pages n) < 100)%nat).
Proof.
  destruct (contributorLoop_spec 10 [] 1) as (k & Hk & Hrun & Hfull & Hstop);
    try lia.
  exists k. unfold mergeContributors. rewrite Hrun.
  replace (1 + k - 1)%nat with k in * by lia.
  split; [lia |]. split; [reflexivity |]. split; [exact Hfull |].
  destruct Hstop; [left; lia | right; assumption].
Qed.

End MergerFacts.

Import Api SinglePage.

(** C5: against pages that all arrive, the loop asks for pages 1, 2, ... in
    order and stops after the first page that is empty or has fewer than 100
    records, or after page 10; it returns the pages it was given, one after
    the other.  Pages of 100, 100 and 37 records take three requests and
    give 237 records; ten full pages give 1000 records and page 11 is not
    asked for. *)
Theorem contributor_pages_in_order (pages : nat -> list Contributor.t) :
  (exists n,
      (1 <= n <= 10)%nat /\
      mergeContributors (served pages) =
        Some (seq 1 n, Resolved (List.concat (map pages (seq 1 n)))) /\
      (forall q, (1 <= q < n)%nat -> (100 <= List.length (pages q))%nat) /\
      (n = 10%nat \/ (List.length (pages n) < 100)%nat))
  /\ (List.length (pages 1%nat) = 100%nat ->
      List.length (pages 2%nat) = 100%nat ->
      List.length (pages 3%nat) = 37%nat ->
      exists merged,
        mergeContributors (served pages) =
          Some ([1; 2; 3]%nat, Resolved merged) /\
        merged = pages 1%nat ++ pages 2%nat ++ pages 3%nat /\
        List.length merged = 237%nat)
  /\ ((forall q, (1 <= q <= 10)%nat -> List.length (pages q) = 100%nat) ->
      exists merged,
        mergeContributors (served pages) = Some (seq 1 10, Resolved merged) /\
        List.length merged = 1000%nat /\
        ~ In 11%nat (seq 1 10)).
Proof.
  destruct (mergeContributors_spec pages) as (n & Hn & Hrun & Hfull & Hstop).
  split; [exists n; auto |]. split.
  - intros L1 L2 L3.
    assert (n = 3%nat) as ->.
    { destruct (Nat.lt_ge_cases 3 n) as [G | L].
      - specialize (Hfull 3%nat ltac:(lia)). lia.
      - destruct Hstop as [-> | S]; [lia |].
        assert (n = 1 \/ n = 2 \/ n = 3)%nat as [-> | [-> | ->]] by lia; lia. }
    exists (pages 1%nat ++ pages 2%nat ++ pages 3%nat).
    split; [| split; [reflexivity |]].
    + rewrite Hrun. cbn [seq map List.concat]. now rewrite app_nil_r.
    + rewrite !length_app. lia.
  - intros L.
    assert (n = 10%nat) as ->.
    { destruct Hstop as [-> | S]; [reflexivity |].
      specialize (L n ltac:(lia)). lia. }
    exists (List.concat (map pages (seq 1 10))).
    split; [exact Hrun |]. split.
    + cbn [seq map List.concat]. rewrite !length_app.
      rewrite !L by lia. reflexivity.
    + rewrite in_seq. lia.
Qed.

(** The loop on sample pages of 100, 100 and 37 records. *)
Lemma contributor_pages_in_order_witness :
  exists merged,
    mergeContributors (served Sample.threePages) =
      Some ([1; 2; 3]%nat, Resolved merged) /\
    List.length merged = 237%nat.
Proof.
  destruct (proj1 (proj2 (contributor_pages_in_order Sample.threePages)))
    as (merged & Hrun & _ & Hlen); try reflexivity.
  exists merged. split; assumption.
Defined.

(** C2, refuted as stated: a full first page followed by a page that repeats
    its first record is merged into 101 records, two of them with the same
    identity key. *)
Lemma contributors_repeated_across_pages :
  exists merged,
    mergeContributors (served Sample.repeatingPages) =
      Some ([1; 2]%nat, Resolved merged)
    /\ List.length merged = 101%nat
    /\ ~ NoDup (map contributorKey merged).
Proof.
  exists (Sample.contributor 1 :: Sample.contributorPage 2 99
            ++ [Sample.contributor 1]).
  split; [vm_compute; reflexivity |]. split; [vm_compute; reflexivity |].
  cbn [map]. intros H. apply NoDup_cons_iff in H as [Hnotin _].
  apply Hnotin. rewrite map_app. apply in_or_app. right. now left.
Qed.

(** Lists side by side have no repeated key exactly when none of them has
    one and no two of them share one. *)
Lemma NoDup_app_iff {A : Type} (l1 l2 : list A) :
  NoDup (l1 ++ l2)
  <-> NoDup l1 /\ NoDup l2 /\ (forall x, In x l1 -> ~ In x l2).
Proof.
  induction l1 as [| a l1 IH]; cbn [app].
  - split.
    + intros H. split; [constructor |]. split; [exact H |]. intros x [].
    + now intros (_ & H & _).
  - split.
    + intros H. apply NoDup_cons_iff in H as [Hnotin H].
      apply IH in H as (H1 & H2 & Hd).
      split; [| split; [exact H2 |]].
      * constructor; [| exact H1]. intros Hin. apply Hnotin.
        apply in_or_app. now left.
      * intros x [<- | Hx] Hx2.
        -- apply Hnotin. apply in_or_app. now right.
        -- exact (Hd x Hx Hx2).
    + intros (H1 & H2 & Hd). apply NoDup_cons_iff in H1 as [Hnotin H1].
      constructor.
      * intros Hin. apply in_app_or in Hin as [Hin | Hin];
          [now apply Hnotin | exact (Hd a (or_introl eq_refl) Hin)].
      * apply IH. split; [exact H1 |]. split; [exact H2 |].
        intros x Hx. apply Hd. now right.
Qed.

Lemma NoDup_pages {A B : Type} (key : A -> B) (pages : nat -> list A) k :
  forall p,
    NoDup (map key (List.concat (map pages (seq p k))))
    <-> (forall q, (p <= q < p + k)%nat -> NoDup (map key (pages q)))
        /\ (forall q1 q2 c1 c2,
               (p <= q1)%nat -> (q1 < q2)%nat -> (q2 < p + k)%nat ->
               In c1 (pages q1) -> In c2 (pages q2) -> key c1 <> key c2).
Proof.
  induction k as [| k IH]; intros p.
  - cbn [seq map List.concat]. split.
    + intros _. split; [intros q Hq; lia | intros; lia].
    + intros _. constructor.
  - cbn [seq map List.concat]. rewrite map_app, NoDup_app_iff, IH. split.
    + intros (Hp & (Hq & Hcross) & Hd). split.
      * intros q Hrange. destruct (Nat.eq_dec q p) as [-> | Hne];
          [exact Hp | apply Hq; lia].
      * intros q1 q2 c1 c2 H1 H12 H2 Hc1 Hc2.
        destruct (Nat.eq_dec q1 p) as [-> | Hne].
        -- intros E. apply (Hd (key c1)); [now apply in_map |].
           rewrite E. apply in_map. apply in_concat.
           exists (pages q2). split; [| exact Hc2].
           apply in_map, in_seq. lia.
        -- apply (Hcross q1 q2); try assumption; lia.
    + intros (Hq & Hcross). split; [apply Hq; lia |]. split.
      * split; [intros q Hrange; apply Hq; lia |].
        intros q1 q2 c1 c2 H1 H12 H2. apply Hcross; lia.
      * intros x Hx1 Hx2.
        apply in_map_iff in Hx1 as (c1 & <- & Hc1).
        apply in_map_iff in Hx2 as (c2 & E & Hc2).
        apply in_concat in Hc2 as (l & Hl & Hc2).
        apply in_map_iff in Hl as (q2 & <- & Hq2). apply in_seq in Hq2.
        apply (Hcross p q2 c1 c2); try assumption; try lia. congruence.
Qed.

(** C2, as amended: against pages that all arrive, the merger returns the
    pages it asked for, pages 1 to [n] for some [n] from 1 to 10, one after
    the other in order of arrival.  No record is removed: the merged
    collection has as many records as those pages together, and it is free
    of repeated identity keys exactly when no page that was asked for
    holds two records with the same key and no two such pages hold records
    with the same key. *)
Theorem contributors_merged_as_fetched (pages : nat -> list Contributor.t) :
  exists n merged,
    (1 <= n <= 10)%nat
    /\ mergeContributors (served pages) = Some (seq 1 n, Resolved merged)
    /\ merged = List.concat (map pages (seq 1 n))
    /\ List.length merged
       = list_sum (map (fun q => List.length (pages q)) (seq 1 n))
    /\ (forall c, In c merged <-> exists q, (1 <= q <= n)%nat /\ In c (pages q))
    /\ (NoDup (map contributorKey merged)
        <-> (forall q, (1 <= q <= n)%nat ->
                       NoDup (map contributorKey (pages q)))
            /\ (forall q1 q2 c1 c2,
                   (1 <= q1)%nat -> (q1 < q2)%nat -> (q2 <= n)%nat ->
                   In c1 (pages q1) -> In c2 (pages q2) ->
                   contributorKey c1 <> contributorKey c2)).
Proof.
  destruct (mergeContributors_spec pages) as (n & Hn & Hrun & _).
  exists n, (List.concat (map pages (seq 1 n))).
  split; [exact Hn |]. split; [exact Hrun |]. split; [reflexivity |].
  split; [| split].
  - rewrite length_concat, map_map. reflexivity.
  - intros c. rewrite in_concat. split.
    + intros (l & Hl & Hc). apply in_map_iff in Hl as (q & <- & Hq).
      apply in_seq in Hq. exists q. split; [lia | exact Hc].
    + intros (q & Hq & Hc). exists (pages q).
      split; [apply in_map, in_seq; lia | exact Hc].
  - rewrite NoDup_pages. split.
    + intros (Hq & Hcross). split.
      * intros q Hrange. apply Hq. lia.
      * intros q1 q2 c1 c2 H1 H12 H2. apply Hcross; lia.
    + intros (Hq & Hcross). split.
      * intros q Hrange. apply Hq. lia.
      * intros q1 q2 c1 c2 H1 H12 H2. apply Hcross; lia.
Qed.

(** ** The pages under arbitrary arrival orders *)

Section SinglePageFacts.
Import Api SinglePage.
Variable API_BASE_URL : string.
Variable encodeURIComponent : string -> string.
Variable Number_toString : JsNumber -> string.
Variable backend : Backend.

Lemma catch_keeps err p :
  repository (catch err p) = repository p /\
  commits (catch err p) = commits p /\
  contributors (catch err p) = contributors p.
Proof.
  destruct err as [e |]; simpl; [destruct (status e =? 404) |]; auto.
Qed.

Lemma afterPage_Continue all page contributorsPage all' page' :
  afterPage all page contributorsPage = Continue all' page' ->
  page' = S page /\ (page' <= 10)%nat /\ all' = all ++ contributorsPage.
Proof.
  unfold afterPage.
  destruct (List.length contributorsPage =? 0)%nat; [discriminate |].
  destruct (List.length contributorsPage <? perPage)%nat; [discriminate |].
  destruct (Nat.ltb_spec 10 (S page)); [discriminate |].
  intros [= <- <-]. auto.
Qed.

(** One step of [fetchData] that does not end the cycle with success leaves
    the repository and the contributors as they were. *)
Lemma resume_keeps a p p' log next :
  resume API_BASE_URL encodeURIComponent Number_toString backend a p
    = (p', log, next) ->
  next <> Return Published ->
  repository p' = repository p /\ contributors p' = contributors p /\
  (forall err, next = Return (Failed err) -> isLoading p' = false).
Proof.
  destruct a as [[rd | err] | rd owner repo [cs | err]
                 | rd owner repo all page [cp | err]];
    cbn [resume failed].
  - destruct (ownerAndRepo (RepositoryDetails.full_name rd)) as [owner repo].
    destruct (requestCommits API_BASE_URL encodeURIComponent Number_toString
                backend owner repo) as [l r].
    intros [= <- <- <-] _. repeat split. discriminate.
  - intros [= <- <- <-] _. destruct (catch_keeps err p) as (R & _ & C).
    repeat split; assumption.
  - destruct (requestContributors API_BASE_URL encodeURIComponent
                Number_toString backend owner repo 1) as [l r].
    intros [= <- <- <-] _. repeat split. discriminate.
  - intros [= <- <- <-] _. destruct (catch_keeps err p) as (R & _ & C).
    repeat split; assumption.
  - destruct (afterPage all page cp) as [all' page' | all'].
    + destruct (requestContributors API_BASE_URL encodeURIComponent
                  Number_toString backend owner repo page') as [l r].
      intros [= <- <- <-] _. repeat split. discriminate.
    + intros [= <- <- <-] H. congruence.
  - intros [= <- <- <-] _. destruct (catch_keeps err p) as (R & _ & C).
    repeat split; assumption.
Qed.

(** A cycle that fails has published neither a repository nor contributors. *)
Lemma runCycle_failed fuel :
  forall a p p' log err,
    runCycle (resume API_BASE_URL encodeURIComponent Number_toString backend)
             fuel a p = Some (p', log, Failed err) ->
    repository p' = repository p /\ contributors p' = contributors p /\
    isLoading p' = false.
Proof.
  induction fuel as [| fuel IH]; intros a p p' log err; cbn [runCycle];
    [discriminate |].
  destruct (resume API_BASE_URL encodeURIComponent Number_toString backend a p)
    as [[p1 log1] next] eqn:R.
  destruct next as [a' | o].
  - destruct (runCycle
                (resume API_BASE_URL encodeURIComponent Number_toString backend)
                fuel a' p1) as [[[p2 log2] o] |] eqn:C; [| discriminate].
    intros [= <- <- ->].
    assert (N : Suspend a' <> Return Published) by discriminate.
    destruct (resume_keeps a p p1 log1 _ R N) as (R1 & C1 & _).
    destruct (IH a' p1 p2 log2 err C) as (R2 & C2 & L).
    repeat split; congruence.
  - intros [= <- <- ->].
    assert (N : @Return Await (Failed err) <> Return Published) by discriminate.
    destruct (resume_keeps a p p1 log1 _ R N) as (R1 & C1 & L).
    repeat split; auto. exact (L err eq_refl).
Qed.

(** The contributor loop of a cycle returns before the fuel runs out. *)
Lemma runCycle_contributors_returns fuel :
  forall rd owner repo all page r p,
    (11 <= page + fuel)%nat -> (1 <= fuel)%nat ->
    exists res,
      runCycle (resume API_BASE_URL encodeURIComponent Number_toString backend)
               fuel (AwaitContributors rd owner repo all page r) p = Some res.
Proof.
  induction fuel as [| fuel IH]; intros rd owner repo all page r p Hsum Hfuel;
    [lia |].
  cbn [runCycle resume failed]. destruct r as [cp | err]; [| eexists; reflexivity].
  destruct (afterPage all page cp) as [all' page' | all'] eqn:A; [| eexists; reflexivity].
  apply afterPage_Continue in A as (-> & Hle & ->).
  destruct (requestContributors API_BASE_URL encodeURIComponent Number_toString
              backend owner repo (S page)) as [l r].
  destruct (IH rd owner repo (all ++ cp) (S page) r p) as [[[p2 log2] o] E];
    try lia.
  rewrite E. eexists; reflexivity.
Qed.

(** [fetchData] returns within twelve steps. *)
Lemma runCycle_returns_from fuel r p :
  (10 <= fuel)%nat ->
  exists res,
    runCycle (resume API_BASE_URL encodeURIComponent Number_toString backend)
             (S (S fuel)) (AwaitRepository r) p = Some res.
Proof.
  intros Hfuel.
  cbn [runCycle resume failed]. destruct r as [rd | err];
    [| eexists; reflexivity].
  destruct (ownerAndRepo (RepositoryDetails.full_name rd)) as [owner repo].
  destruct (requestCommits API_BASE_URL encodeURIComponent Number_toString
              backend owner repo) as [l [cs | err]];
    cbn [runCycle resume failed]; [| eexists; reflexivity].
  destruct (requestContributors API_BASE_URL encodeURIComponent Number_toString
              backend owner repo 1) as [l1 r1].
  destruct (runCycle_contributors_returns fuel rd owner repo [] 1%nat r1
              (setCommits cs p)) as [[[p2 log2] o] E]; try lia.
  rewrite E. eexists; reflexivity.
Qed.

Lemma runCycle_returns r p :
  exists res,
    runCycle (resume API_BASE_URL encodeURIComponent Number_toString backend)
             12 (AwaitRepository r) p = Some res.
Proof. apply (runCycle_returns_from 10). lia. Qed.

End SinglePageFacts.

Section WorldFacts.
Context {Page Await : Type}.
Variable effect : option Z -> Page -> Page * list string * Next Await.
Variable resume : Await -> Page -> Page * list string * Next Await.

(** A response that arrives is applied to the page as it is then, whatever
    cycles have been started since the request was made. *)
Lemma step_Settle (w : World) k a :
  nth_error (cycles w) k = Some (Some a) ->
  page (step effect resume w (Settle k)) = fst (fst (resume a (page w))).
Proof.
  intros H. cbn [step]. rewrite H.
  destruct (resume a (page w)) as [[p log] next]. reflexivity.
Qed.

End WorldFacts.

(** ** Superseded fetch cycles *)

(** C1, refuted as stated: repository 2 is opened, then repository 5, and
    the responses of the cycle for 2 arrive last; both cycles have returned,
    and the page shows the repository, the contributors and the commits of
    repository 2.  The same happens to the repository of [page.tsx]. *)
Lemma stale_response_overwrites :
  cycles (run (SinglePage.effect Sample.base Sample.showNumber Sample.backend)
              (SinglePage.resume Sample.base Sample.noEncoding Sample.showNumber
                 Sample.backend)
              SinglePage.mounted Sample.staleLast) = [None; None]
  /\ SinglePage.repository
       (page (run (SinglePage.effect Sample.base Sample.showNumber Sample.backend)
                  (SinglePage.resume Sample.base Sample.noEncoding
                     Sample.showNumber Sample.backend)
                  SinglePage.mounted Sample.staleLast)) = Some Sample.two
  /\ SinglePage.contributors
       (page (run (SinglePage.effect Sample.base Sample.showNumber Sample.backend)
                  (SinglePage.resume Sample.base Sample.noEncoding
                     Sample.showNumber Sample.backend)
                  SinglePage.mounted Sample.staleLast)) = [Sample.contributor 2]
  /\ SinglePage.commits
       (page (run (SinglePage.effect Sample.base Sample.showNumber Sample.backend)
                  (SinglePage.resume Sample.base Sample.noEncoding
                     Sample.showNumber Sample.backend)
                  SinglePage.mounted Sample.staleLast)) = [Sample.byAlice]
  /\ RepositoryPage.repository
       (page (run (RepositoryPage.effect Sample.base Sample.showNumber
                     Sample.backend)
                  RepositoryPage.resume
                  RepositoryPage.mounted Sample.staleLastOne)) = Some Sample.two
  /\ Sample.two <> Sample.five.
Proof.
  repeat split; try (vm_compute; reflexivity). discriminate.
Qed.

Section StaleFacts.
Import Api.

(** On [page.tsx], with two cycles started one after the other, the
    repository shown at the end is that of the response that arrived last. *)
Lemma last_arrival_wins base show backend a b da db :
  a <> 0 -> b <> 0 ->
  snd (getRepositoryById base show backend (Finite (inject_Z a))) = Resolved da ->
  snd (getRepositoryById base show backend (Finite (inject_Z b))) = Resolved db ->
  RepositoryPage.repository
    (page (run (RepositoryPage.effect base show backend) RepositoryPage.resume
               RepositoryPage.mounted
               [Navigate (Some a); Navigate (Some b); Settle 0; Settle 1]))
  = Some db
  /\ RepositoryPage.repository
       (page (run (RepositoryPage.effect base show backend) RepositoryPage.resume
                  RepositoryPage.mounted
                  [Navigate (Some a); Navigate (Some b); Settle 1; Settle 0]))
     = Some da.
Proof.
  intros Ha Hb Ra Rb. unfold run. cbn [fold_left step RepositoryPage.effect].
  apply Z.eqb_neq in Ha, Hb. rewrite Ha, Hb.
  destruct (getRepositoryById base show backend (Finite (inject_Z a))) as [la ra].
  destruct (getRepositoryById base show backend (Finite (inject_Z b))) as [lb rb].
  simpl in Ra, Rb. subst ra rb. split; reflexivity.
Qed.

(** *** The last event that sets a part of the state *)

(** A run has no event that is singled out, or it has a last one. *)
Lemma quiet_or_last {Page Await : Type}
      (effect : option Z -> Page -> Page * list string * Next Await)
      (resume : Await -> Page -> Page * list string * Next Await)
      (sets : @World Page Await -> Event -> bool) events :
  forall w,
    quiet effect resume sets w events = true
    \/ exists pre e rest,
         events = pre ++ e :: rest
         /\ sets (run effect resume w pre) e = true
         /\ quiet effect resume sets
                  (step effect resume (run effect resume w pre) e) rest
            = true.
Proof.
  induction events as [| e events IH]; intros w; [now left |].
  destruct (IH (step effect resume w e)) as [Q | (pre & e' & rest & E & S & Q)].
  - destruct (sets w e) eqn:Se.
    + right. exists [], e, events. now repeat split.
    + left. cbn [quiet]. now rewrite Se, Q.
  - right. exists (e :: pre), e', rest. split; [now rewrite E |].
    split; [exact S | exact Q].
Qed.

(** *** What an arrival leaves alone *)

Lemma failed_keeps err p :
  SinglePage.repository (fst (fst (SinglePage.failed err p)))
  = SinglePage.repository p
  /\ SinglePage.contributors (fst (fst (SinglePage.failed err p)))
     = SinglePage.contributors p
  /\ SinglePage.commits (fst (fst (SinglePage.failed err p)))
     = SinglePage.commits p.
Proof.
  unfold SinglePage.failed, SinglePage.catch.
  destruct err as [e |]; [destruct (status e =? 404) |]; repeat split.
Qed.

Section SinglePageArrivals.
Variable base : string.
Variable enc : string -> string.
Variable show : JsNumber -> string.
Variable backend : Backend.

Let eff := SinglePage.effect base show backend.
Let res := SinglePage.resume base enc show backend.

Lemma effect_keeps_data repoId p :
  SinglePage.repository (fst (fst (eff repoId p))) = SinglePage.repository p
  /\ SinglePage.contributors (fst (fst (eff repoId p)))
     = SinglePage.contributors p
  /\ SinglePage.commits (fst (fst (eff repoId p))) = SinglePage.commits p.
Proof.
  unfold eff, SinglePage.effect.
  destruct repoId as [id |]; [destruct (id =? 0) |];
    try destruct (getRepositoryById base show backend (Finite (inject_Z id)))
      as [l r];
    repeat split.
Qed.

(** An event that does not end a contributor loop leaves the repository
    and the contributors as they are. *)
Lemma step_keeps_repository w e :
  Arrival.endsLoop w e = false ->
  SinglePage.repository (page (step eff res w e))
  = SinglePage.repository (page w)
  /\ SinglePage.contributors (page (step eff res w e))
     = SinglePage.contributors (page w).
Proof.
  intros H. destruct e as [repoId | k]; cbn [step].
  - destruct (effect_keeps_data repoId (page w)) as (R & C & _).
    destruct (eff repoId (page w)) as [[p log] next]. now split.
  - cbn [Arrival.endsLoop] in H.
    destruct (nth_error (cycles w) k) as [[a |] |]; try (now split).
    destruct a as [r | rd owner repo r | rd owner repo all pg r];
      destruct r as [v | err]; unfold res; cbn [SinglePage.resume];
      try (destruct (failed_keeps err (page w)) as (R & C & _);
           destruct (SinglePage.failed err (page w)) as [[p log] next];
           now split).
    + destruct (ownerAndRepo (RepositoryDetails.full_name v)) as [owner repo].
      destruct (SinglePage.requestCommits base enc show backend owner repo)
        as [l r].
      now split.
    + destruct (SinglePage.requestContributors base enc show backend owner
                  repo 1) as [l r].
      now split.
    + destruct (SinglePage.afterPage all pg v) as [all' pg' | all'];
        [| discriminate].
      destruct (SinglePage.requestContributors base enc show backend owner
                  repo pg') as [l r].
      now split.
Qed.

(** An event that does not bring a commit window leaves the commits as they
    are. *)
Lemma step_keeps_commits w e :
  Arrival.bringsCommits w e = false ->
  SinglePage.commits (page (step eff res w e)) = SinglePage.commits (page w).
Proof.
  intros H. destruct e as [repoId | k]; cbn [step].
  - destruct (effect_keeps_data repoId (page w)) as (_ & _ & C).
    now destruct (eff repoId (page w)) as [[p log] next].
  - cbn [Arrival.bringsCommits] in H.
    destruct (nth_error (cycles w) k) as [[a |] |]; try reflexivity.
    destruct a as [r | rd owner repo r | rd owner repo all pg r];
      destruct r as [v | err]; try discriminate;
      unfold res; cbn [SinglePage.resume];
      try (destruct (failed_keeps err (page w)) as (_ & _ & C);
           now destruct (SinglePage.failed err (page w)) as [[p log] next]).
    + destruct (ownerAndRepo (RepositoryDetails.full_name v)) as [owner repo].
      now destruct (SinglePage.requestCommits base enc show backend owner repo)
        as [l r].
    + destruct (SinglePage.afterPage all pg v) as [all' pg' | all'];
        [| reflexivity].
      now destruct (SinglePage.requestContributors base enc show backend owner
                      repo pg') as [l r].
Qed.

Lemma quiet_keeps_repository events : forall w,
  quiet eff res Arrival.endsLoop w events = true ->
  SinglePage.repository (page (run eff res w events))
  = SinglePage.repository (page w)
  /\ SinglePage.contributors (page (run eff res w events))
     = SinglePage.contributors (page w).
Proof.
  induction events as [| e events IH]; intros w H; [now split |].
  cbn [quiet] in H. apply andb_prop in H as [He H].
  apply negb_true_iff in He.
  destruct (step_keeps_repository w e He) as [R C].
  destruct (IH _ H) as [R' C'].
  cbn [run fold_left]. unfold run in R', C'. split; congruence.
Qed.

Lemma quiet_keeps_commits events : forall w,
  quiet eff res Arrival.bringsCommits w events = true ->
  SinglePage.commits (page (run eff res w events))
  = SinglePage.commits (page w).
Proof.
  induction events as [| e events IH]; intros w H; [reflexivity |].
  cbn [quiet] in H. apply andb_prop in H as [He H].
  apply negb_true_iff in He.
  pose proof (step_keeps_commits w e He) as C.
  pose proof (IH _ H) as C'.
  cbn [run fold_left]. unfold run in C'. congruence.
Qed.

End SinglePageArrivals.

Section RepositoryPageArrivals.
Variable base : string.
Variable show : JsNumber -> string.
Variable backend : Backend.

Let eff := RepositoryPage.effect base show backend.

(** On [page.tsx], an event that does not bring a repository leaves the
    repository as it is. *)
Lemma step_keeps_repository_one w e :
  Arrival.bringsRepository w e = false ->
  RepositoryPage.repository (page (step eff RepositoryPage.resume w e))
  = RepositoryPage.repository (page w).
Proof.
  intros H. destruct e as [repoId | k]; cbn [step].
  - unfold eff, RepositoryPage.effect.
    destruct repoId as [id |]; [destruct (id =? 0) |]; try reflexivity.
    now destruct (getRepositoryById base show backend (Finite (inject_Z id)))
      as [l r].
  - cbn [Arrival.bringsRepository] in H.
    destruct (nth_error (cycles w) k) as [[a |] |]; try reflexivity.
    destruct a as [[v | err]]; [discriminate |].
    cbn [RepositoryPage.resume]. unfold RepositoryPage.catch.
    destruct err as [e |]; [destruct (status e =? 404) |]; reflexivity.
Qed.

Lemma quiet_keeps_repository_one events : forall w,
  quiet eff RepositoryPage.resume Arrival.bringsRepository w events = true ->
  RepositoryPage.repository (page (run eff RepositoryPage.resume w events))
  = RepositoryPage.repository (page w).
Proof.
  induction events as [| e events IH]; intros w H; [reflexivity |].
  cbn [quiet] in H. apply andb_prop in H as [He H].
  apply negb_true_iff in He.
  pose proof (step_keeps_repository_one w e He) as R.
  pose proof (IH _ H) as R'.
  cbn [run fold_left]. unfold run in R'. congruence.
Qed.

End RepositoryPageArrivals.

(** C1, as amended: nothing guards against a superseded cycle.  A response
    is applied to the page when it arrives, whatever cycles have been
    started since.  A run has no arrival that sets a given part of the
    state, and leaves that part as it was, or it has a last one, and that
    part ends as this arrival has written it; no other event changes it: on
    [page.tsx] the repository is the last one to arrive; on the
    single-component page the commits are the last commit window to arrive,
    and the repository and the contributors are those of the cycle whose
    contributor loop was the last to end.  So, after the cycles for two
    repositories have been started, [page.tsx] ends with the repository that
    arrived last, the second one's only if it is the later one.  On the
    sample backend, with repository 2 and then repository 5 opened, the
    single-component page ends with the data of 5 when the responses of 5
    arrive after those of 2, with the data of 2 when those of 2 arrive
    after those of 5, and with the repository and the contributors of 5
    over the commits of 2 when the commit window of 2 arrives after that of
    5 and the last contributor page of 5 after that of 2. *)
Theorem responses_applied_on_arrival :
  (forall base show backend
          (w : @World RepositoryPage.Page RepositoryPage.Await) k d rest,
      nth_error (cycles w) k
        = Some (Some (RepositoryPage.AwaitRepository (Resolved d))) ->
      quiet (RepositoryPage.effect base show backend) RepositoryPage.resume
            Arrival.bringsRepository
            (step (RepositoryPage.effect base show backend)
                  RepositoryPage.resume w (Settle k)) rest = true ->
      RepositoryPage.repository
        (page (run (RepositoryPage.effect base show backend)
                   RepositoryPage.resume w (Settle k :: rest))) = Some d)
  /\ (forall base enc show backend
             (w : @World SinglePage.Page SinglePage.Await)
             k rd owner repo all pg last merged rest,
         nth_error (cycles w) k
           = Some (Some (SinglePage.AwaitContributors rd owner repo all pg
                           (Resolved last))) ->
         SinglePage.afterPage all pg last = SinglePage.Break merged ->
         quiet (SinglePage.effect base show backend)
               (SinglePage.resume base enc show backend) Arrival.endsLoop
               (step (SinglePage.effect base show backend)
                     (SinglePage.resume base enc show backend) w (Settle k))
               rest = true ->
         SinglePage.repository
           (page (run (SinglePage.effect base show backend)
                      (SinglePage.resume base enc show backend) w
                      (Settle k :: rest)))
           = Some rd
         /\ SinglePage.contributors
              (page (run (SinglePage.effect base show backend)
                         (SinglePage.resume base enc show backend) w
                         (Settle k :: rest)))
            = merged)
  /\ (forall base enc show backend
             (w : @World SinglePage.Page SinglePage.Await)
             k rd owner repo commitsData rest,
         nth_error (cycles w) k
           = Some (Some (SinglePage.AwaitCommits rd owner repo
                           (Resolved commitsData))) ->
         quiet (SinglePage.effect base show backend)
               (SinglePage.resume base enc show backend) Arrival.bringsCommits
               (step (SinglePage.effect base show backend)
                     (SinglePage.resume base enc show backend) w (Settle k))
               rest = true ->
         SinglePage.commits
           (page (run (SinglePage.effect base show backend)
                      (SinglePage.resume base enc show backend) w
                      (Settle k :: rest)))
           = commitsData)
  /\ (forall base enc show backend
             (w : @World SinglePage.Page SinglePage.Await) events,
         (quiet (SinglePage.effect base show backend)
                (SinglePage.resume base enc show backend) Arrival.endsLoop
                w events = true ->
          SinglePage.repository
            (page (run (SinglePage.effect base show backend)
                       (SinglePage.resume base enc show backend) w events))
          = SinglePage.repository (page w)
          /\ SinglePage.contributors
               (page (run (SinglePage.effect base show backend)
                          (SinglePage.resume base enc show backend) w events))
             = SinglePage.contributors (page w))
         /\ (quiet (SinglePage.effect base show backend)
                   (SinglePage.resume base enc show backend)
                   Arrival.bringsCommits w events = true ->
             SinglePage.commits
               (page (run (SinglePage.effect base show backend)
                          (SinglePage.resume base enc show backend) w events))
             = SinglePage.commits (page w)))
  /\ (forall base show backend
             (w : @World RepositoryPage.Page RepositoryPage.Await) events,
         quiet (RepositoryPage.effect base show backend) RepositoryPage.resume
               Arrival.bringsRepository w events = true ->
         RepositoryPage.repository
           (page (run (RepositoryPage.effect base show backend)
                      RepositoryPage.resume w events))
         = RepositoryPage.repository (page w))
  /\ (forall (Page Await : Type)
             (effect : option Z -> Page -> Page * list string * Next Await)
             (resume : Await -> Page -> Page * list string * Next Await)
             (sets : @World Page Await -> Event -> bool) w events,
         quiet effect resume sets w events = true
         \/ exists pre e rest,
              events = pre ++ e :: rest
              /\ sets (run effect resume w pre) e = true
              /\ quiet effect resume sets
                       (step effect resume (run effect resume w pre) e) rest
                 = true)
  /\ (forall base show backend a b da db,
         a <> 0 -> b <> 0 ->
         snd (getRepositoryById base show backend (Finite (inject_Z a)))
           = Resolved da ->
         snd (getRepositoryById base show backend (Finite (inject_Z b)))
           = Resolved db ->
         RepositoryPage.repository
           (page (run (RepositoryPage.effect base show backend)
                      RepositoryPage.resume RepositoryPage.mounted
                      [Navigate (Some a); Navigate (Some b); Settle 0; Settle 1]))
           = Some db
         /\ RepositoryPage.repository
              (page (run (RepositoryPage.effect base show backend)
                         RepositoryPage.resume RepositoryPage.mounted
                         [Navigate (Some a); Navigate (Some b);
                          Settle 1; Settle 0]))
            = Some da)
  /\ (Sample.shown Sample.freshLast
      = (Some Sample.five, [Sample.contributor 5], [Sample.byBob])
      /\ Sample.shown Sample.staleLast
         = (Some Sample.two, [Sample.contributor 2], [Sample.byAlice])
      /\ Sample.shown Sample.crossed
         = (Some Sample.five, [Sample.contributor 5], [Sample.byAlice])).
Proof.
  split; [| split; [| split; [| split; [| split; [| split; [| split]]]]]].
  - intros base show backend w k d rest H Q.
    change (run ?e ?r w (Settle k :: rest))
      with (run e r (step e r w (Settle k)) rest).
    rewrite (quiet_keeps_repository_one _ _ _ _ _ Q).
    now rewrite (step_Settle _ _ w k _ H).
  - intros base enc show backend w k rd owner repo all pg last merged rest
           H A Q.
    change (run ?e ?r w (Settle k :: rest))
      with (run e r (step e r w (Settle k)) rest).
    destruct (quiet_keeps_repository _ _ _ _ _ _ Q) as [R C].
    rewrite R, C, (step_Settle _ _ w k _ H). cbn [SinglePage.resume].
    rewrite A. split; reflexivity.
  - intros base enc show backend w k rd owner repo commitsData rest H Q.
    change (run ?e ?r w (Settle k :: rest))
      with (run e r (step e r w (Settle k)) rest).
    rewrite (quiet_keeps_commits _ _ _ _ _ _ Q), (step_Settle _ _ w k _ H).
    cbn [SinglePage.resume].
    destruct (SinglePage.requestContributors base enc show backend owner repo 1)
      as [l r].
    reflexivity.
  - intros base enc show backend w events. split.
    + apply quiet_keeps_repository.
    + apply quiet_keeps_commits.
  - intros base show backend w events. apply quiet_keeps_repository_one.
  - intros Page Await effect resume sets w events. apply quiet_or_last.
  - exact last_arrival_wins.
  - repeat split; vm_compute; reflexivity.
Qed.

End StaleFacts.

(** The crossed arrivals on the sample backend, from the facts about the
    last arrival: the last contributor page to arrive is that of repository
    5, the last commit window that of repository 2. *)
Lemma responses_applied_on_arrival_witness :
  SinglePage.repository
    (page (run (SinglePage.effect Sample.base Sample.showNumber Sample.backend)
               (SinglePage.resume Sample.base Sample.noEncoding
                  Sample.showNumber Sample.backend)
               SinglePage.mounted Sample.crossed)) = Some Sample.five
  /\ SinglePage.commits
       (page (run (SinglePage.effect Sample.base Sample.showNumber
                     Sample.backend)
                  (SinglePage.resume Sample.base Sample.noEncoding
                     Sample.showNumber Sample.backend)
                  SinglePage.mounted Sample.crossed)) = [Sample.byAlice].
Proof.
  destruct responses_applied_on_arrival as (_ & Hrepo & Hcommits & _).
  split.
  - refine (proj1 (Hrepo Sample.base Sample.noEncoding Sample.showNumber
                     Sample.backend
                     (run (SinglePage.effect Sample.base Sample.showNumber
                             Sample.backend)
                          (SinglePage.resume Sample.base Sample.noEncoding
                             Sample.showNumber Sample.backend)
                          SinglePage.mounted
                          [Navigate (Some 2); Navigate (Some 5);
                           Settle 0; Settle 1; Settle 1; Settle 0; Settle 0])
                     1%nat Sample.five "o" (Some "five") [] 1%nat
                     [Sample.contributor 5] [Sample.contributor 5] [] _ _ _));
      vm_compute; reflexivity.
  - refine (Hcommits Sample.base Sample.noEncoding Sample.showNumber
              Sample.backend
              (run (SinglePage.effect Sample.base Sample.showNumber
                      Sample.backend)
                   (SinglePage.resume Sample.base Sample.noEncoding
                      Sample.showNumber Sample.backend)
                   SinglePage.mounted
                   [Navigate (Some 2); Navigate (Some 5);
                    Settle 0; Settle 1; Settle 1])
              0%nat Sample.two "o" (Some "two") [Sample.byAlice]
              [Settle 0; Settle 1] _ _);
      vm_compute; reflexivity.
Defined.

(** ** Failed fetches *)

Section LoopInCycle.
Import Api SinglePage.
Variable API_BASE_URL : string.
Variable encodeURIComponent : string -> string.
Variable Number_toString : JsNumber -> string.
Variable backend : Backend.

Lemma contributorLoop_head fuel getPage all pg asked r :
  contributorLoop fuel getPage all pg = Some (asked, r) ->
  asked = pg :: tl asked.
Proof.
  destruct fuel as [| fuel]; cbn [contributorLoop]; [discriminate |].
  destruct (getPage pg) as [cp | err]; [| now intros [= <- <-]].
  destruct (afterPage all pg cp) as [all' pg' | all']; [| now intros [= <- <-]].
  destruct (contributorLoop fuel getPage all' pg') as [[asked' r'] |];
    [| discriminate].
  now intros [= <- <-].
Qed.

(** The contributor loop, as [fetchData] runs it from one [await] to the
    next, is [contributorLoop] on the pages of the contributors endpoint:
    the requests it issues after the first are those of the pages asked for,
    what it returns is published with the repository, and a rejected page
    takes the cycle to its [catch]. *)
Lemma runCycle_contributorLoop fuel :
  forall rd owner repo all pg p,
    runCycle (resume API_BASE_URL encodeURIComponent Number_toString backend)
      fuel
      (AwaitContributors rd owner repo all pg
         (pageSource API_BASE_URL encodeURIComponent Number_toString
            backend owner repo pg)) p
    = match contributorLoop fuel
              (pageSource API_BASE_URL encodeURIComponent Number_toString
                 backend owner repo) all pg with
      | Some (asked, r) =>
          Some (match r with
                | Resolved merged =>
                    setIsLoading false
                      (setContributors merged (setRepository rd p))
                | Rejected err => setIsLoading false (catch err p)
                end,
                flat_map
                  (fun q => fst (requestContributors API_BASE_URL
                                   encodeURIComponent Number_toString backend
                                   owner repo q))
                  (tl asked),
                match r with
                | Resolved _ => Published
                | Rejected err => Failed err
                end)
      | None => None
      end.
Proof.
  induction fuel as [| fuel IH]; intros rd owner repo all pg p;
    [reflexivity |].
  cbn [contributorLoop runCycle resume failed].
  destruct (pageSource API_BASE_URL encodeURIComponent Number_toString backend
              owner repo pg) as [cp | err] eqn:S; [| reflexivity].
  destruct (afterPage all pg cp) as [all' pg' | all']; [| reflexivity].
  specialize (IH rd owner repo all' pg' p).
  unfold pageSource in IH at 1.
  destruct (requestContributors API_BASE_URL encodeURIComponent
              Number_toString backend owner repo pg') as [l r] eqn:Q.
  cbn [snd] in IH. rewrite IH.
  destruct (contributorLoop fuel
              (pageSource API_BASE_URL encodeURIComponent Number_toString
                 backend owner repo) all' pg') as [[asked r'] |] eqn:L;
    [| reflexivity].
  apply contributorLoop_head in L. cbn [tl]. rewrite L at 2.
  cbn [flat_map]. now rewrite Q.
Qed.

End LoopInCycle.

(** C4, refuted as stated: with the commits endpoint failing, the cards that
    show commits report the error, while the contributors card has published
    its contributors. *)
Lemma commit_failure_leaves_contributors :
  Card.error
    (Card.commitTimeline
       (Card.mounted Sample.base Sample.noEncoding Sample.showNumber
          Sample.commitsDown "o/two")) = Some "Failed to fetch commits"
  /\ Card.error
       (Card.contributorsList
          (Card.mounted Sample.base Sample.noEncoding Sample.showNumber
             Sample.commitsDown "o/two")) = None
  /\ Card.data
       (Card.contributorsList
          (Card.mounted Sample.base Sample.noEncoding Sample.showNumber
             Sample.commitsDown "o/two")) = [Sample.contributor 2].
Proof. repeat split. Qed.

Section FailureFacts.
Import Api.

Lemma fetch_rejected {T : Type} (call : Call T) fallback s err :
  snd call = Rejected err ->
  Card.data (snd (Card.fetch call fallback s)) = Card.data s
  /\ Card.error (snd (Card.fetch call fallback s)) <> None
  /\ Card.isLoading (snd (Card.fetch call fallback s)) = false.
Proof.
  destruct call as [log r]. simpl. intros ->.
  destruct err as [e |]; simpl; repeat split; discriminate.
Qed.

Lemma fetch_resolved {T : Type} (call : Call T) fallback s value :
  snd call = Resolved value ->
  snd (Card.fetch call fallback s) = Card.mkState value false None.
Proof. destruct call as [log r]. simpl. now intros ->. Qed.

(** C4, as amended: a failed fetch fails the view that issued it, not the
    page.  Each card depends on its own endpoint only: the contributors card
    is the same whatever the other endpoints do, and so are the cards that
    show commits; a card whose fetch is rejected keeps its data and shows an
    error, a card whose fetch resolves publishes the data.  In the
    single-component page a fetch cycle always returns; a rejected
    commit-window fetch or contributor page ends it at once, and a cycle
    that has failed has published neither a repository nor contributors. *)
Theorem failure_is_per_view :
  (forall base enc show b1 b2 full_name,
      contributors b1 = contributors b2 ->
      Card.contributorsList (Card.mounted base enc show b1 full_name)
      = Card.contributorsList (Card.mounted base enc show b2 full_name))
  /\ (forall base enc show b1 b2 full_name,
         commits b1 = commits b2 ->
         Card.commitTimeline (Card.mounted base enc show b1 full_name)
         = Card.commitTimeline (Card.mounted base enc show b2 full_name)
         /\ Card.userImpact (Card.mounted base enc show b1 full_name)
            = Card.userImpact (Card.mounted base enc show b2 full_name))
  /\ (forall (T : Type) (call : Call T) fallback s err,
         snd call = Rejected err ->
         Card.data (snd (Card.fetch call fallback s)) = Card.data s
         /\ Card.error (snd (Card.fetch call fallback s)) <> None
         /\ Card.isLoading (snd (Card.fetch call fallback s)) = false)
  /\ (forall (T : Type) (call : Call T) fallback s value,
         snd call = Resolved value ->
         snd (Card.fetch call fallback s) = Card.mkState value false None)
  /\ (forall base enc show backend r p,
         exists res,
           runCycle (SinglePage.resume base enc show backend) 12
                    (SinglePage.AwaitRepository r) p = Some res)
  /\ (forall base enc show backend rd owner repo all pg err p,
         SinglePage.resume base enc show backend
           (SinglePage.AwaitCommits rd owner repo (Rejected err)) p
         = (SinglePage.setIsLoading false (SinglePage.catch err p), [],
            Return (Failed err))
         /\ SinglePage.resume base enc show backend
              (SinglePage.AwaitContributors rd owner repo all pg (Rejected err)) p
            = (SinglePage.setIsLoading false (SinglePage.catch err p), [],
               Return (Failed err)))
  /\ (forall base enc show backend fuel a p p' log err,
         runCycle (SinglePage.resume base enc show backend) fuel a p
           = Some (p', log, Failed err) ->
         SinglePage.repository p' = SinglePage.repository p
         /\ SinglePage.contributors p' = SinglePage.contributors p
         /\ SinglePage.isLoading p' = false).
Proof.
  split; [| split; [| split; [| split; [| split; [| split]]]]].
  - intros base enc show b1 b2 full_name E.
    unfold Card.mounted, Card.fetchContributors, withRepo,
      getRepositoryContributors.
    destruct (ownerAndRepo full_name) as [owner [repo |]]; cbn [Card.contributorsList];
      [| reflexivity].
    now rewrite E.
  - intros base enc show b1 b2 full_name E.
    unfold Card.mounted, Card.fetchCommits, withRepo, getRepositoryCommits.
    destruct (ownerAndRepo full_name) as [owner [repo |]];
      cbn [Card.commitTimeline Card.userImpact]; [| split; reflexivity].
    rewrite E. split; reflexivity.
  - intros T call fallback s err. apply fetch_rejected.
  - intros T call fallback s value. apply fetch_resolved.
  - intros base enc show backend r p. apply runCycle_returns.
  - intros. split; reflexivity.
  - intros base enc show backend fuel a p p' log err.
    apply runCycle_failed.
Qed.

End FailureFacts.

(** A cycle of the single-component page in which the contributor page is
    rejected, on the sample backend. *)
Lemma failure_is_per_view_witness :
  exists p log err,
    runCycle (SinglePage.resume Sample.base Sample.noEncoding Sample.showNumber
                Sample.contributorsDown) 12
             (SinglePage.AwaitRepository (Api.Resolved Sample.two))
             SinglePage.initial
    = Some (p, log, Failed err)
    /\ SinglePage.repository p = None
    /\ SinglePage.contributors p = [].
Proof.
  destruct (runCycle
              (SinglePage.resume Sample.base Sample.noEncoding Sample.showNumber
                 Sample.contributorsDown) 12
              (SinglePage.AwaitRepository (Api.Resolved Sample.two))
              SinglePage.initial) as [[[p log] o] |] eqn:E;
    [| vm_compute in E; discriminate].
  assert (O : exists err, o = Failed err).
  { vm_compute in E. injection E as _ _ <-. eexists; reflexivity. }
  destruct O as [err ->]. exists p, log, err. split; [reflexivity |].
  destruct (proj2 (proj2 (proj2 (proj2 (proj2 (proj2 failure_is_per_view)))))
              _ _ _ _ _ _ _ _ _ _ E) as (R & C & _).
  split; assumption.
Defined.

(** ** The aggregations on sample data *)

(** Two identities with one commit each: the one seen first ranks first. *)
Lemma impact_ranking_stable_witness :
  exists i j,
    firstSeen (KStr "bob@x.com") [Sample.byBob; Sample.byAlice] = Some i
    /\ firstSeen (KNum 42) [Sample.byBob; Sample.byAlice] = Some j
    /\ (i < j)%nat.
Proof.
  apply (proj1 (proj2 (proj2 (impact_ranking_stable
                                [Sample.byBob; Sample.byAlice])))
           (KStr "bob@x.com") (entryOf 1 Sample.byBob)
           (KNum 42) (entryOf 1 Sample.byAlice)).
  - apply before_here. left. reflexivity.
  - reflexivity.
Defined.

(** The entry of an identity with two commits in a window of four, one of
    them unattributable. *)
Lemma impact_entries_have_commits_witness :
  ContributorStats.commitCount (toStats 4 (entryOf 2 Sample.byAlice)) = 2
  /\ 1 <= commitsOf (KNum 42)
            [Sample.byAlice; Sample.byNobody; Sample.byBob; Sample.byAlice].
Proof.
  destruct (proj2 (proj2 (impact_entries_have_commits
                            [Sample.byAlice; Sample.byNobody; Sample.byBob;
                             Sample.byAlice]))
              (KNum 42) (entryOf 2 Sample.byAlice)) as (_ & Hpos & _).
  - left. reflexivity.
  - split; [reflexivity | exact Hpos].
Defined.

(** A query of two spaces, and the id 0, on the sample host. *)
Lemma api_rejects_blank_input_witness :
  Api.searchRepositories Sample.base Sample.noEncoding Sample.showNumber
    Sample.backend "  "
  = ([], Api.Rejected (Api.IsApiError
                         (Api.mkApiError "Query parameter is required" 400)))
  /\ Api.getRepositoryById Sample.base Sample.showNumber Sample.backend
       (Finite (inject_Z 0))
     = ([], Api.Rejected (Api.IsApiError
                            (Api.mkApiError "Repository ID is required" 400))).
Proof.
  destruct (api_rejects_blank_input Sample.base Sample.noEncoding
              Sample.showNumber Sample.backend) as (Q & _ & I & _).
  split.
  - apply Q. simpl. auto.
  - apply I. reflexivity.
Defined.

(* ================================================================= *)
(** * The remaining views *)

(** ** Pages of the contributors list *)

(** [Math.ceil(a / b)] is the least integer [c] with [a <= b * c]. *)
Lemma Math_ceil_quotient_spec a b :
  0 < b ->
  b * (Math_ceil_quotient a b - 1) < a <= b * Math_ceil_quotient a b.
Proof.
  intros Hb. unfold Math_ceil_quotient, Qceiling, Qfloor.
  destruct b as [| p | p]; try lia.
  cbn [inject_Z Qdiv Qinv Qnum Qden Qmult Qopp].
  rewrite Z.mul_1_r, Pos.mul_1_l.
  pose proof (Z.div_mod (- a) (Z.pos p) ltac:(lia)) as E.
  pose proof (Z.mod_pos_bound (- a) (Z.pos p) ltac:(lia)) as B.
  nia.
Qed.

Lemma Math_ceil_quotient_unique a b c :
  0 < b -> b * (c - 1) < a <= b * c -> Math_ceil_quotient a b = c.
Proof.
  intros Hb H. pose proof (Math_ceil_quotient_spec a b Hb). nia.
Qed.

Lemma firstn_plus {A : Type} (a b : nat) (l : list A) :
  firstn (a + b) l = firstn a l ++ firstn b (skipn a l).
Proof.
  revert l. induction a as [| a IH]; intros l; [reflexivity |].
  destruct l as [| x l]; cbn [Nat.add firstn skipn app].
  - now rewrite firstn_nil.
  - now rewrite IH.
Qed.

(** A slice of a hundred from a non-negative index. *)
Lemma Array_slice_100 {A : Type} (l : list A) (start : Z) :
  0 <= start ->
  Array_slice l start (start + 100)
  = firstn 100 (skipn (Z.to_nat start) l).
Proof.
  intros Hs. unfold Array_slice, relativeIndex.
  destruct (Z.ltb_spec start 0); [lia |].
  destruct (Z.ltb_spec (start + 100) 0); [lia |].
  set (len := Z.of_nat (List.length l)).
  destruct (Z.le_gt_cases len start) as [Hl | Hl].
  - rewrite (Z.min_r start len) by lia.
    rewrite !skipn_all2 by lia. now rewrite !firstn_nil.
  - rewrite (Z.min_l start len) by lia.
    destruct (Z.le_gt_cases (start + 100) len) as [He | He].
    + rewrite Z.min_l by lia. f_equal. lia.
    + rewrite Z.min_r by lia.
      assert (L : List.length (skipn (Z.to_nat start) l)
                  = Z.to_nat (len - start)).
      { rewrite length_skipn. lia. }
      rewrite !firstn_all2; [reflexivity | lia | lia].
Qed.

Lemma paginatedContributors_chunk contributors p :
  1 <= p ->
  ContributorsList.paginatedContributors contributors p
  = firstn 100 (skipn (100 * Z.to_nat (p - 1)) contributors).
Proof.
  intros Hp. unfold ContributorsList.paginatedContributors,
    ContributorsList.endIndex, ContributorsList.startIndex,
    ContributorsList.ITEMS_PER_PAGE.
  rewrite Array_slice_100 by lia. do 2 f_equal. lia.
Qed.

(** The pages [lo], ..., [lo + n - 1] side by side. *)
Lemma pages_concat contributors n : forall lo,
  1 <= lo ->
  List.concat (map (ContributorsList.paginatedContributors contributors)
                   (Zrange lo n))
  = firstn (100 * n) (skipn (100 * Z.to_nat (lo - 1)) contributors).
Proof.
  induction n as [| n IH]; intros lo Hlo.
  - reflexivity.
  - cbn [Zrange map List.concat].
    rewrite IH by lia. rewrite paginatedContributors_chunk by assumption.
    replace (100 * S n)%nat with (100 + 100 * n)%nat by lia.
    rewrite firstn_plus. f_equal. rewrite skipn_skipn. do 2 f_equal. lia.
Qed.

Lemma totalPages_spec contributors :
  100 * (ContributorsList.totalPages contributors - 1)
  < Z.of_nat (List.length contributors)
  <= 100 * ContributorsList.totalPages contributors.
Proof.
  unfold ContributorsList.totalPages, ContributorsList.ITEMS_PER_PAGE.
  apply Math_ceil_quotient_spec. lia.
Qed.

Lemma page_not_empty contributors p :
  1 <= p <= ContributorsList.totalPages contributors ->
  ContributorsList.paginatedContributors contributors p <> [].
Proof.
  intros Hp E. pose proof (totalPages_spec contributors) as T.
  rewrite paginatedContributors_chunk in E by lia.
  apply (f_equal (@List.length _)) in E.
  rewrite length_firstn, length_skipn in E. cbn [List.length] in E. lia.
Qed.

(** X1: the pages of the contributors list partition the list.  Side by
    side, the pages 1 to [totalPages] give the contributors back in order;
    no page holds more than a hundred records, whatever the page number;
    every page from 1 to [totalPages] holds at least one, and every later
    page is empty; record [i] of page [p] is record
    [(p - 1) * 100 + i] of the list. *)
Theorem contributor_pages_partition (contributors : list Contributor.t) :
  List.concat
    (map (ContributorsList.paginatedContributors contributors)
         (Zrange 1 (Z.to_nat (ContributorsList.totalPages contributors))))
  = contributors
  /\ (forall p,
         (List.length (ContributorsList.paginatedContributors contributors p)
          <= 100)%nat)
  /\ (forall p,
         1 <= p <= ContributorsList.totalPages contributors ->
         ContributorsList.paginatedContributors contributors p <> [])
  /\ (forall p,
         ContributorsList.totalPages contributors < p ->
         ContributorsList.paginatedContributors contributors p = [])
  /\ (forall p i,
         1 <= p -> (i < 100)%nat ->
         nth_error (ContributorsList.paginatedContributors contributors p) i
         = nth_error contributors
             (Z.to_nat (ContributorsList.startIndex p) + i)).
Proof.
  pose proof (totalPages_spec contributors) as T.
  split; [| split; [| split; [| split]]].
  - rewrite pages_concat by lia. cbn [Z.sub Z.to_nat Nat.mul skipn].
    apply firstn_all2. lia.
  - intros p. unfold ContributorsList.paginatedContributors, Array_slice,
      ContributorsList.endIndex, ContributorsList.startIndex,
      ContributorsList.ITEMS_PER_PAGE, relativeIndex.
    rewrite length_firstn.
    destruct (Z.ltb_spec ((p - 1) * 100) 0);
      destruct (Z.ltb_spec ((p - 1) * 100 + 100) 0); lia.
  - apply page_not_empty.
  - intros p Hp. rewrite paginatedContributors_chunk by lia.
    rewrite skipn_all2 by lia. apply firstn_nil.
  - intros p i Hp Hi. rewrite paginatedContributors_chunk by assumption.
    rewrite nth_error_firstn.
    destruct (Nat.ltb_spec i 100); [| lia].
    rewrite nth_error_skipn. f_equal.
    unfold ContributorsList.startIndex, ContributorsList.ITEMS_PER_PAGE. lia.
Qed.

Lemma controlsRendered_pages contributors :
  ContributorsList.controlsRendered contributors = true ->
  2 <= ContributorsList.totalPages contributors.
Proof.
  unfold ContributorsList.controlsRendered, ContributorsList.ITEMS_PER_PAGE.
  intros H. apply Z.ltb_lt in H.
  pose proof (totalPages_spec contributors). lia.
Qed.

Lemma click_in_range contributors currentPage b :
  1 <= currentPage <= Z.max 1 (ContributorsList.totalPages contributors) ->
  1 <= ContributorsList.click contributors currentPage b
    <= Z.max 1 (ContributorsList.totalPages contributors).
Proof.
  intros H. unfold ContributorsList.click.
  destruct (ContributorsList.controlsRendered contributors) eqn:R;
    cbn [andb]; [| assumption].
  apply controlsRendered_pages in R.
  destruct (negb (ContributorsList.disabled contributors b currentPage));
    [| assumption].
  destruct b; unfold ContributorsList.handlePrevious,
    ContributorsList.handleNext; lia.
Qed.

Lemma pageAfter_in_range contributors clicks : forall currentPage,
  1 <= currentPage <= Z.max 1 (ContributorsList.totalPages contributors) ->
  1 <= fold_left (ContributorsList.click contributors) clicks currentPage
    <= Z.max 1 (ContributorsList.totalPages contributors).
Proof.
  induction clicks as [| b clicks IH]; intros currentPage H; [assumption |].
  cbn [fold_left]. apply IH. now apply click_in_range.
Qed.

(** X2: the page shown by the contributors list is always a page of the
    list.  After any series of clicks on [Previous] and [Next], the current
    page is at least 1; when there are contributors it is at most
    [totalPages] and the page shown is not empty.  The controls are what
    keeps it so: they are rendered only for two pages or more, whereas on
    an empty list [totalPages] is 0 and [handleNext] itself answers 0. *)
Theorem contributor_page_in_range
        (contributors : list Contributor.t)
        (clicks : list ContributorsList.Button) :
  1 <= ContributorsList.pageAfter contributors clicks
  /\ (contributors <> [] ->
      ContributorsList.pageAfter contributors clicks
        <= ContributorsList.totalPages contributors
      /\ ContributorsList.paginatedContributors contributors
           (ContributorsList.pageAfter contributors clicks) <> [])
  /\ (ContributorsList.controlsRendered contributors = true ->
      2 <= ContributorsList.totalPages contributors)
  /\ (forall prev, 0 <= prev -> ContributorsList.handleNext [] prev = 0).
Proof.
  pose proof (totalPages_spec contributors) as T.
  assert (R : 1 <= ContributorsList.pageAfter contributors clicks
              <= Z.max 1 (ContributorsList.totalPages contributors)).
  { apply pageAfter_in_range. lia. }
  split; [lia |]. split; [| split].
  - intros NE.
    assert (0 < Z.of_nat (List.length contributors)).
    { destruct contributors; [congruence | cbn [List.length]; lia]. }
    assert (ContributorsList.pageAfter contributors clicks
            <= ContributorsList.totalPages contributors) by lia.
    split; [assumption |]. apply page_not_empty. lia.
  - apply controlsRendered_pages.
  - intros prev Hprev. unfold ContributorsList.handleNext.
    assert (E : ContributorsList.totalPages [] = 0) by reflexivity.
    rewrite E. lia.
Qed.

(** ** Impact by contributor id in the single-component page *)

Section SinglePageStatsFacts.
Import SinglePageStats.

Lemma authoredBy_cons id c commits :
  authoredBy id (c :: commits)
  = (match Commit.author c with
     | Some author => if User.id author =? id then 1 else 0
     | None => 0
     end) + authoredBy id commits.
Proof.
  unfold authoredBy. cbn [filter].
  destruct (Commit.author c) as [author |]; [| lia].
  destruct (User.id author =? id); cbn [List.length]; lia.
Qed.

Lemma authoredBy_nonneg id commits : 0 <= authoredBy id commits.
Proof. unfold authoredBy. lia. Qed.

Lemma Zeqb_eq_iff a b : (a =? b) = true <-> a = b.
Proof. apply Z.eqb_eq. Qed.

(** What the counting loop maintains, from any map that already holds the
    counts of the commits [seen]. *)
Lemma countAuthor_counts commits : forall counts seen,
  (forall id, id <> 0 -> get_or_0 counts id = authoredBy id seen) ->
  get_or_0 counts 0 = 0 ->
  (forall id, id <> 0 ->
     get_or_0 (fold_left countAuthor commits counts) id
     = authoredBy id (seen ++ commits))
  /\ get_or_0 (fold_left countAuthor commits counts) 0 = 0.
Proof.
  induction commits as [| c commits IH]; intros counts seen H H0.
  - rewrite app_nil_r. auto.
  - cbn [fold_left].
    replace (seen ++ c :: commits) with ((seen ++ [c]) ++ commits)
      by now rewrite <- app_assoc.
    apply IH.
    + intros id Hid. unfold countAuthor.
      assert (A : authoredBy id (seen ++ [c])
                  = authoredBy id seen
                    + match Commit.author c with
                      | Some author => if User.id author =? id then 1 else 0
                      | None => 0
                      end).
      { unfold authoredBy. rewrite filter_app, length_app. cbn [filter].
        destruct (Commit.author c) as [author |]; cbn [List.length]; [| lia].
        destruct (User.id author =? id); cbn [List.length]; lia. }
      rewrite A. destruct (Commit.author c) as [author |];
        [| rewrite H by assumption; lia].
      destruct (Z.eqb_spec (User.id author) 0) as [E0 | N0]; cbn [negb].
      * destruct (Z.eqb_spec (User.id author) id); [congruence |].
        rewrite H by assumption. lia.
      * unfold get_or_0 at 1. rewrite (Map_get_set Z.eqb Zeqb_eq_iff).
        destruct (Z.eqb_spec id (User.id author)) as [-> | N].
        -- rewrite Z.eqb_refl. rewrite H by assumption.
           pose proof (authoredBy_nonneg (User.id author) seen).
           destruct (Z.eqb_spec (authoredBy (User.id author) seen + 1) 0); lia.
        -- destruct (Z.eqb_spec (User.id author) id); [congruence |].
           fold (get_or_0 counts id). rewrite H by assumption. lia.
    + unfold countAuthor. destruct (Commit.author c) as [author |];
        [| assumption].
      destruct (Z.eqb_spec (User.id author) 0) as [E0 | N0]; cbn [negb];
        [assumption |].
      unfold get_or_0. rewrite (Map_get_set Z.eqb Zeqb_eq_iff).
      destruct (Z.eqb_spec 0 (User.id author)); [congruence |].
      exact H0.
Qed.

Lemma commitCounts_spec commits id :
  get_or_0 (commitCountsFromLast100 commits) id
  = if id =? 0 then 0 else authoredBy id commits.
Proof.
  destruct (countAuthor_counts commits [] []) as [H H0].
  - intros i _. reflexivity.
  - reflexivity.
  - destruct (Z.eqb_spec id 0) as [-> | N]; [exact H0 |].
    now apply H.
Qed.

Lemma toStats_commitCount commits c :
  commitCount (toStats commits c)
  = if Contributor.id c =? 0 then 0
    else authoredBy (Contributor.id c) commits.
Proof. unfold toStats. cbn [commitCount]. apply commitCounts_spec. Qed.

Lemma totalCommits_length commits :
  commits <> [] -> totalCommits commits = Z.of_nat (List.length commits).
Proof.
  intros NE. unfold totalCommits.
  destruct commits; [congruence | reflexivity].
Qed.

Lemma totalCommits_pos commits : 0 < totalCommits commits.
Proof.
  unfold totalCommits. destruct commits; cbn [List.length Nat.eqb]; lia.
Qed.

Lemma toStats_percentage commits c :
  (percentage (toStats commits c)
   == inject_Z (commitCount (toStats commits c))
      / inject_Z (totalCommits commits) * inject_Z 100)%Q.
Proof.
  unfold toStats. cbn [percentage commitCount].
  pose proof (totalCommits_pos commits) as P.
  destruct (Z.ltb_spec 0 (totalCommits commits)); [| lia].
  apply Qred_correct.
Qed.

(** The percentages of two entries compare as their counts do. *)
Lemma percentage_le commits a b :
  (percentage (toStats commits b) <= percentage (toStats commits a))%Q
  <-> commitCount (toStats commits b) <= commitCount (toStats commits a).
Proof.
  rewrite !toStats_percentage.
  pose proof (totalCommits_pos commits) as P.
  set (T := totalCommits commits) in *.
  set (x := commitCount (toStats commits a)).
  set (y := commitCount (toStats commits b)).
  assert (TQ : (0 < inject_Z T)%Q).
  { change 0%Q with (inject_Z 0). now rewrite <- Zlt_Qlt. }
  split.
  - intros H.
    apply Qmult_le_r in H; [| reflexivity].
    unfold Qdiv in H. apply Qmult_le_r in H;
      [| now apply Qinv_lt_0_compat].
    now rewrite <- Zle_Qle in H.
  - intros H.
    apply Qmult_le_r; [reflexivity |].
    unfold Qdiv. apply Qmult_le_r; [now apply Qinv_lt_0_compat |].
    now rewrite <- Zle_Qle.
Qed.

Lemma byPercentage_le a b :
  byPercentage a b <= 0 <-> (percentage b <= percentage a)%Q.
Proof.
  unfold byPercentage. rewrite Qle_alt.
  destruct (percentage b ?= percentage a)%Q; split; intros H;
    try lia; try discriminate; congruence.
Qed.

Lemma byPercentage_trans x y z :
  byPercentage x y <= 0 -> byPercentage y z <= 0 -> byPercentage x z <= 0.
Proof.
  rewrite !byPercentage_le. intros H1 H2. now apply Qle_trans with (percentage y).
Qed.

Lemma byPercentage_total x y : byPercentage x y > 0 -> byPercentage y x <= 0.
Proof.
  intros H. apply byPercentage_le.
  assert (N : ~ byPercentage x y <= 0) by lia.
  rewrite byPercentage_le in N. apply Qlt_le_weak. now apply Qnot_le_lt.
Qed.

Lemma StronglySorted_In_weaken {A : Type} (R R' : A -> A -> Prop) l :
  StronglySorted R l ->
  (forall a b, In a l -> In b l -> R a b -> R' a b) ->
  StronglySorted R' l.
Proof.
  induction 1 as [| x l Hs IH Hall]; intros W; constructor.
  - apply IH. intros a b Ha Hb. apply W; now right.
  - rewrite Forall_forall in *. intros b Hb.
    apply W; [now left | now right | now apply Hall].
Qed.

Lemma sumZ_filter_pos {A : Type} (f : A -> Z) (l : list A) :
  (forall x, In x l -> 0 <= f x) ->
  sumZ (map f (filter (fun x => 0 <? f x) l)) = sumZ (map f l).
Proof.
  induction l as [| x l IH]; intros H; [reflexivity |].
  cbn [filter map sumZ fold_right].
  assert (IH' := IH (fun y Hy => H y (or_intror Hy))).
  pose proof (H x (or_introl eq_refl)).
  destruct (Z.ltb_spec 0 (f x)); cbn [map sumZ fold_right];
    fold (sumZ (map f l));
    fold (sumZ (map f (filter (fun x => 0 <? f x) l))); lia.
Qed.

Lemma sumZ_map_add {A : Type} (f g : A -> Z) (l : list A) :
  sumZ (map (fun x => f x + g x) l) = sumZ (map f l) + sumZ (map g l).
Proof.
  unfold sumZ. induction l as [| x l IH]; cbn [map fold_right]; lia.
Qed.

Lemma sumZ_map_zero {A : Type} (f : A -> Z) (l : list A) :
  (forall x, f x = 0) -> sumZ (map f l) = 0.
Proof.
  intros H. unfold sumZ. induction l as [| x l IH]; cbn [map fold_right];
    [reflexivity |]. rewrite H, IH. reflexivity.
Qed.

(** With distinct ids, a commit is counted for at most one contributor. *)
Lemma one_contributor_per_commit contributors author :
  NoDup (map Contributor.id contributors) ->
  sumZ (map (fun c => if Contributor.id c =? 0 then 0
                      else if User.id author =? Contributor.id c then 1 else 0)
            contributors)
  = if negb (User.id author =? 0)
       && existsb (fun c => Contributor.id c =? User.id author) contributors
    then 1 else 0.
Proof.
  induction contributors as [| c cs IH]; intros ND.
  - cbn. now rewrite andb_false_r.
  - inversion ND as [| ? ? Hnotin ND']; subst.
    cbn [map sumZ fold_right existsb].
    fold (sumZ (map (fun c => if Contributor.id c =? 0 then 0
                      else if User.id author =? Contributor.id c then 1 else 0)
            cs)).
    rewrite (IH ND').
    destruct (Z.eqb_spec (Contributor.id c) (User.id author)) as [E | N].
    + assert (X : existsb (fun c0 => Contributor.id c0 =? User.id author) cs
                  = false).
      { apply not_true_is_false. intros X. apply existsb_exists in X.
        destruct X as (c' & Hin & Ec'). apply Z.eqb_eq in Ec'.
        apply Hnotin. rewrite E, <- Ec'. now apply in_map. }
      rewrite X, andb_false_r. cbn [orb]. rewrite E.
      rewrite Z.eqb_refl.
      destruct (User.id author =? 0); cbn [negb andb]; lia.
    + cbn [orb].
      destruct (Z.eqb_spec (User.id author) (Contributor.id c));
        [congruence |].
      destruct (Contributor.id c =? 0); lia.
Qed.

Lemma sum_authoredBy contributors commits :
  NoDup (map Contributor.id contributors) ->
  sumZ (map (fun c => if Contributor.id c =? 0 then 0
                      else authoredBy (Contributor.id c) commits) contributors)
  = Z.of_nat (List.length (filter (byContributor contributors) commits)).
Proof.
  intros ND. induction commits as [| x commits IH].
  - cbn [filter List.length]. apply sumZ_map_zero.
    intros c. destruct (Contributor.id c =? 0); reflexivity.
  - cbn [filter].
    assert (S : sumZ (map (fun c => if Contributor.id c =? 0 then 0
                      else authoredBy (Contributor.id c) (x :: commits))
                      contributors)
                = sumZ (map (fun c => if Contributor.id c =? 0 then 0
                      else match Commit.author x with
                           | Some author =>
                               if User.id author =? Contributor.id c
                               then 1 else 0
                           | None => 0
                           end) contributors)
                  + sumZ (map (fun c => if Contributor.id c =? 0 then 0
                      else authoredBy (Contributor.id c) commits)
                      contributors)).
    { rewrite <- sumZ_map_add. f_equal. apply map_ext. intros c.
      rewrite authoredBy_cons.
      destruct (Contributor.id c =? 0); [reflexivity |].
      destruct (Commit.author x) as [author |]; [| reflexivity].
      rewrite (Z.eqb_sym (User.id author)). reflexivity. }
    rewrite S, IH. unfold byContributor at 2.
    destruct (Commit.author x) as [author |].
    + rewrite (one_contributor_per_commit contributors author ND).
      destruct (negb (User.id author =? 0)
                && existsb (fun c => Contributor.id c =? User.id author)
                     contributors); cbn [List.length]; lia.
    + rewrite sumZ_map_zero; [lia |].
      intros c. destruct (Contributor.id c =? 0); reflexivity.
Qed.

End SinglePageStatsFacts.

(** X3: impact by contributor id in the single-component page.  Every entry
    stands for a contributor with a non-zero id, carries the number of
    commits of the window whose account has that id, which is at least 1,
    and that number over the window length times 100 as its percentage;
    every contributor with a non-zero id and a commit in the window has an
    entry; the entries come with counts in descending order; with no
    contributor there is no entry, whatever the commits.  When the
    contributors have distinct ids, the counts add up to the number of
    commits that carry the account of a contributor, at most the window. *)
Theorem single_page_impact_by_id
        (contributors : list Contributor.t) (commits : list Commit.t) :
  (forall s,
      In s (SinglePageStats.contributorStats contributors commits) ->
      1 <= SinglePageStats.commitCount s
      /\ (SinglePageStats.percentage s
          == inject_Z (SinglePageStats.commitCount s)
             / inject_Z (Z.of_nat (List.length commits)) * inject_Z 100)%Q
      /\ exists c,
          In c contributors /\ Contributor.id c <> 0
          /\ SinglePageStats.login s = Contributor.login c
          /\ SinglePageStats.commitCount s
             = SinglePageStats.authoredBy (Contributor.id c) commits)
  /\ (forall c,
         In c contributors -> Contributor.id c <> 0 ->
         1 <= SinglePageStats.authoredBy (Contributor.id c) commits ->
         In (SinglePageStats.toStats commits c)
            (SinglePageStats.contributorStats contributors commits))
  /\ StronglySorted
       (fun a b => SinglePageStats.commitCount b
                   <= SinglePageStats.commitCount a)
       (SinglePageStats.contributorStats contributors commits)
  /\ SinglePageStats.contributorStats [] commits = []
  /\ (NoDup (map Contributor.id contributors) ->
      sumZ (map SinglePageStats.commitCount
                (SinglePageStats.contributorStats contributors commits))
      = Z.of_nat (List.length
                    (filter (SinglePageStats.byContributor contributors)
                            commits))
      /\ sumZ (map SinglePageStats.commitCount
                   (SinglePageStats.contributorStats contributors commits))
         <= Z.of_nat (List.length commits)).
Proof.
  assert (Shape : SinglePageStats.contributorStats contributors commits
                  = Array_sort SinglePageStats.byPercentage
                      (filter (fun s => 0 <? SinglePageStats.commitCount s)
                         (map (SinglePageStats.toStats commits) contributors))).
  { unfold SinglePageStats.contributorStats.
    destruct contributors; reflexivity. }
  assert (Members : forall s,
             In s (SinglePageStats.contributorStats contributors commits) <->
             exists c, In c contributors
                       /\ s = SinglePageStats.toStats commits c
                       /\ 0 < SinglePageStats.commitCount s).
  { intros s. rewrite Shape, Array_sort_In, filter_In, in_map_iff.
    rewrite Z.ltb_lt. split.
    - intros [(c & <- & Hc) Hpos]. exists c. auto.
    - intros (c & Hc & -> & Hpos). split; [exists c; auto | assumption]. }
  split; [| split; [| split; [| split]]].
  - intros s Hs. apply Members in Hs. destruct Hs as (c & Hc & -> & Hpos).
    pose proof (toStats_commitCount commits c) as CC.
    destruct (Z.eqb_spec (Contributor.id c) 0) as [E0 | N0]; [lia |].
    split; [lia |]. split.
    + rewrite toStats_percentage.
      rewrite totalCommits_length; [reflexivity |].
      intros ->. rewrite CC in Hpos. cbn in Hpos. lia.
    + exists c. repeat split; assumption.
  - intros c Hc N0 Hpos. apply Members. exists c.
    split; [assumption |]. split; [reflexivity |].
    rewrite toStats_commitCount.
    destruct (Z.eqb_spec (Contributor.id c) 0); lia.
  - rewrite Shape.
    apply StronglySorted_In_weaken
      with (R := fun a b => SinglePageStats.byPercentage a b <= 0).
    + apply Array_sort_sorted;
        [apply byPercentage_trans | apply byPercentage_total].
    + intros a b Ha Hb H. rewrite <- Shape in Ha, Hb.
      apply Members in Ha. destruct Ha as (ca & _ & -> & _).
      apply Members in Hb. destruct Hb as (cb & _ & -> & _).
      apply byPercentage_le in H. now apply percentage_le in H.
  - reflexivity.
  - intros ND.
    assert (E : sumZ (map SinglePageStats.commitCount
                   (SinglePageStats.contributorStats contributors commits))
                = Z.of_nat (List.length
                    (filter (SinglePageStats.byContributor contributors)
                            commits))).
    { rewrite Shape.
      rewrite (sumZ_perm _ _
                 (Permutation_map _ (Array_sort_perm _ _))).
      rewrite sumZ_filter_pos.
      - rewrite map_map. rewrite <- (sum_authoredBy contributors commits ND).
        f_equal. apply map_ext. intros c. apply toStats_commitCount.
      - intros s Hs. apply in_map_iff in Hs. destruct Hs as (c & <- & _).
        rewrite toStats_commitCount.
        pose proof (authoredBy_nonneg (Contributor.id c) commits).
        destruct (Contributor.id c =? 0); lia. }
    split; [exact E |]. rewrite E.
    pose proof (filter_length_le (SinglePageStats.byContributor contributors)
                                 commits). lia.
Qed.

(** ** The impact entries and the commits they come from *)

Lemma entryOf_eta e c :
  author e = Commit.author c ->
  commitAuthorEmail e
  = GitActor.email (CommitDetail.author (Commit.commit c)) ->
  commitAuthorName e
  = GitActor.name (CommitDetail.author (Commit.commit c)) ->
  e = entryOf (count e) c.
Proof.
  destruct e as [n a em nm]. cbn [author commitAuthorEmail commitAuthorName
                                  count]. intros -> -> ->. reflexivity.
Qed.

(** The display fields of an entry are those of the first commit counted
    under its key. *)
Lemma authorCounts_snapshot cs : forall k e,
  Map_get Key_eqb (authorCounts cs) k = Some e ->
  exists i c,
    firstSeen k cs = Some i /\ nth_error cs i = Some c
    /\ e = entryOf (count e) c.
Proof.
  induction cs as [| c cs IH] using rev_ind; intros k e.
  - discriminate.
  - rewrite authorCounts_snoc. unfold countCommit.
    assert (Keep : forall e',
               Map_get Key_eqb (authorCounts cs) k = Some e' ->
               exists i c0,
                 firstSeen k (cs ++ [c]) = Some i
                 /\ nth_error (cs ++ [c]) i = Some c0
                 /\ e' = entryOf (count e') c0).
    { intros e' G. destruct (IH k e' G) as (i & c0 & F & N & E).
      exists i, c0. rewrite firstSeen_snoc, F.
      rewrite nth_error_app1 by (now apply firstSeen_lt in F).
      auto. }
    destruct (resolve c) as [key |] eqn:R; [| apply Keep].
    destruct (Map_get Key_eqb (authorCounts cs) key) as [existing |] eqn:G;
      rewrite (Map_get_set Key_eqb Key_eqb_eq);
      destruct (Key_eqb k key) eqn:K.
    + apply Key_eqb_eq in K. subst key. intros [= <-].
      destruct (Keep existing G) as (i & c0 & F & N & E).
      exists i, c0. split; [assumption |]. split; [assumption |].
      apply entryOf_eta; cbn [author commitAuthorEmail commitAuthorName];
        rewrite E; reflexivity.
    + apply Keep.
    + apply Key_eqb_eq in K. subst key. intros [= <-].
      pose proof (cnt_absent _ _ (authorCounts_counted cs) k G) as F.
      exists (List.length cs), c. rewrite firstSeen_snoc, F.
      assert (countedUnder k c = true) as -> by now apply countedUnder_resolve.
      split; [reflexivity |]. split; [| reflexivity].
      rewrite nth_error_app2 by lia. now rewrite Nat.sub_diag.
    + apply Keep.
Qed.

(** X4: an impact entry shows the first commit of its identity.  Each entry
    of the ranking is the one built from the first commit of the window
    counted under its key (its account, commit-author email and name), with
    the number of commits counted under the key; no key has two entries;
    every commit whose identity resolves is counted in an entry. *)
Theorem impact_entry_from_first_commit (commits : list Commit.t) :
  (forall k e,
      In (k, e) (ranked commits) ->
      exists i c,
        firstSeen k commits = Some i /\ nth_error commits i = Some c
        /\ resolve c = Some k
        /\ e = entryOf (commitsOf k commits) c)
  /\ NoDup (map fst (ranked commits))
  /\ (forall c,
         In c commits -> truthy (commitKey c) = true ->
         exists k e, resolve c = Some k /\ In (k, e) (ranked commits)).
Proof.
  split; [| split].
  - intros k e Hin. apply ranked_get in Hin.
    destruct (authorCounts_snapshot commits k e Hin) as (i & c & F & N & E).
    destruct (cnt_count _ _ (authorCounts_counted commits) k e Hin)
      as (C & _).
    destruct (firstSeen_commit k commits i F) as (c' & N' & R).
    assert (c' = c) by congruence. subst c'.
    exists i, c. rewrite <- C. auto.
  - apply (Permutation_NoDup (l := map fst (authorCounts commits))).
    + apply Permutation_map. symmetry. apply Array_sort_perm.
    + apply (cnt_nodup _ _ (authorCounts_counted commits)).
  - intros c Hin T.
    destruct (resolve c) as [k |] eqn:R;
      [| now apply resolve_truthy in T].
    destruct (Map_get Key_eqb (authorCounts commits) k) as [e |] eqn:G.
    + exists k, e. split; [reflexivity |]. apply ranked_In.
      now apply (Map_get_Some_In Key_eqb Key_eqb_eq).
    + exfalso.
      pose proof (cnt_absent _ _ (authorCounts_counted commits) k G) as F.
      apply commitsOf_firstSeen_None in F. unfold commitsOf in F.
      assert (In c (filter (countedUnder k) commits)).
      { apply filter_In. split; [assumption |].
        now apply countedUnder_resolve. }
      destruct (filter (countedUnder k) commits); [contradiction |].
      cbn [List.length] in F. lia.
Qed.

(** ** How a fetch of the repository page ends *)

Lemma falsy_number_integer id :
  falsy_number (Finite (inject_Z id)) = (id =? 0).
Proof.
  unfold falsy_number, Qeq_bool. cbn [inject_Z Qnum Qden].
  rewrite Z.mul_1_r. reflexivity.
Qed.

(** X5: how [page.tsx] ends a fetch.  For an id other than 0 the page makes
    exactly one request, to the by-id endpoint, and once the response has
    arrived it is no longer loading and shows: the repository, when the
    endpoint answers with one; the not-found page, with no toast and no
    navigation, when it answers 404; otherwise one toast with the error of
    the response (or the default message) and one navigation to the home
    page.  For the id 0, and for a parameter that is not a number, it makes
    no request, raises the toast [Invalid repository ID], navigates home,
    and the loading flag of the mounted page is still set. *)
Theorem repository_page_outcomes
        (base : string) (show : JsNumber -> string) (backend : Api.Backend)
        (id : Z) :
  (id <> 0 ->
   requests (run (RepositoryPage.effect base show backend)
                 RepositoryPage.resume RepositoryPage.mounted
                 [Navigate (Some id); Settle 0])
   = [String.append base
        (String.append "/github/get_repository_by_id?id="
                       (show (Finite (inject_Z id))))]
   /\ cycles (run (RepositoryPage.effect base show backend)
                  RepositoryPage.resume RepositoryPage.mounted
                  [Navigate (Some id); Settle 0]) = [None]
   /\ page (run (RepositoryPage.effect base show backend)
                RepositoryPage.resume RepositoryPage.mounted
                [Navigate (Some id); Settle 0])
      = match Api.repository backend
                (String.append base
                   (String.append "/github/get_repository_by_id?id="
                                  (show (Finite (inject_Z id))))) with
        | Api.HttpOk repoDetails =>
            RepositoryPage.mkPage (Some repoDetails) false false [] []
        | Api.HttpNotOk status error =>
            if status =? 404
            then RepositoryPage.mkPage None false true [] []
            else RepositoryPage.mkPage None false false
                   [notOkMessage show status error] ["/"]
        | Api.HttpFailure message =>
            RepositoryPage.mkPage None false false
              [failureMessage message] ["/"]
        end)
  /\ (forall repoId,
         repoId = None \/ repoId = Some 0 ->
         run (RepositoryPage.effect base show backend)
             RepositoryPage.resume RepositoryPage.mounted
             [Navigate repoId; Settle 0]
         = mkWorld
             (RepositoryPage.mkPage None true false
                ["Invalid repository ID"] ["/"])
             [None] []).
Proof.
  split.
  - intros Hid. unfold run. cbn [fold_left step RepositoryPage.effect].
    apply Z.eqb_neq in Hid. rewrite Hid.
    unfold Api.getRepositoryById. rewrite falsy_number_integer, Hid.
    unfold Api.fetchApi, notOkMessage, failureMessage.
    cbn [step page cycles requests RepositoryPage.mounted suspended app
         nth_error].
    destruct (Api.repository backend
                (String.append base
                   (String.append "/github/get_repository_by_id?id="
                                  (show (Finite (inject_Z id))))))
      as [d | status error | message];
      cbn [RepositoryPage.resume RepositoryPage.catch Api.status Api.message
           page cycles requests replace_nth suspended app].
    + repeat split.
    + destruct (status =? 404); repeat split.
    + repeat split.
  - intros repoId [-> | ->]; reflexivity.
Qed.

(** ** A fetch cycle of the single-component page, from start to end *)

Section CycleFacts.
Variable API_BASE_URL : string.
Variable encodeURIComponent : string -> string.
Variable Number_toString : JsNumber -> string.
Variable backend : Api.Backend.

Lemma fetchApi_one_request {T : Type} (fetch : string -> Api.HttpOutcome T)
      endpoint :
  List.length (fst (Api.fetchApi API_BASE_URL Number_toString fetch endpoint))
  = 1%nat.
Proof. reflexivity. Qed.

Lemma withRepo_at_most_one {T : Type}
      (call : string -> string -> Api.Call T) owner repo :
  (forall o r, (List.length (fst (call o r)) <= 1)%nat) ->
  (List.length (fst (withRepo call owner repo)) <= 1)%nat.
Proof.
  intros H. unfold withRepo. destruct repo as [r |]; [apply H |].
  destruct (falsy_string (trim owner)); cbn; lia.
Qed.


Lemma requestContributors_at_most_one owner repo pg :
  (List.length
     (fst (SinglePage.requestContributors API_BASE_URL encodeURIComponent
             Number_toString backend owner repo pg)) <= 1)%nat.
Proof.
  unfold SinglePage.requestContributors. apply withRepo_at_most_one.
  intros o r. unfold Api.getRepositoryContributors.
  destruct (falsy_string (trim o) || falsy_string (trim r)); cbn; lia.
Qed.

Lemma failed_report err p0 p :
  SinglePage.repository p = SinglePage.repository p0 ->
  SinglePage.contributors p = SinglePage.contributors p0 ->
  SinglePage.isNotFound p = SinglePage.isNotFound p0 ->
  SinglePage.toasts p = SinglePage.toasts p0 ->
  SinglePage.pushes p = SinglePage.pushes p0 ->
  cycleReport p0
    (SinglePage.setIsLoading false (SinglePage.catch err p)) (Failed err).
Proof.
  intros R C N T P. unfold cycleReport, SinglePage.catch.
  destruct err as [e |]; [destruct (Api.status e =? 404) |];
    cbn; rewrite ?R, ?C, ?N, ?T, ?P; repeat split; reflexivity.
Qed.

(** The contributor loop inside a cycle: from page [pg] on it makes at most
    [10 - pg] further requests, and ends with a report. *)
Lemma runCycle_contributors_report fuel :
  forall rd owner repo all pg r p0 p p' log o,
    (1 <= pg <= 10)%nat ->
    SinglePage.repository p = SinglePage.repository p0 ->
    SinglePage.contributors p = SinglePage.contributors p0 ->
    SinglePage.isNotFound p = SinglePage.isNotFound p0 ->
    SinglePage.toasts p = SinglePage.toasts p0 ->
    SinglePage.pushes p = SinglePage.pushes p0 ->
    runCycle (SinglePage.resume API_BASE_URL encodeURIComponent
                Number_toString backend) fuel
             (SinglePage.AwaitContributors rd owner repo all pg r) p
    = Some (p', log, o) ->
    (pg + List.length log <= 10)%nat
    /\ o <> InvalidId /\ cycleReport p0 p' o
    /\ SinglePage.commits p' = SinglePage.commits p.
Proof.
  induction fuel as [| fuel IH];
    intros rd owner repo all pg r p0 p p' log o Hpg R C N T P;
    [discriminate |].
  cbn [runCycle SinglePage.resume SinglePage.failed].
  destruct r as [cp | err].
  - destruct (SinglePage.afterPage all pg cp) as [all' pg' | all'] eqn:A.
    + apply afterPage_Continue in A as (-> & Hle & ->).
      pose proof (requestContributors_at_most_one owner repo (S pg)) as L1.
      destruct (SinglePage.requestContributors API_BASE_URL encodeURIComponent
                  Number_toString backend owner repo (S pg)) as [l r].
      cbn [fst] in L1.
      destruct (runCycle
                  (SinglePage.resume API_BASE_URL encodeURIComponent
                     Number_toString backend) fuel
                  (SinglePage.AwaitContributors rd owner repo (all ++ cp)
                     (S pg) r) p) as [[[p2 log2] o2] |] eqn:E;
        [| discriminate].
      intros [= <- <- <-].
      assert (Hpg' : (1 <= S pg <= 10)%nat) by lia.
      destruct (IH rd owner repo (all ++ cp) (S pg) r p0 p p2 log2 o2
                  Hpg' R C N T P E) as (B & NI & Rep & Cm).
      rewrite length_app. repeat split; try assumption. lia.
    + intros [= <- <- <-]. cbn [List.length].
      split; [lia |]. split; [discriminate |]. split; [| reflexivity].
      cbn. rewrite N, T, P. repeat split. discriminate.
  - intros [= <- <- <-]. cbn [List.length].
    split; [lia |]. split; [discriminate |]. split.
    + now apply failed_report.
    + destruct (catch_keeps err p) as (_ & Cm & _). exact Cm.
Qed.


(** Once the commit window has arrived it is published, however the cycle
    ends. *)
Lemma runCycle_commits_published fuel rd owner repo cs p p' log o :
  runCycle (SinglePage.resume API_BASE_URL encodeURIComponent
              Number_toString backend) (S fuel)
           (SinglePage.AwaitCommits rd owner repo (Api.Resolved cs)) p
  = Some (p', log, o) ->
  SinglePage.commits p' = cs.
Proof.
  cbn [runCycle SinglePage.resume].
  destruct (SinglePage.requestContributors API_BASE_URL encodeURIComponent
              Number_toString backend owner repo 1) as [l2 r2].
  destruct (runCycle
              (SinglePage.resume API_BASE_URL encodeURIComponent
                 Number_toString backend) fuel
              (SinglePage.AwaitContributors rd owner repo [] 1 r2)
              (SinglePage.setCommits cs p)) as [[[p2 log2] o2] |] eqn:E;
    [| discriminate].
  intros [= <- <- <-].
  assert (Hpg : (1 <= 1 <= 10)%nat) by lia.
  destruct (runCycle_contributors_report fuel rd owner repo [] 1%nat r2
              (SinglePage.setCommits cs p) (SinglePage.setCommits cs p)
              p2 log2 o2 Hpg eq_refl eq_refl eq_refl eq_refl eq_refl E)
    as (_ & _ & _ & Cm).
  exact Cm.
Qed.

Lemma runCycle_commits_returns fuel rd owner repo r p :
  (10 <= fuel)%nat ->
  exists res,
    runCycle (SinglePage.resume API_BASE_URL encodeURIComponent
                Number_toString backend) (S fuel)
             (SinglePage.AwaitCommits rd owner repo r) p = Some res.
Proof.
  intros Hfuel. cbn [runCycle SinglePage.resume SinglePage.failed].
  destruct r as [cs | err]; [| eexists; reflexivity].
  destruct (SinglePage.requestContributors API_BASE_URL encodeURIComponent
              Number_toString backend owner repo 1) as [l r].
  destruct (runCycle_contributors_returns API_BASE_URL encodeURIComponent
              Number_toString backend fuel rd owner repo [] 1%nat r
              (SinglePage.setCommits cs p)) as [[[p2 log2] o2] E2];
    [lia | lia |].
  rewrite E2. eexists; reflexivity.
Qed.

End CycleFacts.


(** X7: the single-component page publishes the commit window before it
    asks for contributors.  Once the commit window has arrived, the cycle
    returns with that window in the page's state whether the contributor
    pages then arrive or not; when one of them is rejected, the page is
    left with the new commits next to the repository and the contributors
    it had before. *)
Theorem commit_window_published_first
        (base : string) (enc : string -> string) (show : JsNumber -> string)
        (backend : Api.Backend) (repoDetails : RepositoryDetails.t)
        (owner : string) (repo : option string) (commitsData : list Commit.t)
        (p : SinglePage.Page) :
  exists p' log o,
    runCycle (SinglePage.resume base enc show backend) 11
             (SinglePage.AwaitCommits repoDetails owner repo
                (Api.Resolved commitsData)) p
    = Some (p', log, o)
    /\ SinglePage.commits p' = commitsData
    /\ (forall err,
           o = Failed err ->
           SinglePage.repository p' = SinglePage.repository p
           /\ SinglePage.contributors p' = SinglePage.contributors p).
Proof.
  destruct (runCycle_commits_returns base enc show backend 10 repoDetails
              owner repo (Api.Resolved commitsData) p)
    as [[[p' log] o] E]; [lia |].
  exists p', log, o. split; [exact E |]. split.
  - exact (runCycle_commits_published base enc show backend 10 repoDetails
             owner repo commitsData p p' log o E).
  - intros err ->.
    destruct (runCycle_failed base enc show backend 11 _ p p' log err E)
      as (R & C & _). split; assumption.
Qed.

(** ** The contributor loop when a page fails *)

Section LoopFailure.
Import Api SinglePage.
Variable getPage : nat -> Result (list Contributor.t).

Lemma contributorLoop_any fuel :
  forall all page,
    (page + fuel = 11)%nat -> (1 <= fuel)%nat ->
    exists k r,
      (1 <= k <= fuel)%nat /\
      contributorLoop fuel getPage all page = Some (seq page k, r) /\
      (forall q, (page <= q < page + k - 1)%nat ->
                 exists l, getPage q = Resolved l
                           /\ (perPage <= List.length l)%nat) /\
      match getPage (page + k - 1)%nat with
      | Rejected err => r = Rejected err
      | Resolved l =>
          r = Resolved (all ++ List.concat (map (received getPage)
                                                (seq page k)))
          /\ ((page + k - 1 = 10)%nat \/ (List.length l < perPage)%nat)
      end.
Proof.
  induction fuel as [| fuel IH]; intros all page Hsum Hfuel; [lia |].
  cbn [contributorLoop].
  assert (Here : (page + 1 - 1 = page)%nat) by lia.
  destruct (getPage page) as [cp | err] eqn:G.
  - assert (Rc : received getPage page = cp).
    { unfold received. now rewrite G. }
    unfold afterPage.
    destruct (Nat.eqb_spec (List.length cp) 0) as [Z | NZ].
    + exists 1%nat, (Resolved all). cbn [seq map List.concat].
      rewrite Here, G, Rc.
      apply length_zero_iff_nil in Z as E. rewrite E, !app_nil_r.
      split; [lia |]. split; [reflexivity |]. split; [intros q Hq; lia |].
      split; [reflexivity |]. right. cbn. unfold perPage. lia.
    + destruct (Nat.ltb_spec (List.length cp) perPage) as [Short | Full].
      * exists 1%nat, (Resolved (all ++ cp)). cbn [seq map List.concat].
        rewrite Here, G, Rc, app_nil_r.
        split; [lia |]. split; [reflexivity |]. split; [intros q Hq; lia |].
        split; [reflexivity |]. right. exact Short.
      * destruct (Nat.ltb_spec 10 (S page)) as [Ceil | More].
        -- exists 1%nat, (Resolved (all ++ cp)). cbn [seq map List.concat].
           rewrite Here, G, Rc, app_nil_r.
           split; [lia |]. split; [reflexivity |].
           split; [intros q Hq; lia |].
           split; [reflexivity |]. left. lia.
        -- destruct (IH (all ++ cp) (S page))
             as (k & r & Hk & Hrun & Hfull & Hstop); try lia.
           rewrite Hrun. exists (S k), r.
           replace (page + S k - 1)%nat with (S page + k - 1)%nat by lia.
           split; [lia |]. split; [reflexivity |]. split.
           ++ intros q Hq. destruct (Nat.eq_dec q page) as [-> | Hne].
              ** exists cp. split; assumption.
              ** apply Hfull. lia.
           ++ destruct (getPage (S page + k - 1)%nat) as [l | err];
                [| exact Hstop].
              destruct Hstop as [-> Hstop]. split; [| exact Hstop].
              cbn [seq map List.concat]. rewrite Rc.
              now rewrite <- app_assoc.
  - exists 1%nat, (Rejected err). cbn [seq]. rewrite Here, G.
    split; [lia |]. split; [reflexivity |]. split; [intros q Hq; lia |].
    reflexivity.
Qed.

End LoopFailure.

(** X8: the contributor loop stops at the first page that fails.  Against
    any source of pages, the loop asks for the pages 1 to [n] in order, for
    some [n] from 1 to 10; every page before [n] arrived with at least 100
    records; when page [n] is rejected the loop ends with that rejection,
    and the records of the pages before it are not returned; when page [n]
    arrives the loop returns the records of the pages 1 to [n] one after
    the other, and [n] is 10 or page [n] has fewer than 100 records. *)
Theorem contributor_loop_stops_at_failure
        (getPage : nat -> Api.Result (list Contributor.t)) :
  exists n r,
    (1 <= n <= 10)%nat
    /\ SinglePage.mergeContributors getPage = Some (seq 1 n, r)
    /\ (forall q, (1 <= q < n)%nat ->
                  exists l, getPage q = Api.Resolved l
                            /\ (100 <= List.length l)%nat)
    /\ match getPage n with
       | Api.Rejected err => r = Api.Rejected err
       | Api.Resolved l =>
           r = Api.Resolved
                 (List.concat (map (received getPage) (seq 1 n)))
           /\ (n = 10%nat \/ (List.length l < 100)%nat)
       end.
Proof.
  destruct (contributorLoop_any getPage 10 [] 1)
    as (k & r & Hk & Hrun & Hfull & Hstop); try lia.
  exists k, r. unfold SinglePage.mergeContributors. rewrite Hrun.
  replace (1 + k - 1)%nat with k in * by lia.
  split; [lia |]. split; [reflexivity |]. split; [exact Hfull |].
  destruct (getPage k) as [l | err]; [| exact Hstop].
  destruct Hstop as [-> Hstop]. split; [reflexivity |].
  destruct Hstop; [left; lia | right; assumption].
Qed.

(** ** The not-found flag *)

Section StickyFacts.
Context {Page Await : Type}.
Variable effect : option Z -> Page -> Page * list string * Next Await.
Variable resume : Await -> Page -> Page * list string * Next Await.
Variable flag : Page -> bool.
Hypothesis effect_keeps : forall repoId p,
  flag p = true -> flag (fst (fst (effect repoId p))) = true.
Hypothesis resume_keeps_flag : forall a p,
  flag p = true -> flag (fst (fst (resume a p))) = true.

Lemma step_keeps_flag w e :
  flag (page w) = true -> flag (page (step effect resume w e)) = true.
Proof.
  intros H. destruct e as [repoId | k]; cbn [step].
  - specialize (effect_keeps repoId (page w) H).
    destruct (effect repoId (page w)) as [[p log] next]. exact effect_keeps.
  - destruct (nth_error (cycles w) k) as [[a |] |]; try assumption.
    specialize (resume_keeps_flag a (page w) H).
    destruct (resume a (page w)) as [[p log] next]. exact resume_keeps_flag.
Qed.

Lemma run_keeps_flag events : forall w,
  flag (page w) = true -> flag (page (run effect resume w events)) = true.
Proof.
  induction events as [| e events IH]; intros w H; [assumption |].
  cbn [run fold_left]. apply IH. now apply step_keeps_flag.
Qed.

End StickyFacts.

(** X9: the not-found flag is never cleared.  On both versions of the
    repository page, once a response with status 404 has set the flag, it
    stays set whatever is opened and whatever arrives afterwards: nothing
    in the component sets it back.  On the sample backend, opening the
    unknown repository 7 and then repository 2 leaves the page with
    repository 2 published and the not-found flag, which is tested first,
    still set. *)
Theorem not_found_is_never_cleared :
  (forall base enc show backend events w,
      SinglePage.isNotFound (page w) = true ->
      SinglePage.isNotFound
        (page (run (SinglePage.effect base show backend)
                   (SinglePage.resume base enc show backend) w events))
      = true)
  /\ (forall base show backend events w,
         RepositoryPage.isNotFound (page w) = true ->
         RepositoryPage.isNotFound
           (page (run (RepositoryPage.effect base show backend)
                      RepositoryPage.resume w events))
         = true)
  /\ (RepositoryPage.isNotFound
        (page (run (RepositoryPage.effect Sample.base Sample.showNumber
                      Sample.backend)
                   RepositoryPage.resume RepositoryPage.mounted
                   [Navigate (Some 7); Settle 0; Navigate (Some 2); Settle 1]))
      = true
      /\ RepositoryPage.repository
           (page (run (RepositoryPage.effect Sample.base Sample.showNumber
                         Sample.backend)
                      RepositoryPage.resume RepositoryPage.mounted
                      [Navigate (Some 7); Settle 0; Navigate (Some 2);
                       Settle 1]))
         = Some Sample.two).
Proof.
  split; [| split].
  - intros base enc show backend events w.
    apply run_keeps_flag.
    + intros repoId p H. unfold SinglePage.effect.
      destruct repoId as [id |]; [| exact H].
      destruct (id =? 0); [exact H |].
      destruct (Api.getRepositoryById base show backend (Finite (inject_Z id)))
        as [l r]. exact H.
    + intros a p H.
      destruct a as [[rd | err] | rd owner repo [cs | err]
                     | rd owner repo all pg [cp | err]];
        cbn [SinglePage.resume SinglePage.failed].
      * destruct (ownerAndRepo (RepositoryDetails.full_name rd))
          as [owner repo].
        destruct (SinglePage.requestCommits base enc show backend owner repo)
          as [l r]. exact H.
      * destruct err as [e |]; cbn; [destruct (Api.status e =? 404) |];
          cbn; auto.
      * destruct (SinglePage.requestContributors base enc show backend
                    owner repo 1) as [l r]. exact H.
      * destruct err as [e |]; cbn; [destruct (Api.status e =? 404) |];
          cbn; auto.
      * destruct (SinglePage.afterPage all pg cp) as [all' pg' | all'].
        -- destruct (SinglePage.requestContributors base enc show backend
                       owner repo pg') as [l r]. exact H.
        -- exact H.
      * destruct err as [e |]; cbn; [destruct (Api.status e =? 404) |];
          cbn; auto.
  - intros base show backend events w.
    apply run_keeps_flag.
    + intros repoId p H. unfold RepositoryPage.effect.
      destruct repoId as [id |]; [| exact H].
      destruct (id =? 0); [exact H |].
      destruct (Api.getRepositoryById base show backend (Finite (inject_Z id)))
        as [l r]. exact H.
    + intros [[rd | err]] p H; cbn [RepositoryPage.resume]; [exact H |].
      destruct err as [e |]; cbn; [destruct (Api.status e =? 404) |];
        cbn; auto.
  - split; vm_compute; reflexivity.
Qed.

(** ** The search page *)

(** X10: what a search does on the search page.  With a blank query
    (white space only) [handleSearch] makes no request and only raises the
    toast [Please enter a search query].  Otherwise it makes exactly one
    request, for the query as typed, and when the response has arrived the
    page is no longer loading and shows the items of the response with one
    success toast, or one info toast when there is none; after a failed
    request it shows no repository and one error toast with the message of
    the failure.  Either way a search adds exactly one toast. *)
Theorem home_search_outcomes
        (base : string) (enc : string -> string) (show : JsNumber -> string)
        (backend : Api.Backend) (p : HomeSearch.Page) :
  (whitespace_only (HomeSearch.searchQuery p) ->
   HomeSearch.search base enc show backend p
   = (HomeSearch.toast (ToastError "Please enter a search query") p, []))
  /\ (~ whitespace_only (HomeSearch.searchQuery p) ->
      HomeSearch.search base enc show backend p
      = (match Api.search backend
                 (String.append base
                    (String.append "/github/search?query="
                                   (enc (HomeSearch.searchQuery p)))) with
         | Api.HttpOk response =>
             HomeSearch.mkPage (HomeSearch.searchQuery p)
               (RepositorySearchResponse.items response) false
               (HomeSearch.toasts p
                ++ [match RepositorySearchResponse.items response with
                    | [] => ToastInfo "No repositories found"
                    | _ :: _ =>
                        ToastSuccess
                          (HomeSearch.found show
                             (RepositorySearchResponse.items response))
                    end])
         | Api.HttpNotOk status error =>
             HomeSearch.mkPage (HomeSearch.searchQuery p) [] false
               (HomeSearch.toasts p
                ++ [ToastError (notOkMessage show status error)])
         | Api.HttpFailure message =>
             HomeSearch.mkPage (HomeSearch.searchQuery p) [] false
               (HomeSearch.toasts p ++ [ToastError (failureMessage message)])
         end,
         [String.append base
            (String.append "/github/search?query="
                           (enc (HomeSearch.searchQuery p)))]))
  /\ List.length
       (HomeSearch.toasts (fst (HomeSearch.search base enc show backend p)))
     = S (List.length (HomeSearch.toasts p)).
Proof.
  assert (Blank : whitespace_only (HomeSearch.searchQuery p) ->
                  HomeSearch.search base enc show backend p
                  = (HomeSearch.toast
                       (ToastError "Please enter a search query") p, [])).
  { intros W. apply trim_blank_iff in W.
    unfold HomeSearch.search, HomeSearch.handleSearch. now rewrite W. }
  assert (Full : ~ whitespace_only (HomeSearch.searchQuery p) ->
      HomeSearch.search base enc show backend p
      = (match Api.search backend
                 (String.append base
                    (String.append "/github/search?query="
                                   (enc (HomeSearch.searchQuery p)))) with
         | Api.HttpOk response =>
             HomeSearch.mkPage (HomeSearch.searchQuery p)
               (RepositorySearchResponse.items response) false
               (HomeSearch.toasts p
                ++ [match RepositorySearchResponse.items response with
                    | [] => ToastInfo "No repositories found"
                    | _ :: _ =>
                        ToastSuccess
                          (HomeSearch.found show
                             (RepositorySearchResponse.items response))
                    end])
         | Api.HttpNotOk status error =>
             HomeSearch.mkPage (HomeSearch.searchQuery p) [] false
               (HomeSearch.toasts p
                ++ [ToastError (notOkMessage show status error)])
         | Api.HttpFailure message =>
             HomeSearch.mkPage (HomeSearch.searchQuery p) [] false
               (HomeSearch.toasts p ++ [ToastError (failureMessage message)])
         end,
         [String.append base
            (String.append "/github/search?query="
                           (enc (HomeSearch.searchQuery p)))])).
  { intros W.
    assert (F : falsy_string (trim (HomeSearch.searchQuery p)) = false).
    { apply not_true_is_false. intros H. now apply trim_blank_iff in H. }
    unfold HomeSearch.search, HomeSearch.handleSearch. rewrite F.
    cbn [HomeSearch.setIsLoading HomeSearch.searchQuery].
    unfold Api.searchRepositories. rewrite F.
    unfold Api.fetchApi, notOkMessage, failureMessage.
    destruct (Api.search backend
                (String.append base
                   (String.append "/github/search?query="
                                  (enc (HomeSearch.searchQuery p)))))
      as [response | status error | message]; cbn [HomeSearch.resume].
    - destruct (RepositorySearchResponse.items response) as [| x items];
        reflexivity.
    - reflexivity.
    - reflexivity. }
  split; [exact Blank |]. split; [exact Full |].
  destruct (falsy_string (trim (HomeSearch.searchQuery p))) eqn:F.
  - apply trim_blank_iff in F. rewrite (Blank F).
    cbn. rewrite length_app. cbn. lia.
  - assert (W : ~ whitespace_only (HomeSearch.searchQuery p)).
    { intros W. apply trim_blank_iff in W. congruence. }
    rewrite (Full W). cbn [fst].
    destruct (Api.search backend _) as [response | status error | message];
      cbn; rewrite length_app; cbn; lia.
Qed.

Section HomeFacts.
Variable searchRepositories :
  string -> Z -> Z -> Api.Call RepositorySearchResponse.t.
Variable toLocaleString : Z -> string.

Lemma handleSearch_invariant n w :
  Home.isLoading (Home.page w) = false ->
  1 <= n ->
  Home.invariant w ->
  Home.invariant (Home.handleSearch searchRepositories n w).
Proof.
  intros L Hn (Flight & Cur & Asked). unfold Home.handleSearch.
  destruct Flight as [[L' _] | [_ Pend]]; [congruence |].
  destruct (falsy_string (trim (Home.searchQuery (Home.page w)))).
  - split; [| split]; cbn; auto.
  - cbn [Home.setCurrentPage Home.setIsLoading Home.searchQuery].
    destruct (searchRepositories (Home.searchQuery (Home.page w))
                                 Home.perPage n) as [log r].
    split; [| split]; cbn.
    + left. split; [reflexivity |]. rewrite Pend. eexists; reflexivity.
    + exact Hn.
    + apply Forall_app. split; [exact Asked | repeat constructor; exact Hn].
Qed.

Lemma resume_currentPage a p :
  Home.currentPage (Home.resume toLocaleString a p) = Home.currentPage p
  /\ Home.isLoading (Home.resume toLocaleString a p) = false.
Proof.
  destruct a as [n [response | err]]; cbn [Home.resume].
  - destruct (0 <? List.length (RepositorySearchResponse.items response))%nat;
      [destruct (n =? 1) |]; split; reflexivity.
  - destruct err; split; reflexivity.
Qed.

Lemma step_invariant w e :
  Home.invariant w ->
  Home.invariant (Home.step searchRepositories toLocaleString w e).
Proof.
  intros I. pose proof I as (Flight & Cur & Asked).
  destruct e as [text | | | | | | k]; cbn [Home.step].
  - destruct (Home.isLoading (Home.page w)) eqn:L; [exact I |].
    destruct Flight as [[L' _] | [_ Pend]]; [congruence |].
    split; [| split]; cbn; auto.
  - destruct (Home.isLoading (Home.page w)) eqn:L; [exact I |].
    apply handleSearch_invariant; [assumption | lia | exact I].
  - destruct (Home.isLoading (Home.page w)) eqn:L; [exact I |].
    apply handleSearch_invariant; [assumption | lia | exact I].
  - destruct (Home.isLoading (Home.page w)) eqn:L; [exact I |].
    cbn [orb].
    destruct (falsy_string (Home.searchQuery (Home.page w))); [exact I |].
    destruct Flight as [[L' _] | [_ Pend]]; [congruence |].
    split; [| split]; cbn; auto. lia.
  - destruct (Home.controlsRendered (Home.page w)
              && negb ((Home.currentPage (Home.page w) =? 1)
                       || Home.isLoading (Home.page w))) eqn:G;
      [| exact I].
    apply andb_prop in G as [_ G]. apply negb_true_iff in G.
    apply orb_false_elim in G as [G L]. apply Z.eqb_neq in G.
    apply handleSearch_invariant; [assumption | lia | exact I].
  - destruct (Home.controlsRendered (Home.page w)
              && negb ((Home.lastPage (Home.page w)
                        <=? Home.currentPage (Home.page w))
                       || Home.isLoading (Home.page w))) eqn:G;
      [| exact I].
    apply andb_prop in G as [_ G]. apply negb_true_iff in G.
    apply orb_false_elim in G as [G L].
    apply handleSearch_invariant; [assumption | lia | exact I].
  - destruct (nth_error (Home.pending w) k) as [a |] eqn:N; [| exact I].
    destruct Flight as [[L [a' Pend]] | [_ Pend]].
    + rewrite Pend in N. destruct k as [| k];
        [| destruct k; discriminate].
      destruct (resume_currentPage a (Home.page w)) as [C L'].
      split; [| split]; cbn [Home.page Home.pending Home.asked].
      * right. split; [exact L' |]. rewrite Pend. reflexivity.
      * rewrite C. exact Cur.
      * exact Asked.
    + rewrite Pend in N. destruct k; discriminate.
Qed.

Lemma run_invariant events : forall w,
  Home.invariant w ->
  Home.invariant (Home.run searchRepositories toLocaleString w events).
Proof.
  induction events as [| e events IH]; intros w I; [exact I |].
  cbn [Home.run fold_left]. apply IH. now apply step_invariant.
Qed.

End HomeFacts.

(** X11: the search page of [app/page.tsx] runs one search at a time.
    After any series of inputs, key presses, clicks and arrivals, at most
    one call of [handleSearch] has not returned, and the page is loading
    exactly while there is one; while it is loading, no input, key press or
    click changes anything; the current page and every result page asked
    for are at least 1; and a click on [Next] that asks for a page asks for
    the one after the current page, which is at most
    [Math.ceil(totalCount / perPage)]. *)
Theorem home_one_search_at_a_time
        (searchRepositories :
           string -> Z -> Z -> Api.Call RepositorySearchResponse.t)
        (toLocaleString : Z -> string) (events : list Home.Event) :
  (List.length
     (Home.pending
        (Home.run searchRepositories toLocaleString Home.mounted events))
   <= 1)%nat
  /\ (Home.isLoading
        (Home.page
           (Home.run searchRepositories toLocaleString Home.mounted events))
      = true
      <-> Home.pending
            (Home.run searchRepositories toLocaleString Home.mounted events)
          <> [])
  /\ 1 <= Home.currentPage
            (Home.page
               (Home.run searchRepositories toLocaleString Home.mounted events))
  /\ Forall (fun n => 1 <= n)
            (Home.asked
               (Home.run searchRepositories toLocaleString Home.mounted events))
  /\ (forall w e,
         Home.isLoading (Home.page w) = true ->
         (forall k, e <> Home.Settle k) ->
         Home.step searchRepositories toLocaleString w e = w)
  /\ (forall w n,
         Home.asked (Home.step searchRepositories toLocaleString w Home.ClickNext)
         = Home.asked w ++ [n] ->
         n = Home.currentPage (Home.page w) + 1
         /\ n <= Home.lastPage (Home.page w)).
Proof.
  assert (I : Home.invariant
                (Home.run searchRepositories toLocaleString Home.mounted
                          events)).
  { apply run_invariant. split; [| split]; cbn.
    - right. auto.
    - lia.
    - constructor. }
  destruct I as (Flight & Cur & Asked).
  split; [| split; [| split; [| split; [| split]]]].
  - destruct Flight as [[_ [a ->]] | [_ ->]]; cbn; lia.
  - destruct Flight as [[L [a ->]] | [L ->]]; rewrite L; split;
      try discriminate; try reflexivity; congruence.
  - exact Cur.
  - exact Asked.
  - intros w e L NS. destruct e as [text | | | | | | k]; cbn [Home.step];
      rewrite ?L; try reflexivity.
    + unfold Home.controlsRendered, Home.resultsRendered. rewrite L.
      reflexivity.
    + unfold Home.controlsRendered, Home.resultsRendered. rewrite L.
      reflexivity.
    + now contradiction (NS k).
  - intros w n. cbn [Home.step].
    destruct (Home.controlsRendered (Home.page w)
              && negb ((Home.lastPage (Home.page w)
                        <=? Home.currentPage (Home.page w))
                       || Home.isLoading (Home.page w))) eqn:G.
    + apply andb_prop in G as [_ G]. apply negb_true_iff in G.
      apply orb_false_elim in G as [G L]. apply Z.leb_gt in G.
      unfold Home.handleSearch.
      destruct (falsy_string (trim (Home.searchQuery (Home.page w)))).
      * cbn [Home.asked]. intros E.
        apply (f_equal (@List.length Z)) in E. rewrite length_app in E.
        cbn in E. lia.
      * cbn [Home.setCurrentPage Home.setIsLoading Home.searchQuery].
        destruct (searchRepositories (Home.searchQuery (Home.page w))
                    Home.perPage (Home.currentPage (Home.page w) + 1))
          as [log r].
        cbn [Home.asked]. intros E. apply app_inv_head in E.
        injection E as <-. lia.
    + intros E. apply (f_equal (@List.length Z)) in E.
      rewrite length_app in E. cbn in E. lia.
Qed.

Lemma lastPage_spec p :
  Home.perPage * (Home.lastPage p - 1) < Home.totalCount p
  <= Home.perPage * Home.lastPage p.
Proof.
  unfold Home.lastPage. apply Math_ceil_quotient_spec. reflexivity.
Qed.

(** X12: the range of [Showing a-b of n] on the search page.  When the
    current page is one of the pages of the result
    (from 1 to [Math.ceil(totalCount / perPage)]), the range shown starts
    at 1 or later, ends no later than the total, is not empty and covers
    at most [perPage] results; it ends at the total exactly on the last
    page. *)
Theorem home_showing_range (p : Home.Page) :
  1 <= Home.currentPage p <= Home.lastPage p ->
  1 <= Home.showingFrom p
  /\ Home.showingFrom p <= Home.showingTo p
  /\ Home.showingTo p <= Home.totalCount p
  /\ Home.showingTo p - Home.showingFrom p + 1 <= Home.perPage
  /\ (Home.showingTo p = Home.totalCount p
      <-> Home.currentPage p = Home.lastPage p).
Proof.
  intros H. pose proof (lastPage_spec p) as L.
  unfold Home.showingFrom, Home.showingTo, Home.perPage in *. lia.
Qed.

(** Page 3 of 25 results: the range shown is 21 to 25. *)
Lemma home_showing_range_witness :
  (1 <= Home.currentPage (Home.mkPage "react" [] false 3 25 [])
   <= Home.lastPage (Home.mkPage "react" [] false 3 25 []))
  /\ Home.showingFrom (Home.mkPage "react" [] false 3 25 []) = 21
  /\ Home.showingTo (Home.mkPage "react" [] false 3 25 []) = 25
  /\ Home.showingFrom (Home.mkPage "react" [] false 3 25 [])
     <= Home.showingTo (Home.mkPage "react" [] false 3 25 []).
Proof.
  assert (R : 1 <= Home.currentPage (Home.mkPage "react" [] false 3 25 [])
              <= Home.lastPage (Home.mkPage "react" [] false 3 25 [])).
  { vm_compute. split; discriminate. }
  split; [exact R |]. split; [reflexivity |]. split; [reflexivity |].
  exact (proj1 (proj2 (home_showing_range _ R))).
Defined.

(** ** From the link of a search result to the id the page asks for *)

Lemma numeral_of_uint_acc d : forall acc,
  JsDate.numeral (Z.pos acc) (DecimalString.NilEmpty.string_of_uint d)
  = Some (Z.pos (Pos.of_uint_acc d acc)).
Proof.
  induction d; intros acc;
    cbn [DecimalString.NilEmpty.string_of_uint JsDate.numeral Pos.of_uint_acc];
    [reflexivity | ..];
    match goal with
    | |- context [JsDate.digitVal ?c] =>
        let v := eval vm_compute in (JsDate.digitVal c) in
        change (JsDate.digitVal c) with v
    end;
    cbv iota; rewrite <- IHd; f_equal; lia.
Qed.

Lemma numeral_of_uint d :
  JsDate.numeral 0 (DecimalString.NilEmpty.string_of_uint d)
  = Some (Z.of_N (Pos.of_uint d)).
Proof.
  induction d;
    cbn [DecimalString.NilEmpty.string_of_uint JsDate.numeral Pos.of_uint];
    [reflexivity | ..];
    match goal with
    | |- context [JsDate.digitVal ?c] =>
        let v := eval vm_compute in (JsDate.digitVal c) in
        change (JsDate.digitVal c) with v
    end;
    cbv iota; cbn [Z.mul Z.add]; [exact IHd | ..];
    cbn [Z.of_N]; apply numeral_of_uint_acc.
Qed.

Lemma numeral_decimal n : 0 <= n -> JsDate.numeral 0 (decimal n) = Some n.
Proof.
  intros Hn. unfold decimal.
  pose proof (DecimalN.Unsigned.of_to (Z.to_N n)) as E.
  unfold N.of_uint in E.
  destruct (N.to_uint (Z.to_N n)) eqn:U;
    cbn [DecimalString.NilZero.string_of_uint];
    try (rewrite numeral_of_uint, E; f_equal; lia).
  change (Pos.of_uint Decimal.Nil) with 0%N in E.
  change (JsDate.numeral 0 "0") with (Some 0). f_equal. lia.
Qed.

Lemma digitsPrefix_of_uint d rest :
  digitsPrefix (String.append (DecimalString.NilEmpty.string_of_uint d) rest)
  = String.append (DecimalString.NilEmpty.string_of_uint d)
                  (digitsPrefix rest).
Proof.
  induction d;
    cbn [DecimalString.NilEmpty.string_of_uint String.append digitsPrefix];
    [reflexivity | ..];
    match goal with
    | |- context [JsDate.digitVal ?c] =>
        let v := eval vm_compute in (JsDate.digitVal c) in
        change (JsDate.digitVal c) with v
    end;
    cbv iota; now rewrite IHd.
Qed.

(** The digits of a number are a non-empty string of digits. *)
Lemma decimal_digits n :
  exists d, d <> Decimal.Nil
            /\ decimal n = DecimalString.NilEmpty.string_of_uint d.
Proof.
  unfold decimal.
  destruct (N.to_uint (Z.to_N n)) eqn:U;
    cbn [DecimalString.NilZero.string_of_uint];
    try (eexists; split; [| reflexivity]; discriminate).
  exists (Decimal.D0 Decimal.Nil). split; [discriminate | reflexivity].
Qed.

Lemma append_empty s : String.append s "" = s.
Proof. induction s as [| c s IH]; cbn; [reflexivity | now rewrite IH]. Qed.

(** [parseInt] on the digits of a number followed by a text that does not
    start with a digit. *)
Lemma parseInt_decimal n rest :
  0 <= n -> digitsPrefix rest = "" ->
  parseInt (String.append (decimal n) rest) = Some n
  /\ parseInt (String.append "-" (String.append (decimal n) rest))
     = Some (- n).
Proof.
  intros Hn Hrest.
  pose proof (numeral_decimal n Hn) as V.
  destruct (decimal_digits n) as (d & Hd & E). rewrite E in *.
  assert (P : digitsPrefix
                (String.append (DecimalString.NilEmpty.string_of_uint d) rest)
              = DecimalString.NilEmpty.string_of_uint d).
  { now rewrite digitsPrefix_of_uint, Hrest, append_empty. }
  split.
  - unfold parseInt.
    destruct d; [congruence | ..];
      cbn [DecimalString.NilEmpty.string_of_uint String.append trimStart] in *;
      (match goal with
       | |- context [is_whitespace ?c] =>
           let v := eval vm_compute in (is_whitespace c) in
           change (is_whitespace c) with v
       end);
      cbv iota; rewrite P, V; cbn [option_map]; f_equal; lia.
  - unfold parseInt. cbn [String.append trimStart].
    change (is_whitespace "-") with false. cbv iota.
    rewrite P.
    destruct d; [congruence | ..];
      cbn [DecimalString.NilEmpty.string_of_uint] in *;
      rewrite V; cbn [option_map]; f_equal; lia.
Qed.

(** X13: the id in the link of a search result is the id the repository
    page asks for, for the ids that a number holds exactly (the safe
    integers, up to 2^53 - 1 in magnitude).  The text of such an integer in
    [`/repository/${repo.id}`] is read back by [parseInt(repositoryId, 10)]
    as the same integer, also when a text that does not start with a digit
    follows it ([12abc] is read as 12); so for a search result whose id is
    a safe integer other than 0 the page requests the repository with that
    id. *)
Theorem route_id_round_trip :
  (forall n, safeInteger n -> repoId (showInteger n) = Some n)
  /\ (forall n rest,
         safeInteger n ->
         digitsPrefix rest = "" ->
         repoId (String.append (showInteger n) rest) = Some n)
  /\ (forall repo,
         safeInteger (Repository.id repo) ->
         exists repositoryId,
           repositoryHref repo = String.append "/repository/" repositoryId
           /\ repoId repositoryId = Some (Repository.id repo)
           /\ forall base show backend p,
               Repository.id repo <> 0 ->
               snd (fst (RepositoryPage.effect base show backend
                           (repoId repositoryId) p))
               = [String.append base
                    (String.append "/github/get_repository_by_id?id="
                       (show (Finite (inject_Z (Repository.id repo)))))]).
Proof.
  assert (Tail : forall n rest,
             digitsPrefix rest = "" ->
             repoId (String.append (showInteger n) rest) = Some n).
  { intros n rest Hrest. unfold repoId, showInteger.
    destruct (Z.ltb_spec n 0).
    - destruct (parseInt_decimal (- n) rest ltac:(lia) Hrest) as [_ E].
      replace n with (- - n) at 2 by lia. rewrite <- E.
      reflexivity.
    - now destruct (parseInt_decimal n rest ltac:(lia) Hrest) as [E _]. }
  assert (Exact : forall n, repoId (showInteger n) = Some n).
  { intros n. rewrite <- (append_empty (showInteger n)). now apply Tail. }
  split; [intros n _; exact (Exact n) |].
  split; [intros n rest _; exact (Tail n rest) |].
  intros repo _. exists (showInteger (Repository.id repo)).
  split; [reflexivity |]. split; [apply Exact |].
  intros base show backend p Hid. rewrite Exact.
  unfold RepositoryPage.effect. apply Z.eqb_neq in Hid. rewrite Hid.
  unfold Api.getRepositoryById. rewrite falsy_number_integer, Hid.
  reflexivity.
Qed.

(** ** The owner and the name in [full_name] *)

Lemma split_not_nil sep s : split sep s <> [].
Proof.
  destruct s as [| c s]; cbn [split]; [discriminate |].
  destruct (Ascii.eqb c sep); [discriminate |].
  destruct (split sep s); discriminate.
Qed.

Lemma split_no_separator sep s : includes sep s = false -> split sep s = [s].
Proof.
  induction s as [| c s IH]; cbn [includes split]; [reflexivity |].
  destruct (Ascii.eqb c sep); cbn [orb]; [discriminate |].
  intros H. now rewrite (IH H).
Qed.

Lemma split_append sep s rest :
  includes sep s = false ->
  split sep (String.append s (String sep rest)) = s :: split sep rest.
Proof.
  induction s as [| c s IH]; cbn [includes split String.append].
  - intros _. now rewrite Ascii.eqb_refl.
  - destruct (Ascii.eqb c sep); cbn [orb]; [discriminate |].
    intros H. now rewrite (IH H).
Qed.

Lemma join_head sep c part rest :
  join sep (String c part :: rest) = String c (join sep (part :: rest)).
Proof. destruct rest; reflexivity. Qed.

Lemma split_join sep s :
  join (String sep EmptyString) (split sep s) = s.
Proof.
  induction s as [| c s IH]; cbn [split]; [reflexivity |].
  pose proof (split_not_nil sep s) as NE.
  destruct (split sep s) as [| part rest] eqn:E; [congruence |].
  destruct (Ascii.eqb_spec c sep) as [-> | N].
  - change (join (String sep "") ("" :: part :: rest))
      with (String sep (join (String sep "") (part :: rest))).
    now rewrite IH.
  - rewrite join_head. now rewrite IH.
Qed.

Lemma split_parts sep s :
  Forall (fun part => includes sep part = false) (split sep s).
Proof.
  induction s as [| c s IH]; cbn [split]; [repeat constructor |].
  destruct (Ascii.eqb c sep) eqn:E.
  - constructor; [reflexivity | exact IH].
  - destruct (split sep s) as [| part rest]; [repeat constructor |].
    + cbn [includes]. now rewrite E.
    + inversion IH; subst. constructor; [| assumption].
      cbn [includes]. now rewrite E.
Qed.

(** X14: the owner and the name read in [full_name].  Splitting at the
    slash and joining with a slash gives the name back, and no part holds
    a slash.  For an owner and a name without a slash, [owner/name] is
    read as that owner and that name, and whatever follows a second slash
    is dropped; a [full_name] without a slash is read as an owner with no
    repository name. *)
Theorem full_name_owner_and_repo :
  (forall s, join "/" (split "/"%char s) = s)
  /\ (forall s, Forall (fun part => includes "/"%char part = false)
                       (split "/"%char s))
  /\ (forall owner name,
         includes "/"%char owner = false ->
         includes "/"%char name = false ->
         ownerAndRepo (String.append owner (String "/"%char name))
         = (owner, Some name))
  /\ (forall owner name more,
         includes "/"%char owner = false ->
         includes "/"%char name = false ->
         ownerAndRepo
           (String.append owner
              (String "/"%char (String.append name (String "/"%char more))))
         = (owner, Some name))
  /\ (forall s, includes "/"%char s = false -> ownerAndRepo s = (s, None)).
Proof.
  split; [exact (split_join "/"%char) |].
  split; [exact (split_parts "/"%char) |].
  split; [| split].
  - intros owner name Ho Hn. unfold ownerAndRepo.
    rewrite split_append by assumption.
    rewrite (split_no_separator _ _ Hn). reflexivity.
  - intros owner name more Ho Hn. unfold ownerAndRepo.
    rewrite split_append by assumption.
    rewrite split_append by assumption. reflexivity.
  - intros s H. unfold ownerAndRepo.
    rewrite (split_no_separator _ _ H). reflexivity.
Qed.

(** X15: a repository whose [full_name] has no slash fails the cycle of the
    single-component page before any further request.  The repository name
    is then [undefined], so the commit request throws: the page raises one
    toast, [Failed to load repository data] (or, when the name is blank,
    the client's [Owner and repo parameters are required]), navigates home
    and publishes nothing. *)
Theorem name_without_slash_fails
        (base : string) (enc : string -> string) (show : JsNumber -> string)
        (backend : Api.Backend) (repoDetails : RepositoryDetails.t)
        (p : SinglePage.Page) :
  includes "/"%char (RepositoryDetails.full_name repoDetails) = false ->
  runCycle (SinglePage.resume base enc show backend) 12
           (SinglePage.AwaitRepository (Api.Resolved repoDetails)) p
  = Some
      (SinglePage.setIsLoading false
         (SinglePage.router_push "/"
            (SinglePage.toast_error
               (if falsy_string (trim (RepositoryDetails.full_name repoDetails))
                then "Owner and repo parameters are required"
                else "Failed to load repository data") p)),
       [],
       Failed
         (if falsy_string (trim (RepositoryDetails.full_name repoDetails))
          then Api.IsApiError
                 (Api.mkApiError "Owner and repo parameters are required" 400)
          else Api.TypeError)).
Proof.
  intros H. change 12%nat with (S (S 10)).
  cbn [runCycle SinglePage.resume].
  unfold ownerAndRepo. rewrite (split_no_separator _ _ H).
  cbn [hd nth_error]. unfold SinglePage.requestCommits, withRepo.
  destruct (falsy_string (trim (RepositoryDetails.full_name repoDetails)));
    reflexivity.
Qed.

(** A repository named [solo], with no owner part. *)
Lemma name_without_slash_fails_witness :
  exists p,
    runCycle (SinglePage.resume Sample.base Sample.noEncoding
                Sample.showNumber Sample.backend) 12
             (SinglePage.AwaitRepository
                (Api.Resolved
                   (RepositoryDetails.mk 9 "solo" "solo" None
                      "https://github.com/solo" 0 0 0 None
                      "2024-01-01T00:00:00Z" "2024-01-01T00:00:00Z"
                      "2024-01-01T00:00:00Z" "main" 0)))
             SinglePage.initial
    = Some (p, [], Failed Api.TypeError)
    /\ SinglePage.toasts p = ["Failed to load repository data"].
Proof.
  eexists. split.
  - apply (name_without_slash_fails Sample.base Sample.noEncoding
             Sample.showNumber Sample.backend
             (RepositoryDetails.mk 9 "solo" "solo" None
                "https://github.com/solo" 0 0 0 None
                "2024-01-01T00:00:00Z" "2024-01-01T00:00:00Z"
                "2024-01-01T00:00:00Z" "main" 0)
             SinglePage.initial).
    reflexivity.
  - reflexivity.
Defined.

(** ** The language list, ranked *)

Lemma byValue_trans (x y z : LanguageData.t) :
  LanguageDistribution.byValue x y <= 0 ->
  LanguageDistribution.byValue y z <= 0 ->
  LanguageDistribution.byValue x z <= 0.
Proof. unfold LanguageDistribution.byValue. lia. Qed.

Lemma byValue_total (x y : LanguageData.t) :
  LanguageDistribution.byValue x y > 0 ->
  LanguageDistribution.byValue y x <= 0.
Proof. unfold LanguageDistribution.byValue. lia. Qed.

Lemma languageData_shape languages :
  LanguageDistribution.languageData languages
  = Array_sort LanguageDistribution.byValue
      (map (fun entry =>
              LanguageData.mk (fst entry) (snd entry)
                (toFixed1_string
                   (js_times
                      (js_div (snd entry)
                              (LanguageDistribution.totalBytes languages))
                      100)))
           languages).
Proof.
  unfold LanguageDistribution.languageData, LanguageDistribution.Object_keys.
  rewrite length_map. destruct languages as [| e l]; [reflexivity |].
  cbn [List.length Nat.eqb]. f_equal. apply map_ext. now intros [language bytes].
Qed.

(** X16: the language list is the languages of the repository, ranked.
    The entries are the languages of the mapping with their byte counts,
    each exactly once, in descending order of byte count, and languages
    with the same byte count keep the order they have in the mapping. *)
Theorem language_data_ranked
        (languages : LanguageDistribution.RepositoryLanguages) :
  Permutation
    (map (fun d => (LanguageData.name d, LanguageData.value d))
         (LanguageDistribution.languageData languages))
    languages
  /\ StronglySorted
       (fun a b => LanguageData.value b <= LanguageData.value a)
       (LanguageDistribution.languageData languages)
  /\ (forall a b,
         before a b (LanguageDistribution.languageData languages) ->
         LanguageData.value a = LanguageData.value b ->
         before (LanguageData.name a, LanguageData.value a)
                (LanguageData.name b, LanguageData.value b) languages).
Proof.
  rewrite languageData_shape.
  set (mk := fun entry : string * Z =>
               LanguageData.mk (fst entry) (snd entry)
                 (toFixed1_string
                    (js_times
                       (js_div (snd entry)
                               (LanguageDistribution.totalBytes languages))
                       100))).
  assert (Back : forall l : list (string * Z),
             map (fun d => (LanguageData.name d, LanguageData.value d))
                 (map mk l) = l).
  { intros l. rewrite map_map. rewrite <- (map_id l) at 2.
    apply map_ext. now intros [language bytes]. }
  split; [| split].
  - rewrite (Permutation_map _ (Array_sort_perm _ (map mk languages))).
    now rewrite Back.
  - apply (StronglySorted_In_weaken
             (fun a b => LanguageDistribution.byValue a b <= 0)).
    + apply Array_sort_sorted; [apply byValue_trans | apply byValue_total].
    + intros a b _ _. unfold LanguageDistribution.byValue. lia.
  - intros a b Hb E.
    apply Array_sort_stable in Hb;
      [| unfold LanguageDistribution.byValue; lia].
    apply (before_map (fun d => (LanguageData.name d, LanguageData.value d)))
      in Hb.
    now rewrite Back in Hb.
Qed.

(** ** When the timeline cannot be drawn *)

Section TimelineFailure.
Import CommitTimeline.
Variable Date_parse : string -> option Z.

Lemma countDays_None commits : forall dateMap,
  countDays Date_parse commits dateMap = None
  <-> exists c, In c commits /\ committedAt Date_parse c = None.
Proof.
  induction commits as [| c cs IH]; intros dateMap; cbn [countDays].
  - split; [discriminate | intros (c & [] & _)].
  - unfold dateKey at 1.
    destruct (committedAt Date_parse c) as [t |] eqn:E; cbn [option_map].
    + rewrite IH. split.
      * intros (c' & Hin & Hc'). exists c'. split; [now right | exact Hc'].
      * intros (c' & [<- | Hin] & Hc'); [congruence |].
        exists c'. auto.
    + split; [| reflexivity]. intros _. exists c. split; [now left | exact E].
Qed.

End TimelineFailure.

(** X17: one invalid committer date and there is no timeline.  The
    timeline of a window is computed exactly when every committer date of
    the window is a valid date: a single commit whose date the host cannot
    parse, or whose time value is out of the range of dates, makes
    [toISOString] throw, whatever the other commits are.  The empty window
    always gives the empty timeline. *)
Theorem timeline_fails_on_invalid_date
        (Date_parse : string -> option Z)
        (toLocaleDateString : string -> string) (commits : list Commit.t) :
  (CommitTimeline.timelineData Date_parse toLocaleDateString commits = None
   <-> exists c,
         In c commits
         /\ CommitTimeline.committedAt Date_parse c = None)
  /\ (forall c,
         CommitTimeline.committedAt Date_parse c = None
         <-> match Date_parse (CommitTimeline.committerDate c) with
             | Some t => ~ JsDate.validTime t
             | None => True
             end)
  /\ CommitTimeline.timelineData Date_parse toLocaleDateString [] = Some [].
Proof.
  split; [| split; [| reflexivity]].
  - destruct commits as [| c cs].
    + split; [discriminate | intros (c & [] & _)].
    + unfold CommitTimeline.timelineData.
      rewrite <- (countDays_None Date_parse (c :: cs) []).
      destruct (CommitTimeline.countDays Date_parse (c :: cs) []);
        cbn [option_map]; split; congruence.
  - intros c. unfold CommitTimeline.committedAt.
    destruct (Date_parse (CommitTimeline.committerDate c)) as [t |];
      [| tauto].
    unfold JsDate.TimeClip, JsDate.validTime.
    destruct (Z.leb_spec (-8640000000000000) t);
      destruct (Z.leb_spec t 8640000000000000); cbn [andb];
      split; try discriminate; try lia; try reflexivity; intros; lia.
Qed.

(** ** Date keys in order *)

Lemma order_check_all : forallb order_check (Zrange 0 (Z.to_nat 365)) = true.
Proof. vm_compute. reflexivity. Qed.

Lemma civil_from_days_march z :
  dateNumber (civil_from_days z)
  = marchYear z * 10000 + monthDayNumber (dayOfMarchYear z).
Proof.
  unfold civil_from_days, marchYear, dayOfMarchYear, monthDayNumber,
    date_of_doe, dateNumber.
  destruct (month_day_of_doy _) as [m d]. lia.
Qed.

Lemma march_bounds z : 0 <= dayOfMarchYear z <= 365.
Proof.
  unfold dayOfMarchYear.
  set (z' := z + 719468). set (era := z' / 146097).
  assert (H : 0 <= z' - era * 146097 < 146097).
  { unfold era. Z.div_mod_to_equations. lia. }
  destruct (yoe_of_doe_spec _ H) as (_ & B & _). exact B.
Qed.

Lemma march_order z1 z2 :
  z1 < z2 ->
  marchYear z1 < marchYear z2
  \/ (marchYear z1 = marchYear z2 /\ dayOfMarchYear z1 < dayOfMarchYear z2).
Proof.
  intros H. unfold marchYear, dayOfMarchYear.
  set (a := z1 + 719468). set (b := z2 + 719468).
  set (ea := a / 146097). set (eb := b / 146097).
  assert (Ha : 0 <= a - ea * 146097 < 146097).
  { unfold ea. Z.div_mod_to_equations. lia. }
  assert (Hb : 0 <= b - eb * 146097 < 146097).
  { unfold eb. Z.div_mod_to_equations. lia. }
  assert (E : ea <= eb).
  { unfold ea, eb. apply Z.div_le_mono; lia. }
  destruct (yoe_of_doe_spec _ Ha) as (Ya & Da & _).
  destruct (yoe_of_doe_spec _ Hb) as (Yb & Db & _).
  destruct (Z.eq_dec ea eb) as [Eq | Ne].
  - rewrite Eq in *.
    assert (M : yoe_of_doe (a - eb * 146097) <= yoe_of_doe (b - eb * 146097)).
    { apply yoe_of_doe_mono. lia. }
    destruct (Z.eq_dec (yoe_of_doe (a - eb * 146097))
                       (yoe_of_doe (b - eb * 146097))) as [Ey | Ny].
    + right. rewrite Ey. split; [reflexivity |]. lia.
    + left. lia.
  - left. lia.
Qed.

Lemma order_checked doy :
  0 <= doy <= 364 ->
  monthDayNumber doy < monthDayNumber (doy + 1)
  /\ 301 <= monthDayNumber doy /\ monthDayNumber (doy + 1) <= 10229.
Proof.
  intros H. pose proof order_check_all as A.
  rewrite forallb_forall in A.
  assert (I : In doy (Zrange 0 (Z.to_nat 365))) by (apply Zrange_In; lia).
  specialize (A doy I). unfold order_check in A.
  apply andb_prop in A as [A C]. apply andb_prop in A as [A B].
  apply Z.ltb_lt in A. apply Z.leb_le in B, C. lia.
Qed.

Lemma monthDayNumber_mono_nat n : forall a,
  0 <= a -> a + Z.of_nat n <= 365 ->
  monthDayNumber a <= monthDayNumber (a + Z.of_nat n)
  /\ (0 < Z.of_nat n -> monthDayNumber a < monthDayNumber (a + Z.of_nat n)).
Proof.
  induction n as [| n IH]; intros a Ha Hb.
  - replace (a + Z.of_nat 0) with a by lia. split; lia.
  - destruct (IH a Ha ltac:(lia)) as [L _].
    destruct (order_checked (a + Z.of_nat n) ltac:(lia)) as (Hs & _).
    replace (a + Z.of_nat (S n)) with (a + Z.of_nat n + 1) by lia.
    split; lia.
Qed.

Lemma monthDayNumber_mono a b :
  0 <= a < b -> b <= 365 -> monthDayNumber a < monthDayNumber b.
Proof.
  intros H Hb.
  destruct (monthDayNumber_mono_nat (Z.to_nat (b - a)) a ltac:(lia) ltac:(lia))
    as [_ Hs].
  replace (a + Z.of_nat (Z.to_nat (b - a))) with b in Hs by lia.
  apply Hs. lia.
Qed.

Lemma monthDayNumber_bounds doy :
  0 <= doy <= 365 -> 301 <= monthDayNumber doy <= 10229.
Proof.
  intros H. destruct (Z.eq_dec doy 365) as [-> | N].
  - destruct (order_checked 364 ltac:(lia)) as (A & B & C).
    change (364 + 1) with 365 in *. lia.
  - destruct (order_checked doy ltac:(lia)) as (A & B & C). lia.
Qed.

Lemma dateNumber_mono z1 z2 :
  z1 < z2 -> dateNumber (civil_from_days z1) < dateNumber (civil_from_days z2).
Proof.
  intros H. rewrite !civil_from_days_march.
  pose proof (march_bounds z1) as B1. pose proof (march_bounds z2) as B2.
  pose proof (monthDayNumber_bounds _ B1) as K1.
  pose proof (monthDayNumber_bounds _ B2) as K2.
  destruct (march_order z1 z2 H) as [Y | [Y D]].
  - lia.
  - rewrite Y. pose proof (monthDayNumber_mono _ _ (conj (proj1 B1) D) (proj2 B2)).
    lia.
Qed.

Lemma dateNumber_compare z1 z2 :
  (dateNumber (civil_from_days z1) ?= dateNumber (civil_from_days z2))
  = (z1 ?= z2).
Proof.
  destruct (Z.compare_spec z1 z2) as [-> | L | G].
  - apply Z.compare_refl.
  - apply Z.compare_lt_iff. now apply dateNumber_mono.
  - apply Z.compare_gt_iff. now apply dateNumber_mono.
Qed.

(** Digits compare as numbers do. *)
Lemma digit_compare a b :
  0 <= a <= 9 -> 0 <= b <= 9 ->
  Ascii.compare (digit a) (digit b) = (a ?= b).
Proof.
  intros Ha Hb.
  assert (Ia : In a (Zrange 0 (Z.to_nat 10))) by (apply Zrange_In; lia).
  assert (Ib : In b (Zrange 0 (Z.to_nat 10))) by (apply Zrange_In; lia).
  cbn in Ia, Ib.
  repeat (destruct Ia as [<- | Ia];
          [repeat (destruct Ib as [<- | Ib]; [reflexivity |]); destruct Ib |]).
  destruct Ia.
Qed.


Lemma lex_step (a b x y k : Z) :
  0 <= x < k -> 0 <= y < k ->
  (match (a ?= b) with Eq => (x ?= y) | o => o end)
  = (a * k + x ?= b * k + y).
Proof.
  intros Hx Hy. destruct (Z.compare_spec a b) as [-> | L | G]; symmetry.
  - destruct (Z.compare_spec x y) as [-> | L | G].
    + apply Z.compare_refl.
    + apply Z.compare_lt_iff. lia.
    + apply Z.compare_gt_iff. lia.
  - apply Z.compare_lt_iff. nia.
  - apply Z.compare_gt_iff. nia.
Qed.

Lemma compare_cons c1 c2 s1 s2 :
  String.compare (String c1 s1) (String c2 s2)
  = match Ascii.compare c1 c2 with
    | Eq => String.compare s1 s2
    | o => o
    end.
Proof. reflexivity. Qed.

Lemma compare_last a b :
  match (a ?= b) with Eq => Eq | o => o end = (a ?= b).
Proof. now destruct (a ?= b). Qed.

Lemma lex8 a7 a6 a5 a4 a3 a2 a1 a0 b7 b6 b5 b4 b3 b2 b1 b0 :
  0 <= a7 <= 9 -> 0 <= a6 <= 9 -> 0 <= a5 <= 9 -> 0 <= a4 <= 9 ->
  0 <= a3 <= 9 -> 0 <= a2 <= 9 -> 0 <= a1 <= 9 -> 0 <= a0 <= 9 ->
  0 <= b7 <= 9 -> 0 <= b6 <= 9 -> 0 <= b5 <= 9 -> 0 <= b4 <= 9 ->
  0 <= b3 <= 9 -> 0 <= b2 <= 9 -> 0 <= b1 <= 9 -> 0 <= b0 <= 9 ->
  match a7 ?= b7 with
  | Eq =>
      match a6 ?= b6 with
      | Eq =>
          match a5 ?= b5 with
          | Eq =>
              match a4 ?= b4 with
              | Eq =>
                  match a3 ?= b3 with
                  | Eq =>
                      match a2 ?= b2 with
                      | Eq =>
                          match a1 ?= b1 with
                          | Eq => match a0 ?= b0 with
                                  | Eq => Eq
                                  | o => o
                                  end
                          | o => o
                          end
                      | o => o
                      end
                  | o => o
                  end
              | o => o
              end
          | o => o
          end
      | o => o
      end
  | o => o
  end
  = ((a7 * 1000 + a6 * 100 + a5 * 10 + a4) * 10000
     + (a3 * 10 + a2) * 100 + (a1 * 10 + a0)
     ?= (b7 * 1000 + b6 * 100 + b5 * 10 + b4) * 10000
        + (b3 * 10 + b2) * 100 + (b1 * 10 + b0)).
Proof.
  intros.
  rewrite compare_last.
  rewrite (lex_step a1 b1 a0 b0 10) by lia.
  rewrite (lex_step a2 b2 _ _ 100) by lia.
  rewrite (lex_step a3 b3 _ _ 1000) by lia.
  rewrite (lex_step a4 b4 _ _ 10000) by lia.
  rewrite (lex_step a5 b5 _ _ 100000) by lia.
  rewrite (lex_step a6 b6 _ _ 1000000) by lia.
  rewrite (lex_step a7 b7 _ _ 10000000) by lia.
  f_equal; lia.
Qed.

Lemma dateKeyOf_compare y1 m1 d1 y2 m2 d2 :
  0 <= y1 <= 9999 -> 0 <= m1 <= 99 -> 0 <= d1 <= 99 ->
  0 <= y2 <= 9999 -> 0 <= m2 <= 99 -> 0 <= d2 <= 99 ->
  String.compare (dateKeyOf (y1, m1, d1)) (dateKeyOf (y2, m2, d2))
  = (dateNumber (y1, m1, d1) ?= dateNumber (y2, m2, d2)).
Proof.
  intros Y1 M1 D1 Y2 M2 D2.
  unfold dateKeyOf, dateNumber.
  cbv [String.concat String.append pad4 pad2].
  rewrite !compare_cons.
  rewrite !digit_compare by apply digit_range.
  change (Ascii.compare "-" "-") with Eq. cbv iota.
  change (String.compare "" "") with Eq.
  rewrite lex8 by apply digit_range.
  f_equal; Z.div_mod_to_equations; lia.
Qed.

Lemma fourDigitYear_civil t :
  fourDigitYear t ->
  exists y m d,
    civil_from_days (Day t) = (y, m, d)
    /\ 0 <= y <= 9999 /\ 1 <= m <= 12 /\ 1 <= d <= 31.
Proof.
  intros [L U].
  assert (DL : -719528 <= Day t).
  { unfold Day, msPerDay. apply Z.div_le_lower_bound; lia. }
  assert (DU : Day t <= 2932896).
  { assert (Day t < 2932897); [| lia].
    unfold Day, msPerDay. apply Z.div_lt_upper_bound; lia. }
  destruct (civil_from_days_spec (Day t)) as (y & m & d & E & Hm & Hd & _).
  exists y, m, d. split; [exact E |].
  assert (NL : dateNumber (civil_from_days (-719528))
               <= dateNumber (civil_from_days (Day t))).
  { destruct (Z.eq_dec (-719528) (Day t)) as [<- | N]; [lia |].
    apply Z.lt_le_incl, dateNumber_mono. lia. }
  assert (NU : dateNumber (civil_from_days (Day t))
               <= dateNumber (civil_from_days 2932896)).
  { destruct (Z.eq_dec (Day t) 2932896) as [-> | N]; [lia |].
    apply Z.lt_le_incl, dateNumber_mono. lia. }
  rewrite E in NL, NU.
  change (dateNumber (civil_from_days (-719528))) with 101 in NL.
  change (dateNumber (civil_from_days 2932896)) with 99991231 in NU.
  unfold dateNumber in NL, NU. repeat split; lia.
Qed.

Lemma isoDate_compare t1 t2 :
  fourDigitYear t1 -> fourDigitYear t2 ->
  String.compare (isoDate t1) (isoDate t2) = (Day t1 ?= Day t2).
Proof.
  intros F1 F2.
  destruct (fourDigitYear_civil t1 F1) as (y1 & m1 & d1 & E1 & Y1 & M1 & D1).
  destruct (fourDigitYear_civil t2 F2) as (y2 & m2 & d2 & E2 & Y2 & M2 & D2).
  rewrite <- dateNumber_compare. rewrite E1, E2.
  rewrite <- dateKeyOf_compare by lia.
  unfold isoDate, dateKeyOf, isoYear. rewrite E1, E2.
  destruct (Z.leb_spec 0 y1); [| lia]. destruct (Z.leb_spec y1 9999); [| lia].
  destruct (Z.leb_spec 0 y2); [| lia]. destruct (Z.leb_spec y2 9999); [| lia].
  reflexivity.
Qed.

Lemma fourDigitYear_valid t : fourDigitYear t -> validTime t.
Proof. unfold fourDigitYear, validTime. lia. Qed.

(** X18: the timeline runs in chronological order.  When every committer
    date of the window is a valid date of the years 0 to 9999, the buckets
    of the timeline come with strictly increasing UTC days: the order of
    the date keys, in which they are sorted, is then the order of the days.
    It is so for four-digit years only: the first day of the year 10000,
    whose key starts with a plus sign, sorts before 1 January 1970. *)
Theorem timeline_chronological
        (Date_parse : string -> option Z)
        (toLocaleDateString : string -> string) (commits : list Commit.t) :
  (forall c, In c commits ->
             exists t, committedAt Date_parse c = Some t /\ fourDigitYear t) ->
  (exists buckets,
      timelineData Date_parse toLocaleDateString commits = Some buckets
      /\ StronglySorted
           (fun a b =>
              exists da db,
                dayOfKey (TimelineData.date a) = Some da
                /\ dayOfKey (TimelineData.date b) = Some db
                /\ da < db)
           buckets)
  /\ (validTime 253402300800000
      /\ Day 0 < Day 253402300800000
      /\ String.compare (isoDate 253402300800000) (isoDate 0) = Lt).
Proof.
  intros Hfour. split; [| split; [unfold validTime; lia | split; reflexivity]].
  assert (Hall : forall c, In c commits ->
            exists t, committedAt Date_parse c = Some t /\ validTime t).
  { intros c Hc. destruct (Hfour c Hc) as (t & Ht & F).
    exists t. split; [exact Ht | now apply fourDigitYear_valid]. }
  assert (Hkeys : forall c, In c commits -> dateKey Date_parse c <> None).
  { intros c Hc. destruct (Hall c Hc) as (t & Ht & _).
    unfold dateKey. rewrite Ht. discriminate. }
  destruct (countDays_tallied Date_parse commits [] [] Hkeys tallied_nil)
    as (m & Hm & Ht).
  cbn [app] in Ht.
  destruct (buckets_of_tally Date_parse toLocaleDateString commits m Hall Ht)
    as (Hnd & Hb & _ & _).
  set (buckets := Array_sort byDate (map (toPoint toLocaleDateString) m)) in *.
  exists buckets. split.
  - unfold timelineData. rewrite Hm.
    destruct commits as [| c cs]; [| reflexivity].
    cbn in Hm. injection Hm as <-. reflexivity.
  - apply (StronglySorted_In_weaken
             (fun a b => String.compare (TimelineData.date a)
                                        (TimelineData.date b) = Lt)).
    + apply sorted_strict; [| exact Hnd].
      apply (Array_sort_sorted byDate byDate_trans byDate_total).
    + intros a b Ha Hb' C.
      destruct (Hb a Ha) as (ca & ta & Hca & Hta & Va & Da & _).
      destruct (Hb b Hb') as (cb & tb & Hcb & Htb & Vb & Db & _).
      assert (Fa : fourDigitYear ta).
      { destruct (Hfour ca Hca) as (t & Ht' & F). congruence. }
      assert (Fb : fourDigitYear tb).
      { destruct (Hfour cb Hcb) as (t & Ht' & F). congruence. }
      exists (Day ta), (Day tb). rewrite Da, Db in *.
      rewrite !dayOfKey_isoDate by assumption.
      split; [reflexivity |]. split; [reflexivity |].
      rewrite (isoDate_compare ta tb Fa Fb) in C.
      now apply Z.compare_lt_iff.
Qed.

(** Two commits of 2 and 3 January 2024. *)
Lemma timeline_chronological_witness :
  exists buckets,
    timelineData parseUtc (fun s => s) [Sample.byBob; Sample.byAlice]
    = Some buckets
    /\ StronglySorted
         (fun a b =>
            exists da db,
              dayOfKey (TimelineData.date a) = Some da
              /\ dayOfKey (TimelineData.date b) = Some db
              /\ da < db)
         buckets.
Proof.
  apply (timeline_chronological parseUtc (fun s => s)
           [Sample.byBob; Sample.byAlice]).
  intros c [<- | [<- | []]]; eexists;
    (split; [vm_compute; reflexivity | unfold fourDigitYear; lia]).
Defined.

(** ** The contributors card and its pagination *)





(** ** A cycle that succeeds *)

Lemma runCycle_from_repository base enc show backend fuel rd owner repo cs p :
  ownerAndRepo (RepositoryDetails.full_name rd) = (owner, repo) ->
  snd (SinglePage.requestCommits base enc show backend owner repo)
  = Api.Resolved cs ->
  runCycle (SinglePage.resume base enc show backend) (S (S fuel))
           (SinglePage.AwaitRepository (Api.Resolved rd)) p
  = match runCycle (SinglePage.resume base enc show backend) fuel
            (SinglePage.AwaitContributors rd owner repo [] 1
               (SinglePage.pageSource base enc show backend owner repo 1))
            (SinglePage.setCommits cs p) with
    | Some (p2, log2, o) =>
        Some (p2,
              fst (SinglePage.requestCommits base enc show backend owner repo)
              ++ fst (SinglePage.requestContributors base enc show backend
                        owner repo 1)
              ++ log2, o)
    | None => None
    end.
Proof.
  intros Hname Hcommits. cbn [runCycle SinglePage.resume]. rewrite Hname.
  destruct (SinglePage.requestCommits base enc show backend owner repo)
    as [log1 r1]. cbn [fst snd] in *. subst r1.
  cbn [runCycle SinglePage.resume]. unfold SinglePage.pageSource.
  destruct (SinglePage.requestContributors base enc show backend owner repo 1)
    as [log2 r2]. cbn [fst snd].
  destruct (runCycle (SinglePage.resume base enc show backend) fuel
              (SinglePage.AwaitContributors rd owner repo [] 1 r2)
              (SinglePage.setCommits cs p)) as [[[p2 l2] o] |]; reflexivity.
Qed.

(** X20: a cycle of the single-component page publishes what it fetched.
    When the repository with the given id arrives, then the commit window
    of its owner and name, then the contributor pages until the loop
    returns, the cycle ends as published, not loading, with exactly that
    repository, that window and the merged contributors in the state, no
    toast and no navigation; its requests are, in this order, the one by
    id, the one for the commits, and one for each contributor page asked
    for. *)
Theorem single_page_publishes_what_it_fetched
        (base : string) (enc : string -> string) (show : JsNumber -> string)
        (backend : Api.Backend) (id : Z) (p : SinglePage.Page)
        (repoDetails : RepositoryDetails.t) (owner : string)
        (repo : option string) (commitsData : list Commit.t)
        (asked : list nat) (merged : list Contributor.t) :
  id <> 0 ->
  snd (Api.getRepositoryById base show backend (Finite (inject_Z id)))
  = Api.Resolved repoDetails ->
  ownerAndRepo (RepositoryDetails.full_name repoDetails) = (owner, repo) ->
  snd (SinglePage.requestCommits base enc show backend owner repo)
  = Api.Resolved commitsData ->
  SinglePage.mergeContributors
    (SinglePage.pageSource base enc show backend owner repo)
  = Some (asked, Api.Resolved merged) ->
  fetchCycle (SinglePage.effect base show backend)
             (SinglePage.resume base enc show backend) 12 (Some id) p
  = Some
      (SinglePage.mkPage (Some repoDetails) commitsData merged false
         (SinglePage.isNotFound p) (SinglePage.toasts p)
         (SinglePage.pushes p),
       fst (Api.getRepositoryById base show backend (Finite (inject_Z id)))
       ++ fst (SinglePage.requestCommits base enc show backend owner repo)
       ++ flat_map
            (fun q =>
               fst (SinglePage.requestContributors base enc show backend
                      owner repo q))
            asked,
       Published).
Proof.
  intros Hid Hrepo Hname Hcommits Hloop.
  unfold fetchCycle, SinglePage.effect.
  apply Z.eqb_neq in Hid. rewrite Hid.
  destruct (Api.getRepositoryById base show backend (Finite (inject_Z id)))
    as [log0 r0]. cbn [fst snd] in *. subst r0.
  change 12%nat with (S (S 10)).
  rewrite (runCycle_from_repository base enc show backend 10 repoDetails
             owner repo commitsData _ Hname Hcommits).
  rewrite runCycle_contributorLoop.
  unfold SinglePage.mergeContributors in Hloop. rewrite Hloop.
  apply contributorLoop_head in Hloop. rewrite Hloop at 2.
  cbn [flat_map tl]. reflexivity.
Qed.

(** Repository 2 of the sample backend. *)
Lemma single_page_publishes_what_it_fetched_witness :
  exists log,
    fetchCycle (SinglePage.effect Sample.base Sample.showNumber Sample.backend)
               (SinglePage.resume Sample.base Sample.noEncoding
                  Sample.showNumber Sample.backend) 12 (Some 2)
               SinglePage.initial
    = Some (SinglePage.mkPage (Some Sample.two) [Sample.byAlice]
              [Sample.contributor 2] false false [] [],
            log, Published)
    /\ List.length log = 3%nat.
Proof.
  eexists. split.
  - apply (single_page_publishes_what_it_fetched Sample.base Sample.noEncoding
             Sample.showNumber Sample.backend 2 SinglePage.initial
             Sample.two "o" (Some "two") [Sample.byAlice] [1%nat]
             [Sample.contributor 2]).
    + discriminate.
    + reflexivity.
    + reflexivity.
    + reflexivity.
    + reflexivity.
  - reflexivity.
Defined.

(** ** The two impact views *)

(** X22: the two impact views count the commits of an account alike.  For
    an account id other than 0, the commits that the user-impact card
    counts under that id are the commits of the window whose account has
    the id, which is what the single-component page counts for the
    contributor with that id; the card and the page then show the same
    count and the same percentage for it. *)
Theorem impact_views_agree (commits : list Commit.t) :
  (forall id,
      id <> 0 ->
      commitsOf (KNum id) commits = SinglePageStats.authoredBy id commits)
  /\ (forall e contributor,
         Contributor.id contributor <> 0 ->
         In (KNum (Contributor.id contributor), e) (ranked commits) ->
         SinglePageStats.commitCount
           (SinglePageStats.toStats commits contributor)
         = ContributorStats.commitCount
             (toStats (Z.of_nat (List.length commits)) e)
         /\ (SinglePageStats.percentage
               (SinglePageStats.toStats commits contributor)
             == ContributorStats.percentage
                  (toStats (Z.of_nat (List.length commits)) e))%Q).
Proof.
  assert (Same : forall id,
             id <> 0 ->
             commitsOf (KNum id) commits
             = SinglePageStats.authoredBy id commits).
  { intros id Hid. unfold commitsOf, SinglePageStats.authoredBy.
    do 2 f_equal. apply filter_ext. intros c.
    unfold countedUnder, resolve, commitKey, js_or.
    destruct (Commit.author c) as [a |].
    - cbn [truthy].
      destruct (Z.eqb_spec (User.id a) 0) as [E0 | N0]; cbn [negb].
      + destruct (Z.eqb_spec (User.id a) id); [congruence |].
        cbn. destruct (String.eqb (User.login a) "") eqn:L; cbn;
          rewrite ?L; reflexivity.
      + apply Z.eqb_neq in N0. cbn. rewrite ?N0. cbn. rewrite ?N0. cbn.
        reflexivity.
    - destruct (truthy
                  (Some (KStr (GitActor.email
                                 (CommitDetail.author (Commit.commit c))))));
        reflexivity. }
  split; [exact Same |].
  intros e contributor Hid Hin.
  apply ranked_get in Hin.
  destruct (cnt_count _ _ (authorCounts_counted commits) _ _ Hin)
    as (C & Pos & _).
  assert (NE : commits <> []).
  { intros ->. discriminate Hin. }
  assert (CC : SinglePageStats.commitCount
                 (SinglePageStats.toStats commits contributor) = count e).
  { rewrite toStats_commitCount. apply Z.eqb_neq in Hid. rewrite Hid.
    rewrite C. symmetry. apply Same. now apply Z.eqb_neq. }
  split; [exact CC |].
  rewrite toStats_percentage, CC, totalCommits_length by assumption.
  cbn [ContributorStats.percentage toStats].
  rewrite percent_spec; [reflexivity |].
  destruct commits; [congruence | cbn [List.length]; lia].
Qed.

(** ** The size shown for a language *)

Lemma kb_formula bytes :
  0 <= bytes -> LanguageSize.kb bytes = (200 * bytes + 1024) / 2048.
Proof.
  intros H. unfold LanguageSize.kb, toFixed2.
  assert (P : Qle_bool 0 (inject_Z bytes / inject_Z 1024) = true).
  { apply Qle_bool_iff. unfold Qle. cbn. lia. }
  rewrite P. unfold Qfloor. cbn [inject_Z Qdiv Qinv Qmult Qplus Qnum Qden].
  change (Z.pos (1 * 1024 * 1 * 2)) with 2048.
  change (Z.pos (1 * 1024 * 1)) with 1024.
  f_equal. lia.
Qed.

Lemma mb_formula bytes :
  0 <= bytes -> LanguageSize.mb bytes = (200 * bytes + 1048576) / 2097152.
Proof.
  intros H. unfold LanguageSize.mb, toFixed2.
  assert (P : Qle_bool 0 (inject_Z bytes / inject_Z (1024 * 1024)) = true).
  { apply Qle_bool_iff. unfold Qle. cbn. lia. }
  rewrite P. unfold Qfloor.
  change (1024 * 1024) with 1048576.
  cbn [inject_Z Qdiv Qinv Qmult Qplus Qnum Qden].
  change (Z.pos (1 * 1048576 * 1 * 2)) with 2097152.
  change (Z.pos (1 * 1048576 * 1)) with 1048576.
  f_equal. lia.
Qed.

(** X23: the size shown for a language.  For a byte count that is not
    negative, the size is given in MB from 1048576 bytes on and in KB
    below; a size in MB is never less than 1.00, a size in KB never more
    than 1024.00, which is what the last five byte counts before 1048576
    show; within a unit a larger byte count never shows a smaller number;
    and the size reads 0.00 KB exactly for the byte counts up to 5. *)
Theorem language_size_label (bytes : Z) :
  0 <= bytes ->
  (snd (LanguageSize.size bytes) = LanguageSize.MB <-> 1048576 <= bytes)
  /\ (snd (LanguageSize.size bytes) = LanguageSize.MB ->
      100 <= fst (LanguageSize.size bytes))
  /\ (snd (LanguageSize.size bytes) = LanguageSize.KB ->
      0 <= fst (LanguageSize.size bytes) <= 102400
      /\ (fst (LanguageSize.size bytes) = 102400 <-> 1048571 <= bytes)
      /\ (fst (LanguageSize.size bytes) = 0 <-> bytes <= 5))
  /\ (forall more,
         bytes <= more ->
         snd (LanguageSize.size more) = snd (LanguageSize.size bytes) ->
         fst (LanguageSize.size bytes) <= fst (LanguageSize.size more)).
Proof.
  intros H. unfold LanguageSize.size.
  change (1024 * 1024) with 1048576.
  split; [| split; [| split]].
  - destruct (Z.leb_spec 1048576 bytes); cbn [snd]; split;
      intros; try discriminate; try reflexivity; lia.
  - destruct (Z.leb_spec 1048576 bytes); cbn [fst snd];
      [| discriminate].
    intros _. rewrite mb_formula by lia. Z.div_mod_to_equations. lia.
  - destruct (Z.leb_spec 1048576 bytes); cbn [fst snd];
      [discriminate |].
    intros _. rewrite kb_formula by lia.
    repeat split; Z.div_mod_to_equations; lia.
  - intros more Hm.
    destruct (Z.leb_spec 1048576 bytes); destruct (Z.leb_spec 1048576 more);
      cbn [fst snd]; try discriminate; intros _.
    + rewrite !mb_formula by lia. Z.div_mod_to_equations. lia.
    + rewrite !kb_formula by lia. Z.div_mod_to_equations. lia.
Qed.

(** 1048575 bytes read 1024.00 KB, and one byte more reads 1.00 MB. *)
Lemma language_size_label_witness :
  LanguageSize.sizeText 1048575 = "1024.00 KB"
  /\ LanguageSize.sizeText 1048576 = "1.00 MB"
  /\ 100 <= fst (LanguageSize.size 1048576).
Proof.
  split; [reflexivity |]. split; [reflexivity |].
  apply (proj1 (proj2 (language_size_label 1048576 ltac:(lia)))).
  reflexivity.
Defined.
